(** * A shallow embedding of the Checkend Node SDK notice pipeline

    The development follows the layout of the TypeScript sources:

    - [JSString]      : the fragment of the JavaScript string library
                        the pipeline calls (length, substring, trim,
                        split, startsWith, includes, replace,
                        toLowerCase);
    - [JSObject], [JSValue] : plain objects and JavaScript values;
    - [RegExp]        : the regular expressions the sanitizer builds;
    - [Sanitize]      : src/filters/sanitize.ts (class SanitizeFilter);
    - [Notice]        : src/types.ts and src/notice.ts (createNotice,
                        toPayload);
    - [Effect]        : computations that log and may throw;
    - [Configuration] : src/configuration.ts (class Configuration);
    - [Client]        : src/client.ts (class Client);
    - [Index]         : src/index.ts (runBeforeNotifyCallbacks);
    - [Worker]        : src/worker.ts (class Worker);
    - [SanitizeFacts], [NoticeFacts], [ClientFacts], [WorkerFacts] :
                        further properties of these;
    - [Testing]       : src/testing.ts (mockFetch, captureFromPayload);
    - [Settings]      : src/configuration.ts (the other settings);
    - [Scope], [Facade] : src/index.ts (the context store, configure,
                        notify, the handlers);
    - [Integrations]  : src/integrations (what is read off a request).

    Modelling conventions.  A JavaScript string is a sequence of code
    units; here a code unit is an [ascii] character, that is the Latin-1
    range 0..255 of UTF-16.  Lengths, indices and counters are [Z].
    A plain object is the list of its own enumerable entries in
    [Object.keys] order, with pairwise distinct keys.  A spread and an
    object literal define own properties ([JSObject.set]); an
    assignment [o[k] = v] goes through the prototypes and, for the key
    [__proto__], runs the setter of [Object.prototype] instead of
    defining a property ([JSObject.put], [Sanitize.assignTo],
    [Scope.assignKey]).  The prototype of an object is kept where the
    code that follows depends on it. *)

From Stdlib Require Import ZArith List String Ascii Bool Lia.
From Stdlib Require QArith Qround Lqa.
Import ListNotations.

Local Open Scope Z_scope.
Local Open Scope string_scope.

Set Warnings "-register-all".

(* ================================================================== *)
(** ** JavaScript strings *)
(* ================================================================== *)

Module JSString.

(** [s.length] *)
Definition strlen (s : string) : Z := Z.of_nat (String.length s).

Fixpoint take (n : nat) (s : string) : string :=
  match n, s with
  | O, _ => EmptyString
  | S _, EmptyString => EmptyString
  | S n', String c t => String c (take n' t)
  end.

Fixpoint drop (n : nat) (s : string) : string :=
  match n, s with
  | O, _ => s
  | S _, EmptyString => EmptyString
  | S n', String _ t => drop n' t
  end.

(** [s.substring(a, b)]: both bounds are clamped to [0, s.length] and
    swapped when out of order. *)
Definition substring (s : string) (a b : Z) : string :=
  let len := strlen s in
  let a' := Z.min (Z.max a 0) len in
  let b' := Z.min (Z.max b 0) len in
  let lo := Z.min a' b' in
  let hi := Z.max a' b' in
  take (Z.to_nat (hi - lo)) (drop (Z.to_nat lo) s).

(** [s.startsWith(p)] *)
Fixpoint startsWith (s p : string) {struct p} : bool :=
  match p, s with
  | EmptyString, _ => true
  | String _ _, EmptyString => false
  | String a p', String b s' => Ascii.eqb a b && startsWith s' p'
  end.

(** [s.endsWith(p)] *)
Definition endsWith (s p : string) : bool :=
  (String.length p <=? String.length s)%nat &&
  String.eqb (drop (String.length s - String.length p) s) p.

(** [s.includes(p)] *)
Fixpoint includes (s p : string) : bool :=
  startsWith s p ||
  match s with
  | EmptyString => false
  | String _ t => includes t p
  end.

(** [s.replace(pat, rep)] for a string pattern [pat] and a replacement
    text [rep] without [$] patterns: only the first occurrence of [pat]
    is replaced. *)
Fixpoint replace (s pat rep : string) : string :=
  if startsWith s pat then rep ++ drop (String.length pat) s
  else match s with
       | EmptyString => EmptyString
       | String c t => String c (replace t pat rep)
       end.

(** White space and line terminators of the Latin-1 range, as removed
    by [trim]: TAB, LF, VT, FF, CR, SP and NBSP. *)
Definition isWhiteSpace (c : ascii) : bool :=
  let n := nat_of_ascii c in
  ((9 <=? n) && (n <=? 13))%nat || (n =? 32)%nat || (n =? 160)%nat.

Fixpoint trimStart (s : string) : string :=
  match s with
  | EmptyString => EmptyString
  | String c t => if isWhiteSpace c then trimStart t else s
  end.

Fixpoint trimEnd (s : string) : string :=
  match s with
  | EmptyString => EmptyString
  | String c t =>
      match trimEnd t with
      | EmptyString => if isWhiteSpace c then EmptyString else String c EmptyString
      | t' => String c t'
      end
  end.

(** [s.trim()] *)
Definition trim (s : string) : string := trimEnd (trimStart s).

(** [s.split(sep)] for a one-character separator. *)
Fixpoint split (sep : ascii) (s : string) : list string :=
  match s with
  | EmptyString => [EmptyString]
  | String c t =>
      if Ascii.eqb c sep then EmptyString :: split sep t
      else match split sep t with
           | h :: r => String c h :: r
           | [] => [String c EmptyString]
           end
  end.

(** [ls.join(sep)] *)
Definition join (sep : string) (ls : list string) : string :=
  String.concat sep ls.

(** Lower-case mapping of one Latin-1 code unit: A-Z and the accented
    capitals 192..222 other than the multiplication sign 215. *)
Definition lowerChar (c : ascii) : ascii :=
  let n := nat_of_ascii c in
  if ((65 <=? n) && (n <=? 90))%nat
     || ((192 <=? n) && (n <=? 222) && negb (n =? 215))%nat
  then ascii_of_nat (n + 32) else c.

(** [s.toLowerCase()] *)
Fixpoint toLowerCase (s : string) : string :=
  match s with
  | EmptyString => EmptyString
  | String c t => String (lowerChar c) (toLowerCase t)
  end.

(** A string is truthy when it is not empty. *)
Definition truthy (s : string) : bool :=
  match s with EmptyString => false | _ => true end.

Fixpoint repeat (c : ascii) (n : nat) : string :=
  match n with
  | O => EmptyString
  | S n' => String c (repeat c n')
  end.

(** *** Lemmas *)

Lemma length_append (a b : string) :
  String.length (a ++ b) = (String.length a + String.length b)%nat.
Proof. induction a as [|c a IH]; simpl; [reflexivity | now rewrite IH]. Qed.

Lemma length_take (n : nat) (s : string) :
  (n <= String.length s)%nat -> String.length (take n s) = n.
Proof.
  revert s; induction n as [|n IH]; intros s H; [reflexivity|].
  destruct s as [|c t]; simpl in *; [lia|].
  rewrite IH; [reflexivity | lia].
Qed.

Lemma drop_length_append (a b : string) :
  drop (String.length a) (a ++ b) = b.
Proof. induction a as [|c a IH]; simpl; [reflexivity | exact IH]. Qed.

Lemma drop_0 (s : string) : drop 0 s = s.
Proof. destruct s; reflexivity. Qed.

Lemma strlen_nonneg (s : string) : 0 <= strlen s.
Proof. unfold strlen; lia. Qed.

Lemma strlen_append (a b : string) : strlen (a ++ b) = strlen a + strlen b.
Proof. unfold strlen; rewrite length_append; lia. Qed.

(** A prefix [substring(0, n)] of a long enough string has [n] code units. *)
Lemma strlen_substring_prefix (s : string) (n : Z) :
  0 <= n <= strlen s -> strlen (substring s 0 n) = n.
Proof.
  intros H. unfold substring.
  pose proof (strlen_nonneg s) as Hs.
  replace (Z.min (Z.max 0 0) (strlen s)) with 0 by lia.
  replace (Z.min (Z.max n 0) (strlen s)) with n by lia.
  replace (Z.min 0 n) with 0 by lia.
  replace (Z.max 0 n - 0) with n by lia.
  simpl (Z.to_nat 0). rewrite drop_0.
  unfold strlen in *. rewrite length_take; lia.
Qed.

Lemma endsWith_append (a b : string) : endsWith (a ++ b) b = true.
Proof.
  unfold endsWith. rewrite length_append.
  apply andb_true_intro; split.
  - apply Nat.leb_le; lia.
  - replace (String.length a + String.length b - String.length b)%nat
      with (String.length a) by lia.
    rewrite drop_length_append. apply String.eqb_refl.
Qed.

Lemma startsWith_append (p s : string) : startsWith (p ++ s) p = true.
Proof.
  induction p as [|c p IH]; simpl; [reflexivity|].
  now rewrite Ascii.eqb_refl, IH.
Qed.

Lemma startsWith_empty (s : string) : startsWith s EmptyString = true.
Proof. destruct s; reflexivity. Qed.

End JSString.

(* ================================================================== *)
(** ** JavaScript values and plain objects *)
(* ================================================================== *)

Module JSObject.

Local Open Scope list_scope.

Section Entries.
Context {A : Type}.

(** The own enumerable entries of a plain object, in key order. *)
Definition entries := list (string * A).

(** [Object.keys(o)] *)
Definition keys (o : entries) : list string := map fst o.

(** [o[k]], [None] standing for an absent property. *)
Fixpoint get (o : entries) (k : string) : option A :=
  match o with
  | [] => None
  | (k', v) :: r => if String.eqb k' k then Some v else get r k
  end.

(** [o[k] = v]: overwrite in place, or append a new property. *)
Fixpoint set (o : entries) (k : string) (v : A) : entries :=
  match o with
  | [] => [(k, v)]
  | (k', v') :: r =>
      if String.eqb k' k then (k', v) :: r else (k', v') :: set r k v
  end.

(** [{...a, ...b}] *)
Definition spread (a b : entries) : entries :=
  fold_left (fun acc kv => set acc (fst kv) (snd kv)) b a.

Lemma get_set_eq (o : entries) k v : get (set o k v) k = Some v.
Proof.
  induction o as [|[k' v'] r IH]; simpl.
  - now rewrite String.eqb_refl.
  - destruct (String.eqb k' k) eqn:E; simpl; rewrite E; [reflexivity | exact IH].
Qed.

Lemma get_set_neq (o : entries) k k' v :
  k <> k' -> get (set o k v) k' = get o k'.
Proof.
  intros Hne. induction o as [|[k0 v0] r IH]; simpl.
  - destruct (String.eqb_spec k k'); [contradiction | reflexivity].
  - destruct (String.eqb_spec k0 k) as [->|Hk]; simpl.
    + destruct (String.eqb_spec k k'); [contradiction | reflexivity].
    + destruct (String.eqb k0 k'); [reflexivity | exact IH].
Qed.

Lemma keys_set_in (o : entries) k v :
  In k (keys o) -> keys (set o k v) = keys o.
Proof.
  induction o as [|[k0 v0] r IH]; simpl; [tauto|].
  intros [->|Hin].
  - now rewrite String.eqb_refl.
  - destruct (String.eqb k0 k); simpl; [reflexivity | now rewrite IH].
Qed.

Lemma set_fresh (o : entries) k v :
  ~ In k (keys o) -> set o k v = o ++ [(k, v)].
Proof.
  induction o as [|[k0 v0] r IH]; simpl; [reflexivity|].
  intros Hn. destruct (String.eqb_spec k0 k) as [->|Hk]; [tauto|].
  rewrite IH; tauto.
Qed.

Lemma get_app_fresh (o : entries) k v o' :
  ~ In k (keys o) -> get (o ++ (k, v) :: o') k = Some v.
Proof.
  induction o as [|[k0 v0] r IH]; simpl; intros Hn.
  - now rewrite String.eqb_refl.
  - destruct (String.eqb_spec k0 k) as [->|Hk]; [tauto|]. apply IH; tauto.
Qed.

Lemma get_in (o : entries) k v :
  NoDup (keys o) -> In (k, v) o -> get o k = Some v.
Proof.
  induction o as [|[k0 v0] r IH]; simpl; [tauto|].
  intros Hnd [Heq|Hin].
  - inversion Heq; subst. now rewrite String.eqb_refl.
  - inversion Hnd as [|? ? Hnot Hnd']; subst.
    destruct (String.eqb_spec k0 k) as [->|Hk].
    + exfalso. apply Hnot. unfold keys. change k with (fst (k, v)).
      now apply in_map.
    + now apply IH.
Qed.

(** A loop [for (k of Object.keys(o)) result[k] = g k o[k]] over an
    object with distinct keys rebuilds the entries one for one. *)
Lemma fold_set_map (g : string -> A -> A) (o acc : entries) :
  NoDup (keys acc ++ keys o) ->
  fold_left (fun r kv => set r (fst kv) (g (fst kv) (snd kv))) o acc
  = acc ++ map (fun kv => (fst kv, g (fst kv) (snd kv))) o.
Proof.
  revert acc. induction o as [|[k v] r IH]; intros acc Hnd; simpl.
  - now rewrite app_nil_r.
  - simpl in Hnd. rewrite set_fresh.
    + rewrite IH.
      * now rewrite <- app_assoc.
      * unfold keys in *. rewrite map_app. simpl. rewrite <- app_assoc. exact Hnd.
    + apply NoDup_remove_2 in Hnd. intro Hin. apply Hnd.
      apply in_or_app. now left.
Qed.

(** The property name through which [Object.prototype] gives access
    to the prototype of an object. *)
Definition PROTO : string := "__proto__".

Definition isProto (k : string) : bool := String.eqb k PROTO.

(** [o[k] = v], an ordinary assignment, on an object made by [{}]
    that has no own property [__proto__].  For the key [__proto__] the
    assignment runs the setter inherited from [Object.prototype] and
    adds no property.  The setter makes an object or [null] the
    prototype: [put] is for the loops whose result is read by its own
    properties only; [Sanitize.assignTo] keeps the prototype. *)
Definition put (o : entries) (k : string) (v : A) : entries :=
  if isProto k then o else set o k v.

(** The entries an assignment loop keeps: all but an own [__proto__]. *)
Definition assigned (o : entries) : entries :=
  filter (fun kv => negb (isProto (fst kv))) o.

Lemma keys_assigned (o : entries) :
  keys (assigned o) = filter (fun k => negb (isProto k)) (keys o).
Proof.
  unfold assigned, keys. induction o as [|[k v] r IH]; [reflexivity|].
  cbn [filter map fst]. destruct (negb (isProto k)); cbn [map fst]; now rewrite IH.
Qed.

Lemma assigned_distinct (o : entries) :
  NoDup (keys o) -> NoDup (keys (assigned o)).
Proof. intros H. rewrite keys_assigned. now apply NoDup_filter. Qed.

Lemma assigned_no_proto (o : entries) : ~ In PROTO (keys (assigned o)).
Proof.
  rewrite keys_assigned. intro Hin. apply filter_In in Hin.
  destruct Hin as [_ H]. unfold isProto in H. now rewrite String.eqb_refl in H.
Qed.

Lemma assigned_id (o : entries) : ~ In PROTO (keys o) -> assigned o = o.
Proof.
  unfold assigned. induction o as [|[k v] r IH]; [reflexivity|].
  intros Hn. cbn [filter fst]. unfold isProto at 1.
  destruct (String.eqb_spec k PROTO) as [->|Hne]; [exfalso; apply Hn; now left|].
  cbn [negb]. rewrite IH; [reflexivity|]. intro Hin. apply Hn. now right.
Qed.

Lemma get_absent (o : entries) (k : string) :
  ~ In k (keys o) -> get o k = None.
Proof.
  induction o as [|[k0 v0] r IH]; simpl; [reflexivity|].
  intros Hn. destruct (String.eqb_spec k0 k) as [->|Hne]; [tauto|]. apply IH. tauto.
Qed.

Lemma get_present (o : entries) (k : string) :
  In k (keys o) -> exists v, get o k = Some v.
Proof.
  induction o as [|[k0 v0] r IH]; simpl; [tauto|].
  intros [->|Hin].
  - rewrite String.eqb_refl. eauto.
  - destruct (String.eqb k0 k); eauto.
Qed.

Lemma get_assigned (o : entries) (k : string) :
  get (assigned o) k = if isProto k then None else get o k.
Proof.
  destruct (isProto k) eqn:Hk.
  - apply String.eqb_eq in Hk. subst k. apply get_absent, assigned_no_proto.
  - unfold assigned. induction o as [|[k0 v0] r IH]; [reflexivity|].
    cbn [filter fst get]. destruct (isProto k0) eqn:Hk0; cbn [negb get].
    + destruct (String.eqb_spec k0 k) as [->|Hne]; [congruence | exact IH].
    + destruct (String.eqb k0 k); [reflexivity | exact IH].
Qed.

(** A loop [for (k of Object.keys(o)) result[k] = g k o[k]] over an
    object with distinct keys rebuilds the entries one for one, an own
    [__proto__] apart. *)
Lemma fold_put_map (g : string -> A -> A) (o acc : entries) :
  NoDup (keys acc ++ keys o) ->
  fold_left (fun r kv => put r (fst kv) (g (fst kv) (snd kv))) o acc
  = acc ++ map (fun kv => (fst kv, g (fst kv) (snd kv))) (assigned o).
Proof.
  revert acc. induction o as [|[k v] r IH]; intros acc Hnd; simpl.
  - now rewrite app_nil_r.
  - simpl in Hnd. unfold put at 2. cbn [fst snd].
    destruct (isProto k) eqn:Hk; cbn [negb].
    + apply IH. apply NoDup_remove_1 in Hnd. exact Hnd.
    + rewrite set_fresh.
      * rewrite IH.
        -- cbn [map fst snd]. now rewrite <- app_assoc.
        -- unfold keys in *. rewrite map_app. simpl. rewrite <- app_assoc. exact Hnd.
      * apply NoDup_remove_2 in Hnd. intro Hin. apply Hnd.
        apply in_or_app. now left.
Qed.

Lemma keys_set_distinct (o : entries) (k : string) (v : A) :
  NoDup (keys o) -> NoDup (keys (set o k v)).
Proof.
  intros Hnd. destruct (in_dec string_dec k (keys o)) as [Hin|Hout].
  - now rewrite keys_set_in.
  - rewrite set_fresh by exact Hout.
    unfold keys in *. rewrite map_app. simpl.
    apply NoDup_app; [exact Hnd | constructor; [tauto | constructor] |].
    intros x Hx [<-|[]]. contradiction.
Qed.

Lemma keys_spread_distinct (b a : entries) :
  NoDup (keys a) -> NoDup (keys (spread a b)).
Proof.
  unfold spread. revert a.
  induction b as [|[k v] b IH]; intros a Hnd; [exact Hnd|].
  simpl. apply IH. now apply keys_set_distinct.
Qed.

End Entries.

Arguments entries : clear implicits.

End JSObject.

Module JSValue.

(** The values that reach the pipeline.  Numbers are kept opaque (an
    integer stands for the number, which is finite); functions and
    symbols are left out.  An object is a plain one: it has
    [Object.prototype] for prototype and data properties only. *)
Inductive value : Type :=
| VUndefined
| VNull
| VBool (b : bool)
| VNumber (n : Z)
| VBigInt (n : Z)
| VString (s : string)
| VBuffer (bytes : list Z)
| VDate (time : Z)
| VArray (items : list value)
| VObject (fields : list (string * value)).

Definition object := JSObject.entries value.

(** Every object nested in a value has pairwise distinct keys. *)
Fixpoint wf (v : value) : Prop :=
  match v with
  | VArray items => fold_right (fun x acc => wf x /\ acc) True items
  | VObject fields =>
      NoDup (map fst fields) /\
      fold_right (fun kv acc => wf (snd kv) /\ acc) True fields
  | _ => True
  end.

End JSValue.

(* ================================================================== *)
(** ** Regular expressions built by the sanitizer *)
(* ================================================================== *)

Module RegExp.
Import JSString.

(** The two shapes of pattern [buildPattern] produces: the empty
    negative lookahead [/(?!)/], and an alternation of literal texts,
    with or without the [i] flag. *)
Inductive regex : Type :=
| NeverMatch
| Alternation (alts : list string) (ignoreCase : bool).

(** SyntaxCharacter of the pattern grammar: [^ $ \ . * + ? ( ) [ ] { } |];
    the same characters as the class [/[.*+?^${}()|[\]\\]/]. *)
Definition isSyntaxChar (c : ascii) : bool :=
  existsb (Ascii.eqb c)
    ["."; "*"; "+"; "?"; "^"; "$"; "{"; "}"; "("; ")"; "|"; "["; "]"; "\"]%char.

(** [s.replace(/[.*+?^${}()|[\]\\]/g, '\\$&')] *)
Fixpoint escapeRegExp (s : string) : string :=
  match s with
  | EmptyString => EmptyString
  | String c t =>
      if isSyntaxChar c then String "\" (String c (escapeRegExp t))
      else String c (escapeRegExp t)
  end.

Definition consChar (c : ascii) (r : option (list string)) : option (list string) :=
  match r with
  | Some (h :: t) => Some (String c h :: t)
  | _ => None
  end.

(** Parsing of a pattern source: literal characters, identity escapes
    of syntax characters and [|].  Any other construct is outside the
    fragment and gives [None]. *)
Fixpoint parse (src : string) : option (list string) :=
  match src with
  | EmptyString => Some [EmptyString]
  | String c t =>
      if Ascii.eqb c "\" then
        match t with
        | String d t' => if isSyntaxChar d then consChar d (parse t') else None
        | EmptyString => None
        end
      else if Ascii.eqb c "|" then option_map (cons EmptyString) (parse t)
      else if isSyntaxChar c then None
      else consChar c (parse t)
  end.

(** [new RegExp(source, ignoreCase ? 'i' : '')] *)
Definition construct (source : string) (ignoreCase : bool) : option regex :=
  option_map (fun alts => Alternation alts ignoreCase) (parse source).

(** Upper-case mapping of one Latin-1 code unit, the canonical form
    under the [i] flag: a-z and the accented small letters 224..254
    other than the division sign 247.  The code units 181 and 255,
    whose capitals lie outside Latin-1, are alone in their class and
    stay as they are. *)
Definition upperChar (c : ascii) : ascii :=
  let n := nat_of_ascii c in
  if ((97 <=? n) && (n <=? 122))%nat
     || ((224 <=? n) && (n <=? 254) && negb (n =? 247))%nat
  then ascii_of_nat (n - 32) else c.

Definition canonicalize (ignoreCase : bool) (c : ascii) : ascii :=
  if ignoreCase then upperChar c else c.

(** The literal [lit] matches at the start of [s]. *)
Fixpoint matchHere (ic : bool) (lit s : string) {struct lit} : bool :=
  match lit, s with
  | EmptyString, _ => true
  | String _ _, EmptyString => false
  | String a lit', String b s' =>
      Ascii.eqb (canonicalize ic a) (canonicalize ic b) && matchHere ic lit' s'
  end.

Fixpoint search (ic : bool) (alts : list string) (s : string) : bool :=
  existsb (fun lit => matchHere ic lit s) alts ||
  match s with
  | EmptyString => false
  | String _ t => search ic alts t
  end.

(** [re.test(s)] for a pattern without the [g] and [y] flags. *)
Definition test (re : regex) (s : string) : bool :=
  match re with
  | NeverMatch => false
  | Alternation alts ic => search ic alts s
  end.

(** *** Escaping makes every key a literal alternative *)

Lemma syntax_not_backslash c : isSyntaxChar c = false -> Ascii.eqb c "\" = false.
Proof.
  unfold isSyntaxChar. simpl. intros H.
  repeat (apply orb_false_elim in H; destruct H as [? H]).
  destruct (Ascii.eqb c "\"); [discriminate | reflexivity].
Qed.

Lemma syntax_not_bar c : isSyntaxChar c = false -> Ascii.eqb c "|" = false.
Proof.
  unfold isSyntaxChar. simpl. intros H.
  repeat match goal with
         | H : (_ || _)%bool = false |- _ =>
             apply orb_false_elim in H; destruct H
         end.
  assumption.
Qed.

Lemma parse_escape_bar (k rest : string) :
  parse (escapeRegExp k ++ String "|" rest) = option_map (cons k) (parse rest).
Proof.
  induction k as [|c k IH].
  - reflexivity.
  - cbn [escapeRegExp]. destruct (isSyntaxChar c) eqn:Hc.
    + cbn [append parse]. rewrite Ascii.eqb_refl, Hc.
      fold (append (escapeRegExp k) (String "|" rest)).
      rewrite IH. destruct (parse rest); reflexivity.
    + cbn [append parse].
      rewrite (syntax_not_backslash _ Hc), (syntax_not_bar _ Hc), Hc.
      fold (append (escapeRegExp k) (String "|" rest)).
      rewrite IH. destruct (parse rest); reflexivity.
Qed.

Lemma parse_escape (k : string) : parse (escapeRegExp k) = Some [k].
Proof.
  induction k as [|c k IH].
  - reflexivity.
  - cbn [escapeRegExp]. destruct (isSyntaxChar c) eqn:Hc.
    + cbn [parse]. rewrite Ascii.eqb_refl, Hc, IH. reflexivity.
    + cbn [parse].
      rewrite (syntax_not_backslash _ Hc), (syntax_not_bar _ Hc), Hc, IH.
      reflexivity.
Qed.

Lemma parse_join_escape (ks : list string) :
  ks <> [] -> parse (join "|" (map escapeRegExp ks)) = Some ks.
Proof.
  unfold join. induction ks as [|k ks IH]; [congruence|]. intros _.
  destruct ks as [|k' ks].
  - simpl. apply parse_escape.
  - change (String.concat "|" (map escapeRegExp (k :: k' :: ks)))
      with (escapeRegExp k ++ String "|" (String.concat "|" (map escapeRegExp (k' :: ks)))).
    rewrite parse_escape_bar, IH by congruence. reflexivity.
Qed.

Lemma matchHere_empty ic s : matchHere ic EmptyString s = true.
Proof. reflexivity. Qed.

Example parse_escaped_source :
  parse (join "|" (map escapeRegExp ["a.b"; "c|d"; "x"])) = Some ["a.b"; "c|d"; "x"].
Proof. reflexivity. Qed.

Example test_ignores_case :
  test (Alternation ["password"; "token"] true) "user_PassWord_hash" = true /\
  test (Alternation ["password"; "token"] true) "username" = false /\
  test (Alternation ["password"; "token"] false) "user_PassWord_hash" = false.
Proof. repeat split. Qed.

End RegExp.

(* ================================================================== *)
(** ** src/filters/sanitize.ts *)
(* ================================================================== *)

Module Sanitize.
Import JSString JSValue RegExp.

Local Open Scope list_scope.

Definition FILTERED : string := "[FILTERED]".
Definition TRUNCATE_LIMIT : Z := 10000.
Definition MAX_DEPTH : Z := 10.

(** The truncation marker appended by [truncateString]. *)
Definition TRUNCATED : string := "...[TRUNCATED]".

Record SanitizeFilter : Type := { filterPattern : regex }.

(** [buildPattern]; [None] would be a [SyntaxError] of the [RegExp]
    constructor. *)
Definition buildPattern (keys : list string) : option regex :=
  if (Z.of_nat (List.length keys) =? 0)%Z then Some NeverMatch
  else
    let patterns := map (fun k => escapeRegExp (toLowerCase k)) keys in
    construct (join "|" patterns) true.

(** [new SanitizeFilter(filterKeys)] *)
Definition new (filterKeys : list string) : option SanitizeFilter :=
  option_map (fun re => {| filterPattern := re |}) (buildPattern filterKeys).

Definition shouldFilter (f : SanitizeFilter) (key : string) : bool :=
  if negb (truthy key) then false
  else test (filterPattern f) (toLowerCase key).

Definition truncateString (str : string) : string :=
  if (strlen str <=? TRUNCATE_LIMIT)%Z then str
  else (substring str 0 (TRUNCATE_LIMIT - 13) ++ TRUNCATED)%string.

(** The body of [processObject], over the recursive call [process].
    The object it is given is a clone made by [deepClone], which has no
    own property [__proto__]. *)
Definition processObjectWith (process : value -> Z -> value)
    (f : SanitizeFilter) (obj : list (string * value)) (depth : Z)
  : list (string * value) :=
  fold_left
    (fun result kv =>
       if shouldFilter f (fst kv) then JSObject.put result (fst kv) (VString FILTERED)
       else JSObject.put result (fst kv) (process (snd kv) (depth + 1)))
    obj [].

Fixpoint process (f : SanitizeFilter) (obj : value) (depth : Z) {struct obj} : value :=
  if (depth >? MAX_DEPTH)%Z then VString FILTERED
  else
    match obj with
    | VNull | VUndefined => obj
    | VArray items => VArray (map (fun item => process f item (depth + 1)) items)
    | VBuffer _ => VString "[Buffer]"
    | VObject fields =>
        VObject (processObjectWith (process f) f fields depth)
    | VDate _ => VObject (processObjectWith (process f) f [] depth)
    | VString s => VString (truncateString s)
    | _ => obj
    end.

Definition processObject (f : SanitizeFilter) (obj : list (string * value))
    (depth : Z) : list (string * value) :=
  processObjectWith (process f) f obj depth.

(** An object that [deepClone] builds from [{}] by assignments: its
    own properties, and the Buffer its prototype chain leads to, if
    any, which is all the code that follows asks of the chain
    ([obj instanceof Buffer] in [process]). *)
Definition building : Type := (list (string * value) * option (list Z))%type.

(** The Buffer the chain leads to once [proto] has been assigned to
    [__proto__]: the setter of [Object.prototype] makes an object or
    [null] the new prototype and ignores any other value.  [proto] is a
    clone: a Buffer, or an object held as the Buffer it inherits from
    (see [built]), leads to that Buffer, every other object to none. *)
Definition inherit (proto : value) (chain : option (list Z)) : option (list Z) :=
  match proto with
  | VBuffer bytes => Some bytes
  | VObject _ | VArray _ | VDate _ | VNull => None
  | _ => chain
  end.

(** [result[key] = v].  For the key [__proto__] the assignment runs the
    setter and adds no property; the keys of an object being distinct,
    no second assignment to [__proto__] follows one that has made the
    prototype [null]. *)
Definition assignTo (result : building) (key : string) (v : value) : building :=
  if JSObject.isProto key then (fst result, inherit v (snd result))
  else (JSObject.set (fst result) key v, snd result).

(** The object built, as [process] and [deepClone] see it: one that
    inherits from a Buffer passes [instanceof Buffer], its properties
    are never read, and it is held as that Buffer. *)
Definition built (result : building) : value :=
  match snd result with
  | Some bytes => VBuffer bytes
  | None => VObject (fst result)
  end.

(** The value [deepClone] returns.  The code recurses once for every
    nested array or object, with no bound on the depth, so that the
    call stack of the host bounds it, and an assignment of its loop can
    throw: [deepCloneWithin] below is the same function with the stack
    and the throwing assignments, and returns this value whenever it
    returns one.  A cyclic input, on which the code overflows the
    stack, is no value of the model. *)
Fixpoint deepClone (obj : value) : value :=
  match obj with
  | VArray items => VArray (map deepClone items)
  | VObject fields =>
      built (fold_left
               (fun result kv => assignTo result (fst kv) (deepClone (snd kv)))
               fields ([], None))
  | _ => obj
  end.

Definition sanitize (f : SanitizeFilter) (data : value) : value :=
  process f (deepClone data) 0.

(** [a.map(g)] for a function [g] that may throw: the first failure
    ends the loop. *)
Fixpoint mapM {A B : Type} (g : A -> option B) (l : list A) : option (list B) :=
  match l with
  | [] => Some []
  | x :: r =>
      match g x with
      | Some y => option_map (cons y) (mapM g r)
      | None => None
      end
  end.

(** The names under which an object that inherits from a Buffer finds
    a property it cannot write: the accessors without a setter and the
    constant of the prototypes of typed arrays, and [parent] and
    [offset] of the [Buffer.prototype] of Node.  The code is a module,
    hence strict: an assignment to such a name throws a [TypeError],
    unless an object on the way to the Buffer has a property of that
    name. *)
Definition READONLY : list string :=
  ["buffer"; "byteLength"; "byteOffset"; "length"; "BYTES_PER_ELEMENT";
   "parent"; "offset"].

(** [result[key] = v] where evaluating [v] may have thrown, and where
    the assignment may throw; [None] is the exception.  On an object
    that inherits from a Buffer every assignment to a name of
    [READONLY] is let throw, and what typed arrays make of a numeric
    key, which differs between hosts, is left out: there the function
    says less often than the code that a value is returned, or more
    often, and nothing below relies on it. *)
Definition assignWithin (result : option building) (key : string) (v : option value)
  : option building :=
  match result, v with
  | Some result, Some v =>
      match snd result with
      | Some _ =>
          if negb (JSObject.isProto key) && existsb (String.eqb key) READONLY
          then None
          else Some (assignTo result key v)
      | None => Some (assignTo result key v)
      end
  | _, _ => None
  end.

(** [deepClone] on a call stack with room for [frames] nested calls of
    it; [None] is the [RangeError] of the host when the stack is
    exhausted, or the [TypeError] of an assignment. *)
Fixpoint deepCloneWithin (frames : nat) (obj : value) : option value :=
  match frames with
  | O => None
  | S frames' =>
      match obj with
      | VArray items => option_map VArray (mapM (deepCloneWithin frames') items)
      | VObject fields =>
          option_map built
            (fold_left
               (fun result kv =>
                  assignWithin result (fst kv) (deepCloneWithin frames' (snd kv)))
               fields (Some ([], None)))
      | _ => Some obj
      end
  end.

(** [sanitize] on such a stack; [process] nests at most
    [MAX_DEPTH + 2] calls of itself, for which the stack is taken to
    have room. *)
Definition sanitizeWithin (frames : nat) (f : SanitizeFilter) (data : value)
  : option value :=
  option_map (fun clone => process f clone 0) (deepCloneWithin frames data).

(** *** The pattern compiled from the filter keys *)

Lemma buildPattern_empty : buildPattern [] = Some NeverMatch.
Proof. reflexivity. Qed.

Lemma buildPattern_nonempty (keys : list string) :
  keys <> [] ->
  buildPattern keys = Some (Alternation (map toLowerCase keys) true).
Proof.
  intros Hne. unfold buildPattern.
  destruct keys as [|k ks]; [congruence|].
  replace (Z.of_nat (List.length (k :: ks)) =? 0)%Z with false
    by (symmetry; apply Z.eqb_neq; simpl List.length; lia).
  rewrite <- (map_map toLowerCase escapeRegExp).
  unfold construct. rewrite parse_join_escape by (simpl; congruence).
  reflexivity.
Qed.

(** The constructor of [SanitizeFilter] never throws. *)
Lemma new_total (keys : list string) : exists f, new keys = Some f.
Proof.
  unfold new. destruct keys as [|k ks].
  - rewrite buildPattern_empty. eexists; reflexivity.
  - rewrite buildPattern_nonempty by congruence. eexists; reflexivity.
Qed.

Lemma shouldFilter_no_keys (f : SanitizeFilter) (key : string) :
  new [] = Some f -> shouldFilter f key = false.
Proof.
  unfold new. rewrite buildPattern_empty. simpl. intros [= <-].
  unfold shouldFilter. destruct (truthy key); reflexivity.
Qed.

(** *** Strings *)

Lemma process_string (f : SanitizeFilter) (s : string) (depth : Z) :
  depth <= MAX_DEPTH -> process f (VString s) depth = VString (truncateString s).
Proof.
  intros H. simpl. destruct (Z.gtb_spec depth MAX_DEPTH); [lia | reflexivity].
Qed.

Lemma sanitize_string (f : SanitizeFilter) (s : string) :
  sanitize f (VString s) = VString (truncateString s).
Proof. reflexivity. Qed.

Lemma truncateString_short (s : string) :
  strlen s <= TRUNCATE_LIMIT -> truncateString s = s.
Proof.
  intros H. unfold truncateString.
  destruct (Z.leb_spec (strlen s) TRUNCATE_LIMIT); [reflexivity | lia].
Qed.

Lemma truncateString_long (s : string) :
  TRUNCATE_LIMIT < strlen s ->
  truncateString s = (substring s 0 (TRUNCATE_LIMIT - 13) ++ TRUNCATED)%string.
Proof.
  intros H. unfold truncateString.
  destruct (Z.leb_spec (strlen s) TRUNCATE_LIMIT); [lia | reflexivity].
Qed.

Lemma strlen_TRUNCATED : strlen TRUNCATED = 14.
Proof. reflexivity. Qed.

(** C1.  What [sanitize] does on a string.  A string of at most 10000
    code units is returned unchanged.  A longer one is cut to its first
    [TRUNCATE_LIMIT - 13] code units followed by the 14 code units of
    the marker ["...[TRUNCATED]"]: the result ends with the marker and
    has 10001 code units, one more than the cap. *)
Theorem sanitize_string_length (f : SanitizeFilter) (s : string) :
  (strlen s <= TRUNCATE_LIMIT -> sanitize f (VString s) = VString s) /\
  (TRUNCATE_LIMIT < strlen s ->
   exists t,
     sanitize f (VString s) = VString t /\
     t = (substring s 0 (TRUNCATE_LIMIT - 13) ++ TRUNCATED)%string /\
     endsWith t TRUNCATED = true /\
     strlen t = TRUNCATE_LIMIT + 1).
Proof.
  rewrite sanitize_string. split; intros H.
  - now rewrite truncateString_short.
  - rewrite truncateString_long by exact H.
    eexists; split; [reflexivity|]. split; [reflexivity|]. split.
    + apply endsWith_append.
    + rewrite strlen_append, strlen_TRUNCATED, strlen_substring_prefix.
      * unfold TRUNCATE_LIMIT; lia.
      * unfold TRUNCATE_LIMIT in *; lia.
Qed.

(** A string of 10001 letters, one past the cap. *)
Definition overlong : string := JSString.repeat "x" (Z.to_nat 10001).

Lemma sanitize_string_length_witness :
  TRUNCATE_LIMIT < strlen overlong /\
  exists t,
    sanitize {| filterPattern := NeverMatch |} (VString overlong) = VString t /\
    t = (substring overlong 0 (TRUNCATE_LIMIT - 13) ++ TRUNCATED)%string /\
    endsWith t TRUNCATED = true /\
    strlen t = TRUNCATE_LIMIT + 1.
Proof.
  assert (H : TRUNCATE_LIMIT < strlen overlong) by (vm_compute; reflexivity).
  split; [exact H|].
  exact (proj2 (sanitize_string_length {| filterPattern := NeverMatch |} overlong) H).
Defined.

(** At that input the sanitized string is longer than the cap. *)
Example sanitize_overlong_exceeds_cap :
  exists t, sanitize {| filterPattern := NeverMatch |} (VString overlong) = VString t
            /\ strlen t = 10001.
Proof. eexists; split; [reflexivity | vm_compute; reflexivity]. Qed.

(** *** Objects *)

Lemma fold_left_pointwise {A B : Type} (g h : A -> B -> A) (l : list B) (a : A) :
  (forall x y, g x y = h x y) -> fold_left g l a = fold_left h l a.
Proof.
  intros E. revert a. induction l as [|b l IH]; intros a; simpl; [reflexivity|].
  now rewrite E, IH.
Qed.

Lemma processObject_distinct (f : SanitizeFilter) (obj : list (string * value)) (depth : Z) :
  NoDup (JSObject.keys obj) ->
  processObject f obj depth =
  map (fun kv => (fst kv,
                  if shouldFilter f (fst kv) then VString FILTERED
                  else process f (snd kv) (depth + 1))) (JSObject.assigned obj).
Proof.
  intros Hnd. unfold processObject, processObjectWith.
  pose proof (JSObject.fold_put_map
                (fun k v => if shouldFilter f k then VString FILTERED
                            else process f v (depth + 1)) obj [] Hnd) as E.
  cbv beta in E. etransitivity; [|exact E].
  apply fold_left_pointwise.
  intros r kv. destruct (shouldFilter f (fst kv)); reflexivity.
Qed.

Lemma fold_assignTo {B : Type} (g : B -> string * value) (l : list B)
    (result : building) :
  fold_left (fun result x => assignTo result (fst (g x)) (snd (g x))) l result
  = (fold_left (fun own x => JSObject.put own (fst (g x)) (snd (g x))) l (fst result),
     fold_left (fun chain x => if JSObject.isProto (fst (g x))
                               then inherit (snd (g x)) chain else chain)
       l (snd result)).
Proof.
  revert result. induction l as [|x l IH]; intros [own chain]; [reflexivity|].
  cbn [fold_left]. rewrite IH. unfold assignTo, JSObject.put. cbn [fst snd].
  destruct (JSObject.isProto (fst (g x))); reflexivity.
Qed.

(** The Buffer the clone of an object inherits from. *)
Definition inherited (fields : list (string * value)) : option (list Z) :=
  fold_left (fun chain kv => if JSObject.isProto (fst kv)
                             then inherit (deepClone (snd kv)) chain else chain)
    fields None.

Lemma deepClone_built (fields : list (string * value)) :
  deepClone (VObject fields) =
  built (fold_left (fun own kv => JSObject.put own (fst kv) (deepClone (snd kv)))
           fields [],
         inherited fields).
Proof.
  cbn [deepClone].
  pose proof (fold_assignTo (fun kv => (fst kv, deepClone (snd kv))) fields ([], None))
    as E.
  cbn [fst snd] in E. rewrite E. reflexivity.
Qed.

Lemma fold_inherit_no_proto {B : Type} (g : B -> string * value) (l : list B)
    (chain : option (list Z)) :
  ~ In JSObject.PROTO (map (fun x => fst (g x)) l) ->
  fold_left (fun chain x => if JSObject.isProto (fst (g x))
                            then inherit (snd (g x)) chain else chain) l chain
  = chain.
Proof.
  revert chain. induction l as [|x l IH]; intros chain Hn; [reflexivity|].
  cbn [fold_left]. destruct (JSObject.isProto (fst (g x))) eqn:E.
  - exfalso. apply Hn. left. apply String.eqb_eq. exact E.
  - apply IH. intro Hin. apply Hn. now right.
Qed.

Lemma inherited_no_proto (fields : list (string * value)) :
  ~ In JSObject.PROTO (JSObject.keys fields) -> inherited fields = None.
Proof.
  intros Hn. unfold inherited.
  apply (fold_inherit_no_proto (fun kv => (fst kv, deepClone (snd kv))) fields None).
  exact Hn.
Qed.

(** The keys being distinct, only the own [__proto__] of the input
    decides what its clone inherits from. *)
Lemma inherited_get (fields : list (string * value)) :
  NoDup (JSObject.keys fields) ->
  inherited fields =
  match JSObject.get fields JSObject.PROTO with
  | Some v => inherit (deepClone v) None
  | None => None
  end.
Proof.
  unfold inherited. generalize (@None (list Z)) as chain.
  induction fields as [|[k v] fields IH]; intros chain Hnd; [reflexivity|].
  inversion Hnd as [|? ? Hnot Hnd']; subst. cbn [fold_left fst snd JSObject.get].
  change (String.eqb k JSObject.PROTO) with (JSObject.isProto k).
  destruct (JSObject.isProto k) eqn:E.
  - apply String.eqb_eq in E. subst k.
    apply (fold_inherit_no_proto (fun kv => (fst kv, deepClone (snd kv))) fields _ Hnot).
  - apply IH. exact Hnd'.
Qed.

Lemma deepClone_object (fields : list (string * value)) :
  NoDup (JSObject.keys fields) ->
  deepClone (VObject fields) =
  match inherited fields with
  | Some bytes => VBuffer bytes
  | None => VObject (map (fun kv => (fst kv, deepClone (snd kv)))
                       (JSObject.assigned fields))
  end.
Proof.
  intros Hnd. rewrite deepClone_built. unfold built. cbn [fst snd].
  pose proof (JSObject.fold_put_map (fun _ v => deepClone v) fields [] Hnd) as E.
  cbv beta in E. now rewrite E.
Qed.

Lemma keys_map_snd {A B : Type} (g : string * A -> B) (o : list (string * A)) :
  JSObject.keys (map (fun kv => (fst kv, g kv)) o) = JSObject.keys o.
Proof. unfold JSObject.keys. rewrite map_map. reflexivity. Qed.

Lemma assigned_map_snd {A B : Type} (g : string * A -> B) (o : list (string * A)) :
  JSObject.assigned (map (fun kv => (fst kv, g kv)) o)
  = map (fun kv => (fst kv, g kv)) (JSObject.assigned o).
Proof.
  unfold JSObject.assigned. induction o as [|[k v] r IH]; [reflexivity|].
  cbn [map filter fst]. destruct (negb (JSObject.isProto k)); cbn [map]; now rewrite IH.
Qed.

Lemma assigned_twice {A : Type} (o : list (string * A)) :
  JSObject.assigned (JSObject.assigned o) = JSObject.assigned o.
Proof. apply JSObject.assigned_id, JSObject.assigned_no_proto. Qed.

(** A value whose objects have pairwise distinct keys and no own
    [__proto__] key, at every depth. *)
Fixpoint tidy (v : value) : Prop :=
  match v with
  | VArray items => fold_right (fun x acc => tidy x /\ acc) True items
  | VObject fields =>
      NoDup (map fst fields) /\ ~ In JSObject.PROTO (map fst fields) /\
      fold_right (fun kv acc => tidy (snd kv) /\ acc) True fields
  | _ => True
  end.

(** Cloning rebuilds a tidy value as it is. *)
Lemma deepClone_tidy : forall v : value, tidy v -> deepClone v = v.
Proof.
  fix IH 1. intros [ | | b | n | n | s | bytes | t | items | fields] Ht;
    try reflexivity.
  - cbn [deepClone]. f_equal. simpl in Ht.
    induction items as [|x items IHl]; [reflexivity|].
    destruct Ht as [Hx Hr]. simpl. rewrite (IH x Hx), (IHl Hr). reflexivity.
  - destruct Ht as (Hnd & Hno & Hall). rewrite (deepClone_object _ Hnd).
    rewrite (inherited_no_proto fields Hno).
    rewrite (JSObject.assigned_id fields Hno). f_equal.
    clear Hnd Hno. induction fields as [|[k x] fields IHl]; [reflexivity|].
    destruct Hall as [Hx Hr]. simpl in Hx |- *.
    rewrite (IH x Hx), (IHl Hr). reflexivity.
Qed.

(** The entries of a sanitized object: one for each entry of the
    input, an own [__proto__] apart. *)
Lemma sanitize_object_entries (f : SanitizeFilter) (fields : list (string * value)) :
  NoDup (JSObject.keys fields) ->
  inherited fields = None ->
  sanitize f (VObject fields) =
  VObject (map (fun kv => (fst kv,
                           if shouldFilter f (fst kv) then VString FILTERED
                           else process f (deepClone (snd kv)) 1))
             (JSObject.assigned fields)).
Proof.
  intros Hnd Hin. unfold sanitize. rewrite (deepClone_object _ Hnd), Hin.
  cbn [process]. change (0 >? MAX_DEPTH)%Z with false. cbv iota.
  fold (processObject f (map (fun kv => (fst kv, deepClone (snd kv)))
                           (JSObject.assigned fields)) 0).
  rewrite processObject_distinct
    by (rewrite keys_map_snd; apply JSObject.assigned_distinct; exact Hnd).
  rewrite assigned_map_snd, assigned_twice, map_map. reflexivity.
Qed.

(** An object made an heir of a Buffer is taken for one. *)
Lemma sanitize_heir (f : SanitizeFilter) (fields : list (string * value))
    (bytes : list Z) :
  inherited fields = Some bytes -> sanitize f (VObject fields) = VString "[Buffer]".
Proof.
  intros Hin. unfold sanitize. rewrite deepClone_built. unfold built.
  cbn [snd]. rewrite Hin. reflexivity.
Qed.

(** What [deepCloneWithin] returns is the value of [deepClone]. *)
Lemma mapM_agrees {A B : Type} (g : A -> option B) (h : A -> B) (l : list A) :
  (forall x y, g x = Some y -> y = h x) ->
  forall r, mapM g l = Some r -> r = map h l.
Proof.
  intros Hg. induction l as [|x l IH]; intros r; cbn [mapM map].
  - intros [= <-]. reflexivity.
  - destruct (g x) as [y|] eqn:Ex; [|discriminate].
    destruct (mapM g l) as [r'|]; [|discriminate].
    cbn. intros [= <-]. rewrite (Hg x y Ex), (IH r' eq_refl). reflexivity.
Qed.

Lemma assignWithin_agrees (frames : nat) (fields : list (string * value)) :
  (forall v c, deepCloneWithin frames v = Some c -> c = deepClone v) ->
  forall (start : option building) (result : building),
    fold_left (fun result kv =>
                 assignWithin result (fst kv) (deepCloneWithin frames (snd kv)))
      fields start = Some result ->
    exists result0,
      start = Some result0 /\
      result = fold_left (fun result kv => assignTo result (fst kv) (deepClone (snd kv)))
                 fields result0.
Proof.
  intros IH. induction fields as [|[k v] fields IHl]; intros start result; cbn [fold_left].
  - intros ->. eexists; split; reflexivity.
  - intros H. destruct (IHl _ _ H) as (mid & Hmid & ->).
    unfold assignWithin in Hmid. cbn [fst snd] in Hmid |- *.
    destruct start as [result0|]; [|discriminate].
    destruct (deepCloneWithin frames v) as [c|] eqn:Ec; [|discriminate].
    rewrite (IH v c Ec) in Hmid.
    exists result0. split; [reflexivity|].
    destruct (snd result0);
      [destruct (negb (JSObject.isProto k) && existsb (String.eqb k) READONLY);
       [discriminate|]|];
      injection Hmid as <-; reflexivity.
Qed.

Lemma deepCloneWithin_agrees (frames : nat) :
  forall (v c : value), deepCloneWithin frames v = Some c -> c = deepClone v.
Proof.
  induction frames as [|frames IH]; intros v c; [discriminate|].
  destruct v as [ | | b | n | n | s | bytes | t | items | fields];
    cbn [deepCloneWithin deepClone]; try (intros [= <-]; reflexivity).
  - destruct (mapM (deepCloneWithin frames) items) as [r|] eqn:Er; [|discriminate].
    cbn. intros [= <-]. f_equal. exact (mapM_agrees _ _ items IH r Er).
  - destruct (fold_left
                (fun result kv =>
                   assignWithin result (fst kv) (deepCloneWithin frames (snd kv)))
                fields (Some ([], None))) as [result|] eqn:Er; [|discriminate].
    cbn [option_map]. intros [= <-].
    destruct (assignWithin_agrees frames fields IH _ _ Er) as (result0 & [= <-] & ->).
    reflexivity.
Qed.

Lemma sanitizeWithin_agrees (frames : nat) (f : SanitizeFilter) (v r : value) :
  sanitizeWithin frames f v = Some r -> r = sanitize f v.
Proof.
  unfold sanitizeWithin, sanitize.
  destruct (deepCloneWithin frames v) as [c|] eqn:Ec; [|discriminate].
  cbn. intros [= <-]. now rewrite (deepCloneWithin_agrees frames v c Ec).
Qed.

Lemma shouldFilter_spec (f : SanitizeFilter) (key : string) :
  shouldFilter f key =
  negb (String.eqb key EmptyString) && test (filterPattern f) (toLowerCase key).
Proof. unfold shouldFilter. destruct key; reflexivity. Qed.

Lemma process_beyond_depth (f : SanitizeFilter) (v : value) (depth : Z) :
  MAX_DEPTH < depth -> process f v depth = VString FILTERED.
Proof.
  intros H. destruct v; cbn [process];
    destruct (Z.gtb_spec depth MAX_DEPTH); (reflexivity || lia).
Qed.

(** A value on which [sanitize] has nothing to do, from the depth
    [depth] on: it lies within [MAX_DEPTH], holds no [Buffer], no
    [Date] and no string over the cap, and its objects have distinct
    keys, none of them [__proto__] and none that the filter matches. *)
Fixpoint untouched (f : SanitizeFilter) (v : value) (depth : Z) {struct v} : Prop :=
  depth <= MAX_DEPTH /\
  match v with
  | VString s => strlen s <= TRUNCATE_LIMIT
  | VBuffer _ | VDate _ => False
  | VArray items =>
      fold_right (fun x acc => untouched f x (depth + 1) /\ acc) True items
  | VObject fields =>
      NoDup (map fst fields) /\
      fold_right
        (fun kv acc =>
           (fst kv <> JSObject.PROTO /\ shouldFilter f (fst kv) = false /\
            untouched f (snd kv) (depth + 1)) /\ acc)
        True fields
  | _ => True
  end.

Lemma untouched_tidy (f : SanitizeFilter) :
  forall (v : value) (depth : Z), untouched f v depth -> tidy v.
Proof.
  fix IH 1. intros [ | | b | n | n | s | bytes | t | items | fields] depth [Hd Hu];
    try exact I.
  - cbn [tidy]. induction items as [|x items IHl]; [exact I|].
    destruct Hu as [Hx Hr]. split; [exact (IH x _ Hx) | exact (IHl Hr)].
  - destruct Hu as [Hnd Hall]. cbn [tidy]. split; [exact Hnd|].
    clear Hnd. induction fields as [|[k x] fields IHl]; [split; [tauto | exact I]|].
    destruct Hall as [(Hk & _ & Hx) Hr]. destruct (IHl Hr) as [Hno Ht].
    cbn [fst snd] in Hk, Hx. split.
    + simpl. intros [E|Hin]; [congruence | contradiction].
    + split; [exact (IH x _ Hx) | exact Ht].
Qed.

Lemma untouched_process (f : SanitizeFilter) :
  forall (v : value) (depth : Z), untouched f v depth -> process f v depth = v.
Proof.
  fix IH 1. intros v depth.
  destruct v as [ | | b | n | n | s | bytes | t | items | fields];
    intros [Hd Hu'];
    assert (Hgt : (depth >? MAX_DEPTH)%Z = false)
      by (destruct (Z.gtb_spec depth MAX_DEPTH); [lia | reflexivity]);
    cbn [process]; rewrite Hgt; try reflexivity; try contradiction.
  - now rewrite truncateString_short.
  - f_equal. induction items as [|x items IHl]; [reflexivity|].
    destruct Hu' as [Hx Hr]. cbn [map]. rewrite (IH x _ Hx). f_equal.
    exact (IHl Hr).
  - destruct Hu' as [Hnd Hall].
    fold (processObject f fields depth). rewrite (processObject_distinct f fields depth Hnd).
    f_equal.
    assert (Hno : ~ In JSObject.PROTO (JSObject.keys fields)).
    { clear Hnd. induction fields as [|[k x] fields IHl]; [simpl; tauto|].
      destruct Hall as [(Hk & _) Hr]. simpl. intros [E|Hin]; [cbn in Hk; congruence|].
      now apply IHl. }
    rewrite (JSObject.assigned_id fields Hno).
    clear Hnd Hno. induction fields as [|[k x] fields IHl]; [reflexivity|].
    destruct Hall as [(_ & Hk & Hx) Hr]. cbn [fst snd] in Hk, Hx.
    cbn [map fst snd]. rewrite Hk, (IH x _ Hx), (IHl Hr). reflexivity.
Qed.


Definition sample_keys : list string := ["password"; "token"].

Definition sample_object : list (string * value) :=
  [("user", VString "john"); ("Password", VString "hunter2")].

Lemma sample_object_distinct : NoDup (JSObject.keys sample_object).
Proof.
  repeat constructor; simpl; intuition discriminate.
Defined.


(** An own [__proto__] key of the input, as [JSON.parse] makes one,
    is not in what [sanitize] returns. *)
Example sanitize_drops_proto :
  option_map
    (fun f => sanitize f
                (VObject [("__proto__", VObject [("admin", VBool true)]);
                          ("name", VString "john")]))
    (new sample_keys)
  = Some (VObject [("name", VString "john")]).
Proof. reflexivity. Qed.

(** An own [__proto__] that holds a Buffer makes the clone an heir of
    it, and the whole object is taken for a Buffer. *)
Example sanitize_buffer_heir :
  option_map
    (fun f => sanitize f
                (VObject [("__proto__", VBuffer [116; 101; 115; 116]);
                          ("password", VString "hunter2")]))
    (new sample_keys)
  = Some (VString "[Buffer]").
Proof. reflexivity. Qed.

Example sanitize_sample_object :
  option_map (fun f => sanitize f (VObject sample_object)) (new sample_keys)
  = Some (VObject [("user", VString "john"); ("Password", VString FILTERED)]).
Proof. reflexivity. Qed.

(** The cases of the test suite: nested objects, arrays, buffers, and
    nesting beyond [MAX_DEPTH]. *)
Example sanitize_nested :
  option_map
    (fun f => sanitize f
                (VObject [("user", VObject [("name", VString "john");
                                            ("credentials",
                                             VObject [("password", VString "secret123")])]);
                          ("users", VArray [VObject [("name", VString "jane");
                                                     ("PASSWORD", VString "pass2")]]);
                          ("buffer", VBuffer [116; 101; 115; 116]);
                          ("nothing", VNull)]))
    (new sample_keys)
  = Some (VObject [("user", VObject [("name", VString "john");
                                     ("credentials",
                                      VObject [("password", VString FILTERED)])]);
                   ("users", VArray [VObject [("name", VString "jane");
                                              ("PASSWORD", VString FILTERED)]]);
                   ("buffer", VString "[Buffer]");
                   ("nothing", VNull)]).
Proof. reflexivity. Qed.

Fixpoint nest (n : nat) (v : value) : value :=
  match n with
  | O => v
  | S n' => VObject [("nested", nest n' v)]
  end.

Example sanitize_deep :
  option_map (fun f => sanitize f (nest 15 (VObject [("value", VString "test")])))
    (new sample_keys)
  = Some (nest 11 (VString FILTERED)).
Proof. reflexivity. Qed.


End Sanitize.

(* ================================================================== *)
(** ** src/types.ts and src/notice.ts *)
(* ================================================================== *)

Module Notice.
Import JSString JSValue.

Local Open Scope list_scope.

Definition Context := list (string * value).
Definition RequestInfo := list (string * value).
Definition User := list (string * value).

Record Notifier : Type := {
  notifier_name : string;
  notifier_version : string;
  language : string;
  language_version : string
}.

(** An optional field is [None] when it is [undefined]: the field is
    then absent from the JSON text. *)
Record ErrorPayload : Type := {
  class : string;
  payload_message : string;
  payload_backtrace : list string;
  occurred_at : string;
  payload_fingerprint : option string;
  payload_tags : option (list string)
}.

Record NoticePayload : Type := {
  error : ErrorPayload;
  payload_context : Context;
  payload_request : RequestInfo;
  payload_user : User;
  notifier : Notifier
}.

Record Notice : Type := {
  errorClass : string;
  message : string;
  backtrace : list string;
  fingerprint : option string;
  tags : list string;
  context : Context;
  request : RequestInfo;
  user : User;
  environment : option string;
  occurredAt : string;
  appName : option string;
  revision : option string
}.

(** The fields of a JavaScript [Error] that [createNotice] reads. *)
Record Error : Type := {
  error_name : string;
  error_message : string;
  error_stack : option string
}.

(** The [options] argument of [createNotice]; [None] is an unset field. *)
Record Options : Type := {
  opt_context : option Context;
  opt_request : option RequestInfo;
  opt_user : option User;
  opt_fingerprint : option string;
  opt_tags : option (list string);
  opt_environment : option string;
  opt_rootPath : option string;
  opt_appName : option string;
  opt_revision : option string
}.

Definition MAX_BACKTRACE_LINES : Z := 100.
Definition MAX_MESSAGE_LENGTH : Z := 10000.

Definition PROJECT_ROOT : string := "[PROJECT_ROOT]".

(** The line feed, the separator of [stack.split('\n')]. *)
Definition LF : ascii := ascii_of_nat 10.

(** Truthiness of an optional string: set and not empty. *)
Definition present (o : option string) : option string :=
  match o with
  | Some s => if truthy s then Some s else None
  | None => None
  end.

(** [a || b] on strings *)
Definition orElse (a b : string) : string := if truthy a then a else b.

(** [o ?? d] *)
Definition nullish {A : Type} (o : option A) (d : A) : A :=
  match o with Some x => x | None => d end.

Definition cleanBacktraceLine (line : string) (rootPath : option string) : string :=
  match present rootPath with
  | None => line
  | Some root => replace line root PROJECT_ROOT
  end.

Definition parseBacktrace (stack rootPath : option string) : list string :=
  match present stack with
  | None => []
  | Some stack =>
      let lines := split LF stack in
      let frames :=
        firstn (Z.to_nat MAX_BACKTRACE_LINES)
          (map (fun line => cleanBacktraceLine (trim line) rootPath)
             (filter (fun line => startsWith (trim line) "at ") lines)) in
      frames
  end.

Definition truncateMessage (message : string) : string :=
  if negb (truthy message) then EmptyString
  else if (strlen message <=? MAX_MESSAGE_LENGTH)%Z then message
  else (substring message 0 (MAX_MESSAGE_LENGTH - 3) ++ "...")%string.

Section Runtime.

(** [VERSION] of src/version.ts and [process.version] of the host. *)
Variables (VERSION process_version : string).

(** [createNotice]; [now] is the text of [new Date().toISOString()]. *)
Definition createNotice (now : string) (error : Error) (options : Options) : Notice :=
  {| errorClass := orElse (error_name error) "Error";
     message := truncateMessage (orElse (error_message error) "Unknown error");
     backtrace := parseBacktrace (error_stack error) (opt_rootPath options);
     fingerprint := opt_fingerprint options;
     tags := nullish (opt_tags options) [];
     context := nullish (opt_context options) [];
     request := nullish (opt_request options) [];
     user := nullish (opt_user options) [];
     environment := opt_environment options;
     occurredAt := now;
     appName := opt_appName options;
     revision := opt_revision options |}.

(** [...(field ? { key: field } : {})] *)
Definition optionalEntry (key : string) (field : option string) : Context :=
  match present field with
  | Some x => [(key, VString x)]
  | None => []
  end.

Definition toPayload (notice : Notice) : NoticePayload :=
  let notifier :=
    {| notifier_name := "@checkend/node";
       notifier_version := VERSION;
       language := "javascript";
       language_version := process_version |} in
  {| error :=
       {| class := errorClass notice;
          payload_message := message notice;
          payload_backtrace := backtrace notice;
          occurred_at := occurredAt notice;
          payload_fingerprint := fingerprint notice;
          payload_tags :=
            if (Z.of_nat (List.length (tags notice)) >? 0)%Z
            then Some (tags notice) else None |};
     payload_context :=
       JSObject.spread
         (JSObject.spread
            (JSObject.spread
               (JSObject.spread [] (context notice))
               (optionalEntry "environment" (environment notice)))
            (optionalEntry "app_name" (appName notice)))
         (optionalEntry "revision" (revision notice));
     payload_request := request notice;
     payload_user := user notice;
     notifier := notifier |}.

End Runtime.

(** *** The wire form of a notice *)

Lemma spread_nil_distinct (o : Context) :
  NoDup (JSObject.keys o) -> JSObject.spread [] o = o.
Proof.
  intros Hnd. unfold JSObject.spread.
  pose proof (JSObject.fold_set_map (fun _ v => v) o [] Hnd) as E.
  cbv beta in E. rewrite E. simpl.
  rewrite <- (map_id o) at 2. apply map_ext. now intros [k v].
Qed.

Lemma get_spread_optionalEntry (a : Context) (key : string) (field : option string)
    (k : string) :
  JSObject.get (JSObject.spread a (optionalEntry key field)) k =
  match present field with
  | Some x => if String.eqb key k then Some (VString x) else JSObject.get a k
  | None => JSObject.get a k
  end.
Proof.
  unfold optionalEntry. destruct (present field) as [x|]; [|reflexivity].
  unfold JSObject.spread. simpl.
  destruct (String.eqb_spec key k) as [->|Hne].
  - apply JSObject.get_set_eq.
  - now apply JSObject.get_set_neq.
Qed.

(** C7.  [toPayload] leaves the [tags] field out when the tag list of
    the notice is empty and carries the (non-empty) list otherwise.  The
    context block holds under ["environment"], ["app_name"] and
    ["revision"] the corresponding field of the notice when that field
    is set (and not empty); when it is not, that key holds what the
    context of the notice holds, and every other key is as in the
    context of the notice. *)
Theorem toPayload_tags_and_context (VERSION process_version : string) (n : Notice) :
  NoDup (JSObject.keys (context n)) ->
  let p := toPayload VERSION process_version n in
  (tags n = [] -> payload_tags (error p) = None) /\
  (tags n <> [] -> payload_tags (error p) = Some (tags n)) /\
  (forall l, payload_tags (error p) = Some l -> l <> []) /\
  JSObject.get (payload_context p) "environment" =
    match present (environment n) with
    | Some e => Some (VString e)
    | None => JSObject.get (context n) "environment"
    end /\
  JSObject.get (payload_context p) "app_name" =
    match present (appName n) with
    | Some a => Some (VString a)
    | None => JSObject.get (context n) "app_name"
    end /\
  JSObject.get (payload_context p) "revision" =
    match present (revision n) with
    | Some r => Some (VString r)
    | None => JSObject.get (context n) "revision"
    end /\
  (forall k, k <> "environment" -> k <> "app_name" -> k <> "revision" ->
             JSObject.get (payload_context p) k = JSObject.get (context n) k).
Proof.
  intros Hnd p. subst p. cbn [toPayload error payload_tags payload_context].
  rewrite (spread_nil_distinct _ Hnd).
  repeat split.
  - intros ->. reflexivity.
  - intros Hne. destruct (tags n); [congruence | reflexivity].
  - intros l. destruct (tags n); [discriminate|]. intros [= <-]. discriminate.
  - rewrite !get_spread_optionalEntry. simpl.
    destruct (present (revision n)), (present (appName n)),
      (present (environment n)); reflexivity.
  - rewrite !get_spread_optionalEntry. simpl.
    destruct (present (revision n)), (present (appName n)),
      (present (environment n)); reflexivity.
  - rewrite !get_spread_optionalEntry. simpl.
    destruct (present (revision n)), (present (appName n)),
      (present (environment n)); reflexivity.
  - intros k H1 H2 H3. rewrite !get_spread_optionalEntry.
    apply String.eqb_neq in H1, H2, H3.
    rewrite String.eqb_sym in H1. rewrite String.eqb_sym in H2.
    rewrite String.eqb_sym in H3. rewrite H1, H2, H3.
    destruct (present (revision n)), (present (appName n)),
      (present (environment n)); reflexivity.
Qed.

Definition sample_notice : Notice :=
  {| errorClass := "Error";
     message := "Test error";
     backtrace := [];
     fingerprint := None;
     tags := ["test"];
     context := [("key", VString "value"); ("environment", VString "old")];
     request := [];
     user := [("id", VString "user-1")];
     environment := Some "test";
     occurredAt := "2024-01-01T00:00:00.000Z";
     appName := None;
     revision := Some EmptyString |}.

Lemma sample_notice_distinct : NoDup (JSObject.keys (context sample_notice)).
Proof. repeat constructor; simpl; intuition discriminate. Defined.

Lemma toPayload_tags_and_context_witness :
  NoDup (JSObject.keys (context sample_notice)) /\
  payload_tags (error (toPayload "1.0.0" "v18.0.0" sample_notice)) = Some ["test"] /\
  JSObject.get (payload_context (toPayload "1.0.0" "v18.0.0" sample_notice)) "environment"
  = Some (VString "test").
Proof.
  split; [exact sample_notice_distinct|].
  pose proof (toPayload_tags_and_context "1.0.0" "v18.0.0" sample_notice
                sample_notice_distinct) as H.
  cbv zeta in H. destruct H as (_ & Htags & _ & Henv & _).
  split; [apply Htags; discriminate | exact Henv].
Defined.

Example toPayload_sample_context :
  payload_context (toPayload "1.0.0" "v18.0.0" sample_notice)
  = [("key", VString "value"); ("environment", VString "test")].
Proof. reflexivity. Qed.

Example toPayload_no_tags :
  payload_tags (error (toPayload "1.0.0" "v18.0.0"
                         (createNotice "now" {| error_name := "Error";
                                                error_message := "Test error";
                                                error_stack := None |}
                            {| opt_context := None; opt_request := None;
                               opt_user := None; opt_fingerprint := None;
                               opt_tags := None; opt_environment := None;
                               opt_rootPath := None; opt_appName := None;
                               opt_revision := None |}))) = None.
Proof. reflexivity. Qed.

(** *** The backtrace *)

Lemma in_firstn {A : Type} (n : nat) (l : list A) (x : A) :
  In x (firstn n l) -> In x l.
Proof.
  revert l. induction n as [|n IH]; intros [|y l]; simpl; try tauto.
  intros [->|H]; [now left | right; now apply IH].
Qed.

(** At most 100 frames are kept. *)
Lemma parseBacktrace_length (stack rootPath : option string) :
  Z.of_nat (List.length (parseBacktrace stack rootPath)) <= MAX_BACKTRACE_LINES.
Proof.
  unfold parseBacktrace. destruct (present stack) as [s|]; [|simpl; unfold MAX_BACKTRACE_LINES; lia].
  pose proof (firstn_le_length (Z.to_nat MAX_BACKTRACE_LINES)
                (map (fun line => cleanBacktraceLine (trim line) rootPath)
                   (filter (fun line => startsWith (trim line) "at ") (split LF s)))) as H.
  unfold MAX_BACKTRACE_LINES in *. lia.
Qed.

(** Every frame is a trimmed line of the stack text that starts with
    the marker ["at "], cleaned. *)
Lemma parseBacktrace_frames (stack : string) (rootPath : option string) (frame : string) :
  In frame (parseBacktrace (Some stack) rootPath) ->
  exists line,
    In line (split LF stack) /\
    startsWith (trim line) "at " = true /\
    frame = cleanBacktraceLine (trim line) rootPath.
Proof.
  unfold parseBacktrace. destruct (present (Some stack)) as [s|] eqn:Hs; [|simpl; tauto].
  assert (s = stack) as ->.
  { simpl in Hs. destruct (truthy stack); congruence. }
  intros Hin. apply in_firstn in Hin. apply in_map_iff in Hin.
  destruct Hin as (line & Heq & Hin). apply filter_In in Hin.
  exists line. intuition.
Qed.

(** Without a root path the frame is the trimmed line itself. *)
Lemma cleanBacktraceLine_no_root (line : string) :
  cleanBacktraceLine line None = line.
Proof. reflexivity. Qed.

(** A line that starts with the root path has that occurrence replaced. *)
Lemma cleanBacktraceLine_prefix (root rest : string) :
  root <> EmptyString ->
  cleanBacktraceLine (root ++ rest) (Some root) = (PROJECT_ROOT ++ rest)%string.
Proof.
  intros Hne. unfold cleanBacktraceLine, present.
  destruct root as [|c root]; [congruence|]. cbn [truthy].
  remember (String c root) as r.
  destruct (r ++ rest)%string eqn:E; unfold replace; fold replace.
  - rewrite <- E, startsWith_append, drop_length_append. reflexivity.
  - rewrite <- E, startsWith_append, drop_length_append. reflexivity.
Qed.

(** A stack text whose only frame names the root path twice. *)
Definition stack_with_two_roots : string :=
  ("Error: boom" ++ String LF "    at run (/app/node_modules/app/index.js:1:1)")%string.

(** C2.  On a frame line that names the root path twice, the backtrace
    of [createNotice] keeps the line with the marker, replaces the first
    occurrence of the root path by ["[PROJECT_ROOT]"] and leaves the
    second one in place: the frame still contains the root path. *)
Theorem createNotice_backtrace_second_occurrence :
  let notice :=
    createNotice "2024-01-01T00:00:00.000Z"
      {| error_name := "Error"; error_message := "boom";
         error_stack := Some stack_with_two_roots |}
      {| opt_context := None; opt_request := None; opt_user := None;
         opt_fingerprint := None; opt_tags := None; opt_environment := None;
         opt_rootPath := Some "/app"; opt_appName := None;
         opt_revision := None |} in
  backtrace notice = ["at run ([PROJECT_ROOT]/node_modules/app/index.js:1:1)"] /\
  existsb (fun frame => includes frame "/app") (backtrace notice) = true.
Proof. split; reflexivity. Qed.

End Notice.

(* ================================================================== *)
(** ** Thrown values, and computations that log and may throw *)
(* ================================================================== *)

Module Effect.

Local Open Scope list_scope.

(** What a [catch (e)] clause can observe of the thrown value [e]:
    [e instanceof Error], [e.name], [e.message] and [String(e)]. *)
Record Thrown : Type := {
  instanceofError : bool;
  thrown_name : string;
  thrown_message : string;
  thrown_text : string
}.

Inductive Completion (A : Type) : Type :=
| Normal (a : A)
| Abrupt (e : Thrown).

Arguments Normal {A} a.
Arguments Abrupt {A} e.

(** A computation over a trace of events of type [E], appended to in
    program order. *)
Definition M (E A : Type) : Type := list E -> Completion A * list E.

Definition ret {E A : Type} (a : A) : M E A := fun tr => (Normal a, tr).

Definition throw {E A : Type} (e : Thrown) : M E A := fun tr => (Abrupt e, tr).

Definition bind {E A B : Type} (c : M E A) (k : A -> M E B) : M E B :=
  fun tr =>
    match c tr with
    | (Normal a, tr') => k a tr'
    | (Abrupt e, tr') => (Abrupt e, tr')
    end.

(** [try { c } catch (e) { handler e }] *)
Definition tryCatch {E A : Type} (c : M E A) (handler : Thrown -> M E A) : M E A :=
  fun tr =>
    match c tr with
    | (Normal a, tr') => (Normal a, tr')
    | (Abrupt e, tr') => handler e tr'
    end.

Definition emit {E : Type} (ev : E) : M E unit := fun tr => (Normal tt, tr ++ [ev]).

Definition run {E A : Type} (c : M E A) : Completion A * list E := c [].

End Effect.

Declare Scope effect_scope.
Delimit Scope effect_scope with effect.

Notation "x <- c ;; k" := (Effect.bind c (fun x => k))
  (at level 61, c at next level, right associativity) : effect_scope.
Notation "c ;; k" := (Effect.bind c (fun _ => k))
  (at level 61, right associativity) : effect_scope.

(* ================================================================== *)
(** ** src/configuration.ts *)
(* ================================================================== *)

Module Configuration.
Import Notice Effect.

Local Open Scope list_scope.

(** What one call of a [beforeNotify] callback does: it returns a
    boolean, returns nothing, returns a promise, or throws. *)
Inductive CallbackResult : Type :=
| ReturnsBool (b : bool)
| ReturnsVoid
| ReturnsPromise
| Throws (e : Thrown).

(** A callback receives the notice object and may write to it before
    it returns or throws. *)
Definition BeforeNotifyCallback : Type := Notice -> CallbackResult * Notice.

Record ConfigOptions : Type := {
  options_apiKey : string;
  options_endpoint : option string;
  options_timeout : option Z;
  options_beforeNotify : option (list BeforeNotifyCallback);
  options_maxQueueSize : option Z;
  options_shutdownTimeout : option Z;
  options_rootPath : option string
}.

Record Configuration : Type := {
  apiKey : string;
  endpoint : string;
  timeout : Z;
  beforeNotify : list BeforeNotifyCallback;
  maxQueueSize : Z;
  shutdownTimeout : Z;
  rootPath : option string
}.

Definition DEFAULT_ENDPOINT : string := "https://app.checkend.io".

(** [a || b] where [a] may be unset. *)
Definition orString (a : option string) (b : string) : string :=
  match present a with Some s => s | None => b end.

(** The constructor, for the settings the pipeline reads; [env] is
    [process.env] and [cwd] is [process.cwd()]. *)
Definition new (env : string -> option string) (cwd : string)
    (options : ConfigOptions) : Configuration :=
  {| apiKey :=
       orString (Some (options_apiKey options))
         (orString (env "CHECKEND_API_KEY") EmptyString);
     endpoint :=
       orString (options_endpoint options)
         (orString (env "CHECKEND_ENDPOINT") DEFAULT_ENDPOINT);
     timeout := nullish (options_timeout options) 15000;
     beforeNotify := nullish (options_beforeNotify options) [];
     maxQueueSize := nullish (options_maxQueueSize options) 1000;
     shutdownTimeout := nullish (options_shutdownTimeout options) 5;
     rootPath := Some (orString (options_rootPath options) cwd) |}.

Definition ingestUrl (config : Configuration) : string :=
  (endpoint config ++ "/ingest/v1/errors")%string.

End Configuration.

(* ================================================================== *)
(** ** src/client.ts *)
(* ================================================================== *)

Module Client.
Import JSString JSValue Notice Effect Configuration.

Local Open Scope list_scope.
Local Open Scope effect_scope.

Inductive Level : Type := Debug | Info | Warn | Error.

(** The texts the client logs, by their template. *)
Inductive Message : Type :=
| NoticeSent (id problem_id : value)
| BadRequest (body : string)
| AuthenticationFailed
| InvalidPayload (body : string)
| RateLimited
| ServerError (status : Z) (body : string)
| UnexpectedResponse (status : Z) (body : string)
| RequestTimeout
| FailedToSend (text : string).

(** The argument of [fetch]; the body is the payload that
    [JSON.stringify] has turned into text. *)
Record Request : Type := {
  url : string;
  method : string;
  headers : list (string * string);
  body : NoticePayload
}.

(** What the client reads of a [Response]: the status, and the
    completions of [response.json()] and [response.text()]. *)
Record Response : Type := {
  status : Z;
  json : Completion value;
  text : Completion string
}.

Inductive Event : Type :=
| SetTimeout (ms : Z)
| ClearTimeout
| Fetch (req : Request)
| Log (level : Level) (msg : Message).

Fixpoint hasBigInt (v : value) : bool :=
  match v with
  | VBigInt _ => true
  | VArray items => existsb hasBigInt items
  | VObject fields => existsb (fun kv => hasBigInt (snd kv)) fields
  | _ => false
  end.

(** [JSON.stringify] accepts every payload but one that holds a BigInt. *)
Definition serializable (payload : NoticePayload) : bool :=
  negb (existsb (fun kv => hasBigInt (snd kv))
          (payload_context payload ++ payload_request payload ++ payload_user payload)).

Definition TypeError (msg : string) : Thrown :=
  {| instanceofError := true;
     thrown_name := "TypeError";
     thrown_message := msg;
     thrown_text := ("TypeError: " ++ msg)%string |}.

Definition JSON_stringify (payload : NoticePayload) : M Event NoticePayload :=
  if serializable payload then ret payload
  else throw (TypeError "Do not know how to serialize a BigInt").

(** [v.k]: reading a property of [null] or [undefined] throws. *)
Definition getProperty (v : value) (k : string) : M Event value :=
  match v with
  | VNull | VUndefined => throw (TypeError "Cannot read properties of null")
  | VObject fields => ret (nullish (JSObject.get fields k) VUndefined)
  | _ => ret VUndefined
  end.

(** The pure part of [v.k], for a [v] other than [null] and
    [undefined]: an own property of an object, [undefined] otherwise. *)
Definition property (v : value) (k : string) : value :=
  match v with
  | VObject fields => nullish (JSObject.get fields k) VUndefined
  | _ => VUndefined
  end.

Definition RangeError (msg : string) : Thrown :=
  {| instanceofError := true;
     thrown_name := "RangeError";
     thrown_message := msg;
     thrown_text := ("RangeError: " ++ msg)%string |}.

(** [ToString(v)], as a template literal applies it to a value that
    [response.json()] has parsed, with room for [frames] nested calls
    on the stack.  An object is converted by its [toString]: the one of
    [Object.prototype], unless the object has an own property of that
    name, which in a parsed body is never a function, and then neither
    [toString] nor [valueOf] gives a primitive and the conversion throws
    a [TypeError].  An array is converted by [join], which converts
    every item but [null] and [undefined] in turn, one call deeper; with
    no room left the call throws a [RangeError].  Only whether the
    conversion returns is recorded, the text is not. *)
Fixpoint toText (frames : nat) (v : value) : Completion unit :=
  match v with
  | VArray items =>
      match frames with
      | O => Abrupt (RangeError "Maximum call stack size exceeded")
      | S frames' =>
          fold_left
            (fun done item =>
               match done with
               | Normal _ =>
                   match item with
                   | VNull | VUndefined => Normal tt
                   | _ => toText frames' item
                   end
               | Abrupt e => Abrupt e
               end)
            items (Normal tt)
      end
  | VObject fields =>
      match frames with
      | O => Abrupt (RangeError "Maximum call stack size exceeded")
      | S _ =>
          match JSObject.get fields "toString" with
          | Some _ => Abrupt (TypeError "Cannot convert object to primitive value")
          | None => Normal tt
          end
      end
  | _ => Normal tt
  end.

(** Resuming after [await p] with the completion of [p]. *)
Definition await {A : Type} (c : Completion A) : M Event A :=
  match c with
  | Normal a => ret a
  | Abrupt e => throw e
  end.

(** [`${v}`] *)
Definition ToString (frames : nat) (v : value) : M Event unit :=
  await (toText frames v).

(** The logger of the configuration records the message; it is taken
    not to throw. *)
Definition log (message : Message) : M Event unit := emit (Log Debug message).
Definition logWarn (message : Message) : M Event unit := emit (Log Warn message).
Definition logError (message : Message) : M Event unit := emit (Log Error message).

Section Transport.

(** [VERSION] and [process.version], and the network: the completion
    of the promise [fetch] returns for a request. *)
Variables (VERSION process_version : string).
Variable fetch : Request -> Completion Response.

(** The nested calls the stack has room for where [handleResponse]
    builds the text of its log entry. *)
Variable stack : nat.

Definition USER_AGENT : string :=
  ("@checkend/node/" ++ VERSION ++ " Node/" ++ process_version)%string.

Definition handleResponse (response : Response) : M Event (option value) :=
  let status := status response in
  if (status =? 201)%Z then
    result <- await (json response) ;;
    id <- getProperty result "id" ;;
    ToString stack id ;;
    problem_id <- getProperty result "problem_id" ;;
    ToString stack problem_id ;;
    log (NoticeSent id problem_id) ;;
    ret (Some result)
  else
    body <- tryCatch (await (text response)) (fun _ => ret EmptyString) ;;
    (if (status =? 400)%Z then logWarn (BadRequest body)
     else if (status =? 401)%Z then logError AuthenticationFailed
     else if (status =? 422)%Z then logWarn (InvalidPayload body)
     else if (status =? 429)%Z then logWarn RateLimited
     else if (status >=? 500)%Z then logError (ServerError status body)
     else logError (UnexpectedResponse status body)) ;;
    ret None.

Definition send (config : Configuration) (payload : NoticePayload)
  : M Event (option value) :=
  emit (SetTimeout (timeout config)) ;;
  tryCatch
    (body <- JSON_stringify payload ;;
     let request :=
       {| url := ingestUrl config;
          method := "POST";
          headers := [("Content-Type", "application/json");
                      ("Checkend-Ingestion-Key", apiKey config);
                      ("User-Agent", USER_AGENT)];
          body := body |} in
     response <- (emit (Fetch request) ;; await (fetch request)) ;;
     emit ClearTimeout ;;
     handleResponse response)
    (fun e =>
       emit ClearTimeout ;;
       (if instanceofError e && String.eqb (thrown_name e) "AbortError"
        then logError RequestTimeout
        else logError (FailedToSend (thrown_text e))) ;;
       ret None).

Definition sendNotice (config : Configuration) (notice : Notice)
  : M Event (option value) :=
  let payload := toPayload VERSION process_version notice in
  send config payload.

(** The request [send] builds for a payload. *)
Definition requestFor (config : Configuration) (payload : NoticePayload) : Request :=
  {| url := ingestUrl config;
     method := "POST";
     headers := [("Content-Type", "application/json");
                 ("Checkend-Ingestion-Key", apiKey config);
                 ("User-Agent", USER_AGENT)];
     body := payload |}.

End Transport.

(** The network attempts recorded in a trace. *)
Definition attempts (trace : list Event) : list Request :=
  flat_map (fun ev => match ev with Fetch req => [req] | _ => [] end) trace.

(** A warning or an error was logged. *)
Definition diagnosed (trace : list Event) : bool :=
  existsb (fun ev => match ev with
                     | Log Warn _ | Log Error _ => true
                     | _ => false
                     end) trace.

(** The values a property can be read from. *)
Definition readable (v : value) : bool :=
  match v with VNull | VUndefined => false | _ => true end.

Definition converts (frames : nat) (v : value) : bool :=
  match toText frames v with Normal _ => true | Abrupt _ => false end.

(** The parsed bodies of which [handleResponse] can write its log
    entry: [id] and [problem_id] can be read and turned into text. *)
Definition loggable (frames : nat) (v : value) : bool :=
  readable v && converts frames (property v "id")
  && converts frames (property v "problem_id").

Section Outcome.

Variables (VERSION process_version : string).
Variable fetch : Request -> Completion Response.
Variable stack : nat.
Variables (config : Configuration) (payload : NoticePayload).

Let request : Request := requestFor VERSION process_version config payload.
Let outcome : Completion (option value) * list Event :=
  run (send VERSION process_version fetch stack config payload).

Ltac step_send :=
  subst outcome request;
  cbv [run send requestFor handleResponse JSON_stringify getProperty await
       ToString log logWarn logError bind tryCatch emit ret throw fst snd app
       attempts flat_map diagnosed existsb orb].

Lemma send_unserializable :
  serializable payload = false ->
  outcome = (Normal None,
             [SetTimeout (timeout config); ClearTimeout;
              Log Error (FailedToSend
                           "TypeError: Do not know how to serialize a BigInt")]).
Proof. intros Hs. step_send. rewrite Hs. reflexivity. Qed.

Lemma send_rejected (e : Thrown) :
  serializable payload = true ->
  fetch request = Abrupt e ->
  outcome = (Normal None,
             [SetTimeout (timeout config); Fetch request; ClearTimeout;
              Log Error (if instanceofError e && String.eqb (thrown_name e) "AbortError"
                         then RequestTimeout
                         else FailedToSend (thrown_text e))]).
Proof.
  intros Hs Hf. revert Hf. step_send. rewrite Hs. intros ->.
  destruct (instanceofError e && String.eqb (thrown_name e) "AbortError");
    reflexivity.
Qed.

Lemma getProperty_readable (v : value) (k : string) :
  readable v = true -> getProperty v k = ret (property v k).
Proof. destruct v; intros H; try discriminate H; reflexivity. Qed.

Ltac convert :=
  repeat match goal with
         | |- context [toText stack ?x] => destruct (toText stack x) as [?|?e]
         end.

Ltac caught :=
  repeat match goal with
         | |- context [instanceofError ?e && ?b] => destruct (instanceofError e && b)
         end;
  repeat split.

Lemma send_created (resp : Response) (v : value) :
  serializable payload = true ->
  fetch request = Normal resp ->
  status resp = 201 ->
  json resp = Normal v ->
  loggable stack v = true ->
  fst outcome = Normal (Some v) /\ attempts (snd outcome) = [request].
Proof.
  intros Hs Hf Hst Hj Hl. revert Hf. step_send. rewrite Hs. intros ->.
  rewrite Hst, Hj.
  unfold loggable, converts in Hl.
  destruct v; try discriminate Hl; cbn [property readable andb] in Hl; simpl;
    convert; try discriminate Hl; split; reflexivity.
Qed.

Lemma send_created_unloggable (resp : Response) :
  serializable payload = true ->
  fetch request = Normal resp ->
  status resp = 201 ->
  (forall v, json resp = Normal v -> loggable stack v = false) ->
  fst outcome = Normal None /\
  attempts (snd outcome) = [request] /\
  diagnosed (snd outcome) = true.
Proof.
  intros Hs Hf Hst Hj. revert Hf. step_send. rewrite Hs. intros ->.
  rewrite Hst. destruct (json resp) as [v|e] eqn:Ej.
  - specialize (Hj v eq_refl). unfold loggable, converts in Hj.
    destruct v; cbn [property readable andb] in Hj; simpl;
      convert; try discriminate Hj; simpl; caught.
  - simpl. caught.
Qed.

Lemma send_other_status (resp : Response) :
  serializable payload = true ->
  fetch request = Normal resp ->
  status resp <> 201 ->
  fst outcome = Normal None /\
  attempts (snd outcome) = [request] /\
  diagnosed (snd outcome) = true.
Proof.
  intros Hs Hf Hst. revert Hf. step_send. rewrite Hs. intros ->.
  apply Z.eqb_neq in Hst. rewrite Hst.
  destruct (text resp) as [b|e];
    destruct (status resp =? 400)%Z, (status resp =? 401)%Z,
      (status resp =? 422)%Z, (status resp =? 429)%Z, (status resp >=? 500)%Z;
    repeat split.
Qed.

End Outcome.

(** C6.  One call of [send] completes normally, whatever the network
    does and whatever room the stack has.  It makes at most one network
    attempt: exactly one, with the request built from the payload, when
    the payload can be serialized, and none when it cannot.  When the
    attempt is answered with status 201 and a body that parses to a
    value other than [null] whose [id] and [problem_id] can be turned
    into the text of the log entry, that value is returned.  In every
    other case (another status, a 201 whose body does not parse or whose
    [id] or [problem_id] cannot be turned into text, a timeout, a
    network error, a payload that cannot be serialized) the result is
    [null] and a warning or an error has been logged.  An [id] that is
    an object with an own [toString] is such a case whatever the stack,
    and an [id] that is a number, a text or absent never is. *)
Theorem send_contract (VERSION process_version : string)
    (fetch : Request -> Completion Response) (stack : nat)
    (config : Configuration) (payload : NoticePayload) :
  let request := requestFor VERSION process_version config payload in
  let outcome := run (send VERSION process_version fetch stack config payload) in
  let created (v : value) :=
    serializable payload = true /\
    exists resp, fetch request = Normal resp /\ status resp = 201 /\
                 json resp = Normal v /\ loggable stack v = true in
  (exists r, fst outcome = Normal r) /\
  attempts (snd outcome) = (if serializable payload then [request] else []) /\
  (forall v, created v -> fst outcome = Normal (Some v)) /\
  ((forall v, ~ created v) ->
   fst outcome = Normal None /\ diagnosed (snd outcome) = true) /\
  (forall fields other,
     In "toString" (JSObject.keys fields) ->
     ~ created (VObject [("id", VObject fields); ("problem_id", other)])) /\
  (forall fields n s,
     stack <> 0%nat ->
     ~ In "toString" (JSObject.keys fields) ->
     loggable stack (VObject [("id", VNumber n); ("problem_id", VString s)]) = true /\
     loggable stack (VObject [("id", VObject fields)]) = true /\
     loggable stack (VNumber n) = true).
Proof.
  intros request outcome created.
  assert (Hmain :
    (exists r, fst outcome = Normal r) /\
    attempts (snd outcome) = (if serializable payload then [request] else []) /\
    (forall v, created v -> fst outcome = Normal (Some v)) /\
    ((forall v, ~ created v) ->
     fst outcome = Normal None /\ diagnosed (snd outcome) = true)).
  { destruct (serializable payload) eqn:Hs.
    2:{ pose proof (send_unserializable VERSION process_version fetch stack config
                      payload Hs) as E.
        fold outcome in E. rewrite E. simpl.
        split; [eexists; reflexivity|]. split; [reflexivity|].
        split; [|split; reflexivity].
        intros v (Hc & _). discriminate Hc. }
    destruct (fetch request) as [resp|e] eqn:Hf.
    2:{ pose proof (send_rejected VERSION process_version fetch stack config payload
                      e Hs Hf) as E.
        fold outcome request in E. rewrite E. simpl.
        split; [eexists; reflexivity|]. split; [reflexivity|].
        split; [|intros _; split; [reflexivity|]].
        - intros v (_ & resp & Hr & _). congruence.
        - reflexivity. }
    destruct (Z.eq_dec (status resp) 201) as [Hst|Hst].
    2:{ destruct (send_other_status VERSION process_version fetch stack config payload
                    resp Hs Hf Hst) as (E1 & E2 & E3).
        fold outcome request in E1, E2, E3. rewrite E1, E2, E3.
        split; [eexists; reflexivity|]. split; [reflexivity|].
        split; [|intros _; split; reflexivity].
        intros v (_ & resp' & Hr & Hst' & _). congruence. }
    assert (Hdec : (exists v, json resp = Normal v /\ loggable stack v = true) \/
                   (forall v, json resp = Normal v -> loggable stack v = false)).
    { destruct (json resp) as [v|e].
      - destruct (loggable stack v) eqn:Hr; [left; eauto | right].
        intros v' [= <-]. exact Hr.
      - right. intros v' [=]. }
    destruct Hdec as [(v & Hj & Hr)|Hno].
    - destruct (send_created VERSION process_version fetch stack config payload
                  resp v Hs Hf Hst Hj Hr) as (E1 & E2).
      fold outcome request in E1, E2. rewrite E1, E2.
      split; [eexists; reflexivity|]. split; [reflexivity|]. split.
      + intros v' (_ & resp' & Hr' & _ & Hj' & _). congruence.
      + intros Hnone. exfalso. apply (Hnone v). split; [reflexivity|]. eauto.
    - destruct (send_created_unloggable VERSION process_version fetch stack config payload
                  resp Hs Hf Hst Hno) as (E1 & E2 & E3).
      fold outcome request in E1, E2, E3. rewrite E1, E2, E3.
      split; [eexists; reflexivity|]. split; [reflexivity|].
      split; [|intros _; split; reflexivity].
      intros v (_ & resp' & Hr' & _ & Hj' & Hread).
      assert (resp' = resp) as -> by congruence.
      rewrite (Hno v Hj') in Hread. discriminate. }
  destruct Hmain as (H1 & H2 & H3 & H4).
  split; [exact H1|]. split; [exact H2|]. split; [exact H3|]. split; [exact H4|].
  split.
  - intros fields other Hin (_ & resp & _ & _ & _ & Hl).
    destruct (JSObject.get_present fields "toString" Hin) as [method Eg].
    unfold loggable, converts in Hl. cbn [property readable andb JSObject.get] in Hl.
    change (String.eqb "id" "id") with true in Hl. cbn [nullish] in Hl.
    destruct stack; cbn [toText] in Hl; rewrite ?Eg in Hl; discriminate Hl.
  - intros fields n s Hstack Hnot.
    destruct stack as [|stack']; [contradiction|].
    unfold loggable, converts. cbn.
    rewrite (JSObject.get_absent _ _ Hnot). repeat split.
Qed.

(** *** Concrete runs *)

Definition sample_config : Configuration :=
  Configuration.new (fun _ => None) "/app"
    {| options_apiKey := "test-key";
       options_endpoint := None;
       options_timeout := None;
       options_beforeNotify := None;
       options_maxQueueSize := None;
       options_shutdownTimeout := None;
       options_rootPath := None |}.

Definition sample_payload : NoticePayload :=
  toPayload "1.0.0" "v18.0.0" sample_notice.

Definition created_response : Response :=
  {| status := 201;
     json := Normal (VObject [("id", VNumber 1); ("problem_id", VNumber 1)]);
     text := Normal "{id:1,problem_id:1}" |}.

Lemma send_contract_witness :
  let request := requestFor "1.0.0" "v18.0.0" sample_config sample_payload in
  let outcome :=
    run (send "1.0.0" "v18.0.0" (fun _ => Normal created_response) 1000
           sample_config sample_payload) in
  fst outcome = Normal (Some (VObject [("id", VNumber 1); ("problem_id", VNumber 1)])) /\
  attempts (snd outcome) = [request].
Proof.
  intros request outcome.
  destruct (send_contract "1.0.0" "v18.0.0" (fun _ => Normal created_response) 1000
              sample_config sample_payload) as (_ & Hatt & Hok & _).
  split.
  - apply Hok. split; [reflexivity|].
    exists created_response. repeat split.
  - exact Hatt.
Defined.

(** A payload whose context holds a BigInt. *)
Definition bigint_payload : NoticePayload :=
  toPayload "1.0.0" "v18.0.0"
    {| errorClass := "Error"; message := "boom"; backtrace := [];
       fingerprint := None; tags := [];
       context := [("count", VBigInt 10)];
       request := []; user := [];
       environment := None; occurredAt := "2024-01-01T00:00:00.000Z";
       appName := None; revision := None |}.

(** A 201 answer whose body is not JSON. *)
Definition created_without_body : Response :=
  {| status := 201;
     json := Abrupt {| instanceofError := true;
                       thrown_name := "SyntaxError";
                       thrown_message := "Unexpected end of JSON input";
                       thrown_text := "SyntaxError: Unexpected end of JSON input" |};
     text := Normal EmptyString |}.

(** [send] on a payload that cannot be serialized makes no network
    attempt at all; and a 201 answer whose body does not parse gives
    [null], not a parsed body. *)
Lemma send_without_attempt_and_created_null :
  attempts (snd (run (send "1.0.0" "v18.0.0" (fun _ => Normal created_response) 1000
                        sample_config bigint_payload))) = [] /\
  List.length
    (attempts (snd (run (send "1.0.0" "v18.0.0" (fun _ => Normal created_response) 1000
                           sample_config bigint_payload)))) <> 1%nat /\
  status created_without_body = 201 /\
  fst (run (send "1.0.0" "v18.0.0" (fun _ => Normal created_without_body) 1000
              sample_config sample_payload)) = Normal None.
Proof. repeat split. simpl. discriminate. Qed.

(** A 201 answer whose [id] cannot be turned into text: the log entry
    cannot be written and the call ends in the [catch] clause. *)
Definition created_with_odd_id : Response :=
  {| status := 201;
     json := Normal (VObject [("id", VObject [("toString", VNumber 1)]);
                              ("problem_id", VNumber 1)]);
     text := Normal EmptyString |}.

Example send_created_unconvertible :
  run (send "1.0.0" "v18.0.0" (fun _ => Normal created_with_odd_id) 1000
         sample_config sample_payload)
  = (Normal None,
     [SetTimeout 15000;
      Fetch (requestFor "1.0.0" "v18.0.0" sample_config sample_payload);
      ClearTimeout; ClearTimeout;
      Log Error (FailedToSend "TypeError: Cannot convert object to primitive value")]).
Proof. reflexivity. Qed.

End Client.

(* ================================================================== *)
(** ** src/index.ts: the pre-send callbacks *)
(* ================================================================== *)

Module Index.
Import JSString Notice Effect Configuration.

Local Open Scope list_scope.
Local Open Scope effect_scope.

Inductive Level : Type := Debug | Warn.

Inductive Message : Type :=
| NoticeBlocked                       (* 'Notice blocked by beforeNotify callback' *)
| CallbackFailed (errorMsg : string). (* `beforeNotify callback failed: ${errorMsg}` *)

(** What the façade does, in program order: it calls the callback at
    position [index] of [config.beforeNotify], which completes with
    [result]; it logs; it hands the notice to [sendNotice]. *)
Inductive Event : Type :=
| Invoked (index : nat) (result : CallbackResult)
| Log (level : Level) (msg : Message)
| SendNotice (notice : Notice).

(** [e instanceof Error ? e.message : String(e)] *)
Definition errorMsg (e : Thrown) : string :=
  if instanceofError e then thrown_message e else thrown_text e.

(** The [for] loop of [runBeforeNotifyCallbacks], from position [i]. *)
Fixpoint runCallbacksFrom (i : nat) (callbacks : list BeforeNotifyCallback)
    (notice : Notice) : M Event (bool * Notice) :=
  match callbacks with
  | [] => ret (true, notice)
  | callback :: rest =>
      let (result, notice') := callback notice in
      emit (Invoked i result) ;;
      match result with
      | Throws e =>
          emit (Log Warn (CallbackFailed (errorMsg e))) ;;
          runCallbacksFrom (S i) rest notice'
      | ReturnsBool false =>
          emit (Log Debug NoticeBlocked) ;;
          ret (false, notice')
      | _ => runCallbacksFrom (S i) rest notice'
      end
  end.

Definition runBeforeNotifyCallbacks (config : option Configuration) (notice : Notice)
  : M Event (bool * Notice) :=
  match config with
  | None => ret (true, notice)
  | Some config => runCallbacksFrom 0 (beforeNotify config) notice
  end.

(** The end of [notify], once the notice is built:
    [if (!runBeforeNotifyCallbacks(notice)) return; sendNotice(notice)]. *)
Definition notify_tail (config : option Configuration) (notice : Notice) : M Event unit :=
  r <- runBeforeNotifyCallbacks config notice ;;
  if negb (fst r) then ret tt else emit (SendNotice (snd r)).

(** The events of the loop, and its result. *)
Definition loopEvents (i : nat) (callbacks : list BeforeNotifyCallback)
    (notice : Notice) : list Event :=
  snd (runCallbacksFrom i callbacks notice []).

Definition loopResult (i : nat) (callbacks : list BeforeNotifyCallback)
    (notice : Notice) : Completion (bool * Notice) :=
  fst (runCallbacksFrom i callbacks notice []).

Definition isVeto (r : CallbackResult) : bool :=
  match r with ReturnsBool false => true | _ => false end.

Definition sent (trace : list Event) : bool :=
  existsb (fun ev => match ev with SendNotice _ => true | _ => false end) trace.

(** *** The loop extends the trace it is given *)

Lemma runCallbacksFrom_trace (callbacks : list BeforeNotifyCallback) :
  forall (i : nat) (notice : Notice) (tr : list Event),
    runCallbacksFrom i callbacks notice tr =
    (loopResult i callbacks notice, tr ++ loopEvents i callbacks notice).
Proof.
  unfold loopResult, loopEvents.
  induction callbacks as [|cb rest IH]; intros i notice tr.
  - simpl. unfold ret. now rewrite app_nil_r.
  - cbn [runCallbacksFrom]. destruct (cb notice) as [result notice'].
    unfold bind, emit. cbn [app].
    destruct result as [[|]| | |e].
    + rewrite (IH (S i) notice' (tr ++ [Invoked i (ReturnsBool true)])).
      rewrite (IH (S i) notice' [Invoked i (ReturnsBool true)]).
      cbn [fst snd]. now rewrite <- app_assoc.
    + unfold ret. cbn [fst snd app]. now rewrite <- app_assoc.
    + rewrite (IH (S i) notice' (tr ++ [Invoked i ReturnsVoid])).
      rewrite (IH (S i) notice' [Invoked i ReturnsVoid]).
      cbn [fst snd]. now rewrite <- app_assoc.
    + rewrite (IH (S i) notice' (tr ++ [Invoked i ReturnsPromise])).
      rewrite (IH (S i) notice' [Invoked i ReturnsPromise]).
      cbn [fst snd]. now rewrite <- app_assoc.
    + rewrite (IH (S i) notice' ((tr ++ [Invoked i (Throws e)]) ++ _)).
      rewrite (IH (S i) notice' ([Invoked i (Throws e)] ++ _)).
      cbn [fst snd app]. now rewrite <- !app_assoc.
Qed.

(** What one turn of the loop adds, by the completion of the callback. *)
Definition turn (i : nat) (result : CallbackResult) : list Event :=
  Invoked i result ::
  match result with
  | Throws e => [Log Warn (CallbackFailed (errorMsg e))]
  | ReturnsBool false => [Log Debug NoticeBlocked]
  | _ => []
  end.

Lemma loopEvents_cons (i : nat) (cb : BeforeNotifyCallback)
    (rest : list BeforeNotifyCallback) (notice : Notice) :
  loopEvents i (cb :: rest) notice =
  turn i (fst (cb notice)) ++
  (if isVeto (fst (cb notice)) then []
   else loopEvents (S i) rest (snd (cb notice))).
Proof.
  unfold loopEvents at 1. cbn [runCallbacksFrom].
  destruct (cb notice) as [result notice']. cbn [fst snd].
  unfold bind, emit. cbn [app].
  destruct result as [[|]| | |e]; try rewrite runCallbacksFrom_trace; reflexivity.
Qed.

Lemma loopResult_cons (i : nat) (cb : BeforeNotifyCallback)
    (rest : list BeforeNotifyCallback) (notice : Notice) :
  loopResult i (cb :: rest) notice =
  if isVeto (fst (cb notice)) then Normal (false, snd (cb notice))
  else loopResult (S i) rest (snd (cb notice)).
Proof.
  unfold loopResult at 1. cbn [runCallbacksFrom].
  destruct (cb notice) as [result notice']. cbn [fst snd].
  unfold bind, emit. cbn [app].
  destruct result as [[|]| | |e]; try rewrite runCallbacksFrom_trace; reflexivity.
Qed.

Lemma in_turn_invoked (i j : nat) (result r : CallbackResult) :
  In (Invoked j r) (turn i result) -> j = i /\ r = result.
Proof.
  unfold turn. intros [H|H]; [inversion H; auto|].
  destruct result as [[|]| | |e]; simpl in H; intuition discriminate.
Qed.

(** The positions called lie in the range of the list. *)
Lemma loopEvents_range (callbacks : list BeforeNotifyCallback) :
  forall i notice j r,
    In (Invoked j r) (loopEvents i callbacks notice) ->
    (i <= j < i + List.length callbacks)%nat.
Proof.
  induction callbacks as [|cb rest IH]; intros i notice j r Hin.
  - contradiction.
  - rewrite loopEvents_cons in Hin. apply in_app_or in Hin.
    destruct Hin as [Hin|Hin].
    + apply in_turn_invoked in Hin. simpl. lia.
    + destruct (isVeto (fst (cb notice))); [contradiction|].
      apply IH in Hin. simpl. lia.
Qed.

(** Some callback called in the trace returned [false]. *)
Definition vetoed (trace : list Event) : bool :=
  existsb (fun ev => match ev with Invoked _ r => isVeto r | _ => false end) trace.

Lemma vetoed_turn (i : nat) (result : CallbackResult) :
  vetoed (turn i result) = isVeto result.
Proof. destruct result as [[|]| | |e]; reflexivity. Qed.

Lemma sent_turn (i : nat) (result : CallbackResult) : sent (turn i result) = false.
Proof. destruct result as [[|]| | |e]; reflexivity. Qed.

Lemma loop_first (cb : BeforeNotifyCallback) (rest : list BeforeNotifyCallback)
    (i : nat) (notice : Notice) :
  In (Invoked i (fst (cb notice))) (loopEvents i (cb :: rest) notice).
Proof. rewrite loopEvents_cons. apply in_or_app. left. now left. Qed.

(** Each call recorded is a call of the callback at that position. *)
Lemma loop_calls (callbacks : list BeforeNotifyCallback) :
  forall i notice j r,
    In (Invoked j r) (loopEvents i callbacks notice) ->
    exists cb n, nth_error callbacks (j - i) = Some cb /\ fst (cb n) = r.
Proof.
  induction callbacks as [|cb rest IH]; intros i notice j r Hin; [contradiction|].
  pose proof (loopEvents_range _ _ _ _ _ Hin) as Hrange.
  rewrite loopEvents_cons in Hin. apply in_app_or in Hin.
  destruct Hin as [Hin|Hin].
  - apply in_turn_invoked in Hin. destruct Hin as [-> ->].
    exists cb, notice. rewrite Nat.sub_diag. split; reflexivity.
  - destruct (isVeto (fst (cb notice))); [contradiction|].
    pose proof (loopEvents_range _ _ _ _ _ Hin) as Hrange'.
    destruct (IH _ _ _ _ Hin) as (cb' & n & Hnth & Hr).
    exists cb', n. split; [|exact Hr].
    replace (j - i)%nat with (S (j - S i)) by lia. exact Hnth.
Qed.

Lemma loop_fault_logged (callbacks : list BeforeNotifyCallback) :
  forall i notice j e,
    In (Invoked j (Throws e)) (loopEvents i callbacks notice) ->
    In (Log Warn (CallbackFailed (errorMsg e))) (loopEvents i callbacks notice).
Proof.
  induction callbacks as [|cb rest IH]; intros i notice j e Hin; [contradiction|].
  rewrite loopEvents_cons in Hin |- *. apply in_app_or in Hin. apply in_or_app.
  destruct Hin as [Hin|Hin].
  - left. apply in_turn_invoked in Hin. destruct Hin as [_ <-]. simpl. auto.
  - right. destruct (isVeto (fst (cb notice))); [contradiction|]. eauto.
Qed.

(** After a call that does not return [false], the next callback is called. *)
Lemma loop_continues (callbacks : list BeforeNotifyCallback) :
  forall i notice j r,
    In (Invoked j r) (loopEvents i callbacks notice) ->
    isVeto r = false ->
    (S j < i + List.length callbacks)%nat ->
    exists r', In (Invoked (S j) r') (loopEvents i callbacks notice).
Proof.
  induction callbacks as [|cb rest IH]; intros i notice j r Hin Hr Hlt; [contradiction|].
  rewrite loopEvents_cons in Hin |- *. apply in_app_or in Hin.
  destruct Hin as [Hin|Hin].
  - apply in_turn_invoked in Hin. destruct Hin as [-> ->]. rewrite Hr.
    destruct rest as [|cb' rest']; [simpl in Hlt; lia|].
    exists (fst (cb' (snd (cb notice)))). apply in_or_app. right. apply loop_first.
  - destruct (isVeto (fst (cb notice))); [contradiction|].
    destruct (IH (S i) (snd (cb notice)) j r Hin Hr) as (r' & Hr').
    + simpl in Hlt. lia.
    + exists r'. apply in_or_app. now right.
Qed.

(** A call that returns [false] is the last one, and it is logged. *)
Lemma loop_veto_last (callbacks : list BeforeNotifyCallback) :
  forall i notice j r,
    In (Invoked j r) (loopEvents i callbacks notice) ->
    isVeto r = true ->
    In (Log Debug NoticeBlocked) (loopEvents i callbacks notice) /\
    forall k r', In (Invoked k r') (loopEvents i callbacks notice) -> (k <= j)%nat.
Proof.
  induction callbacks as [|cb rest IH]; intros i notice j r Hin Hr; [contradiction|].
  rewrite loopEvents_cons in Hin |- *. apply in_app_or in Hin.
  destruct Hin as [Hin|Hin].
  - apply in_turn_invoked in Hin. destruct Hin as [-> ->]. rewrite Hr.
    rewrite app_nil_r. split.
    + destruct (fst (cb notice)) as [[|]| | |e]; try discriminate. simpl. auto.
    + intros k r' Hk. apply in_turn_invoked in Hk. lia.
  - destruct (isVeto (fst (cb notice))) eqn:Hv; [contradiction|].
    destruct (IH _ _ _ _ Hin Hr) as (Hlog & Hlast). split.
    + apply in_or_app. now right.
    + intros k r' Hk. apply in_app_or in Hk. destruct Hk as [Hk|Hk].
      * apply in_turn_invoked in Hk. apply loopEvents_range in Hin. lia.
      * eauto.
Qed.

(** The loop returns [true] unless a callback returned [false], and it
    does not hand the notice over itself. *)
Lemma loop_result (callbacks : list BeforeNotifyCallback) :
  forall i notice,
    sent (loopEvents i callbacks notice) = false /\
    exists notice',
      loopResult i callbacks notice =
      Normal (negb (vetoed (loopEvents i callbacks notice)), notice').
Proof.
  induction callbacks as [|cb rest IH]; intros i notice.
  - split; [reflexivity|]. exists notice. reflexivity.
  - rewrite loopEvents_cons, loopResult_cons.
    unfold vetoed, sent. rewrite !existsb_app.
    fold (vetoed (turn i (fst (cb notice)))). fold (sent (turn i (fst (cb notice)))).
    rewrite vetoed_turn, sent_turn.
    destruct (isVeto (fst (cb notice))) eqn:Hv.
    + split; [reflexivity|]. eexists. reflexivity.
    + destruct (IH (S i) (snd (cb notice))) as (Hs & n' & Hn'). split.
      * exact Hs.
      * exists n'. rewrite Hn'. reflexivity.
Qed.

Lemma notify_tail_run (config : Configuration) (notice : Notice) :
  exists notice',
    run (notify_tail (Some config) notice) =
    (Normal tt,
     loopEvents 0 (beforeNotify config) notice ++
     (if vetoed (loopEvents 0 (beforeNotify config) notice) then []
      else [SendNotice notice'])).
Proof.
  destruct (loop_result (beforeNotify config) 0 notice) as (_ & n' & Hn').
  exists n'. unfold run, notify_tail, runBeforeNotifyCallbacks, bind.
  rewrite runCallbacksFrom_trace, Hn'. cbn [app fst snd].
  destruct (vetoed (loopEvents 0 (beforeNotify config) notice));
    cbn [negb]; unfold ret, emit; [now rewrite app_nil_r | reflexivity].
Qed.

(** C8.  The end of [notify] does not throw.  In its trace: a callback
    that throws is followed by the warning with its message; after every
    call that does not return [false], a throwing one included, the next
    callback of the list is called; the notice is handed to
    [sendNotice] exactly when no callback returned [false]; and a
    callback that returns [false] ends the loop: this is logged, no later
    callback is called and the notice is not handed over.  Every call
    recorded is a call of the callback at that position. *)
Theorem beforeNotify_fault_and_veto (config : Configuration) (notice : Notice) :
  let outcome := run (notify_tail (Some config) notice) in
  let trace := snd outcome in
  let callbacks := beforeNotify config in
  fst outcome = Normal tt /\
  (callbacks <> [] -> exists r, In (Invoked 0 r) trace) /\
  (forall i r, In (Invoked i r) trace ->
     exists cb n, nth_error callbacks i = Some cb /\ fst (cb n) = r) /\
  (forall i e, In (Invoked i (Throws e)) trace ->
     In (Log Warn (CallbackFailed (errorMsg e))) trace) /\
  (forall i r, In (Invoked i r) trace -> isVeto r = false ->
     (S i < List.length callbacks)%nat ->
     exists r', In (Invoked (S i) r') trace) /\
  sent trace = negb (vetoed trace) /\
  (forall i r, In (Invoked i r) trace -> isVeto r = true ->
     sent trace = false /\
     In (Log Debug NoticeBlocked) trace /\
     forall k r', In (Invoked k r') trace -> (k <= i)%nat).
Proof.
  intros outcome trace callbacks. subst trace outcome.
  destruct (notify_tail_run config notice) as (n' & E). rewrite E. clear E.
  fold callbacks. cbn [fst snd].
  set (events := loopEvents 0 callbacks notice).
  assert (Hinv : forall i r,
             In (Invoked i r)
                (events ++ (if vetoed events then [] else [SendNotice n'])) ->
             In (Invoked i r) events).
  { intros i r H. apply in_app_or in H. destruct H as [H|H]; [exact H|].
    destruct (vetoed events); simpl in H; intuition discriminate. }
  assert (Hsent : sent (events ++ (if vetoed events then [] else [SendNotice n']))
                  = negb (vetoed events)).
  { unfold sent at 1. rewrite existsb_app. fold (sent events).
    destruct (loop_result callbacks 0 notice) as (Hs & _). fold events in Hs.
    rewrite Hs. destruct (vetoed events); reflexivity. }
  assert (Hvet : vetoed (events ++ (if vetoed events then [] else [SendNotice n']))
                 = vetoed events).
  { unfold vetoed at 1. rewrite existsb_app. fold (vetoed events).
    destruct (vetoed events); [reflexivity|]. reflexivity. }
  split; [reflexivity|].
  split.
  { intros Hne. destruct callbacks as [|cb rest] eqn:Ecb; [congruence|].
    exists (fst (cb notice)). apply in_or_app. left. apply loop_first. }
  split.
  { intros i r H. apply Hinv in H.
    destruct (loop_calls _ _ _ _ _ H) as (cb & n & Hnth & Hr).
    rewrite Nat.sub_0_r in Hnth. eauto. }
  split.
  { intros i e H. apply Hinv in H. apply in_or_app. left.
    eapply loop_fault_logged; eauto. }
  split.
  { intros i r H Hr Hlt. apply Hinv in H.
    destruct (loop_continues callbacks 0 notice i r H Hr) as (r' & Hr'); [lia|].
    exists r'. apply in_or_app. now left. }
  split.
  { rewrite Hsent, Hvet. reflexivity. }
  intros i r H Hr. apply Hinv in H.
  destruct (loop_veto_last callbacks 0 notice i r H Hr) as (Hlog & Hlast).
  assert (Hv : vetoed events = true).
  { unfold vetoed. apply existsb_exists. exists (Invoked i r). auto. }
  split; [rewrite Hsent, Hv; reflexivity|].
  split; [apply in_or_app; now left|].
  intros k r' Hk. apply Hinv in Hk. eauto.
Qed.

(** *** A concrete chain: a callback that throws, then two that pass *)

Definition boom : Thrown :=
  {| instanceofError := true; thrown_name := "Error";
     thrown_message := "callback broke"; thrown_text := "Error: callback broke" |}.

Definition failing_callback : BeforeNotifyCallback := fun n => (Throws boom, n).
Definition passing_callback : BeforeNotifyCallback := fun n => (ReturnsBool true, n).
Definition silent_callback : BeforeNotifyCallback := fun n => (ReturnsVoid, n).
Definition vetoing_callback : BeforeNotifyCallback := fun n => (ReturnsBool false, n).

Definition config_with (callbacks : list BeforeNotifyCallback) : Configuration :=
  Configuration.new (fun _ => None) "/app"
    {| options_apiKey := "test-key";
       options_endpoint := None;
       options_timeout := None;
       options_beforeNotify := Some callbacks;
       options_maxQueueSize := None;
       options_shutdownTimeout := None;
       options_rootPath := None |}.

Example fault_then_pass :
  run (notify_tail (Some (config_with [failing_callback; passing_callback; silent_callback]))
         sample_notice)
  = (Normal tt,
     [Invoked 0 (Throws boom); Log Warn (CallbackFailed "callback broke");
      Invoked 1 (ReturnsBool true); Invoked 2 ReturnsVoid;
      SendNotice sample_notice]).
Proof. reflexivity. Qed.

Example fault_then_veto :
  run (notify_tail (Some (config_with [failing_callback; vetoing_callback; passing_callback]))
         sample_notice)
  = (Normal tt,
     [Invoked 0 (Throws boom); Log Warn (CallbackFailed "callback broke");
      Invoked 1 (ReturnsBool false); Log Debug NoticeBlocked]).
Proof. reflexivity. Qed.

Lemma beforeNotify_fault_and_veto_witness :
  let trace :=
    snd (run (notify_tail
                (Some (config_with [failing_callback; passing_callback; silent_callback]))
                sample_notice)) in
  In (Invoked 0 (Throws boom)) trace /\
  In (Log Warn (CallbackFailed (errorMsg boom))) trace /\
  (exists r', In (Invoked 1 r') trace) /\
  sent trace = negb (vetoed trace).
Proof.
  intros trace.
  destruct (beforeNotify_fault_and_veto
              (config_with [failing_callback; passing_callback; silent_callback])
              sample_notice) as (_ & _ & _ & Hlog & Hnext & Hsent & _).
  assert (H0 : In (Invoked 0 (Throws boom)) trace) by (left; reflexivity).
  split; [exact H0|].
  split; [exact (Hlog 0%nat boom H0)|].
  split; [apply (Hnext 0%nat (Throws boom) H0 eq_refl); simpl; lia|].
  exact Hsent.
Defined.

End Index.

(* ================================================================== *)
(** ** src/worker.ts *)
(* ================================================================== *)

Module Worker.
Import JSString JSValue Notice Effect Configuration.

Local Open Scope list_scope.

(** The double-precision arithmetic [throttleDelay] uses.  Its
    operations are those of the host ([Math.pow] is approximated by
    the implementation), so they are parameters of the model. *)
Record Arithmetic : Type := {
  double : Type;
  ofZ : Z -> double;                 (* an integer as a double *)
  ofDecimal : Z -> Z -> double;      (* [ofDecimal m d]: the literal m / 10^d *)
  sub : double -> double -> double;
  mul : double -> double -> double;
  Math_pow : double -> double -> double;
  Math_round : double -> double
}.

(** *** What the arithmetic of the host is taken to guarantee *)

Section Accuracy.
Import QArith Qround Lqa.
Local Open Scope Q_scope.

Definition ERROR : Q := 1 # 1000000.
Definition RANGE : Q := 1000000 # 1.

Definition near (x y : Q) : Prop := y - ERROR <= x /\ x <= y + ERROR.
Definition inRange (x : Q) : Prop := - RANGE <= x /\ x <= RANGE.

(** [valueOf] is the real number a double stands for.  Integers up to
    2^53 are exact; [Math.pow] of the literal [1.05] and a level, a
    difference and a product are within [ERROR] of the exact result,
    as long as that lies within [RANGE]; [Math.round] is the integer
    next to its argument, a half rounded up.  IEEE 754 doubles meet
    this with room to spare: within [RANGE] a correctly rounded result
    is off by less than 2^-33, and the literal [1.05] by less than
    2^-53, which a power of at most 100 multiplies by less than 2^14. *)
Record Accurate (A : Arithmetic) : Type := {
  valueOf : double A -> Q;
  ofZ_exact : forall n : Z,
    (Z.abs n <= 2 ^ 53)%Z -> valueOf (ofZ A n) == inject_Z n;
  pow_near : forall n : Z,
    (0 <= n <= 100)%Z ->
    near (valueOf (Math_pow A (ofDecimal A 105 2) (ofZ A n))) ((21 # 20) ^ n);
  sub_near : forall x y : double A,
    inRange (valueOf x - valueOf y) ->
    near (valueOf (sub A x y)) (valueOf x - valueOf y);
  mul_near : forall x y : double A,
    inRange (valueOf x * valueOf y) ->
    near (valueOf (mul A x y)) (valueOf x * valueOf y);
  round_exact : forall x : double A,
    valueOf (Math_round A x) == inject_Z (Qfloor (valueOf x + (1 # 2)))
}.

Arguments valueOf {A} acc x : rename.
Arguments ofZ_exact {A} acc n : rename.
Arguments pow_near {A} acc n : rename.
Arguments sub_near {A} acc x y : rename.
Arguments mul_near {A} acc x y : rename.
Arguments round_exact {A} acc x : rename.

(** [round((1.05^level - 1) * 1000)] on exact numbers, a half rounded
    up as [Math.round] does. *)
Definition delayMs (level : Z) : Z :=
  Qfloor (((21 # 20) ^ level - 1) * 1000 + (1 # 2)).

(** The double [x] is the integer [n]. *)
Definition represents {A : Arithmetic} (acc : Accurate A) (x : double A) (n : Z) : Prop :=
  valueOf acc x == inject_Z n.

(** The error the three operations can add up to, and the integers
    next to the exact delay less and plus that error. *)
Definition SLACK : Q := 2001 * ERROR.

Definition lowMs (level : Z) : Z :=
  Qfloor (((21 # 20) ^ level - 1) * 1000 - SLACK + (1 # 2)).

Definition highMs (level : Z) : Z :=
  Qfloor (((21 # 20) ^ level - 1) * 1000 + SLACK + (1 # 2)).

Definition withinRange (level : Z) : bool :=
  Qle_bool (- RANGE) ((21 # 20) ^ level - ERROR - 1) &&
  Qle_bool ((21 # 20) ^ level + ERROR - 1) RANGE &&
  Qle_bool (- RANGE) (((21 # 20) ^ level - 1 - 2 * ERROR) * 1000) &&
  Qle_bool (((21 # 20) ^ level - 1 + 2 * ERROR) * 1000) RANGE.

Definition levels : list Z := map Z.of_nat (seq 1 100).

(** At the level [n] the error cannot move the delay to another
    integer; at the level 2 the exact delay is 102.5, a tie. *)
Definition settledAt (n : Z) : bool :=
  withinRange n &&
  ((n =? 2)%Z || ((lowMs n =? delayMs n)%Z && (highMs n =? delayMs n)%Z)).

Lemma levels_in (n : Z) : (1 <= n <= 100)%Z -> In n levels.
Proof.
  intros H. unfold levels. rewrite <- (Z2Nat.id n) by lia.
  apply in_map, in_seq. lia.
Qed.

Lemma levels_settled : forallb settledAt levels = true.
Proof. vm_compute. reflexivity. Qed.

Variable A : Arithmetic.
Variable acc : Accurate A.

Lemma delay_between (n : Z) :
  (0 <= n <= 100)%Z -> withinRange n = true ->
  (lowMs n
   <= Qfloor (valueOf acc
                (mul A (sub A (Math_pow A (ofDecimal A 105 2) (ofZ A n)) (ofZ A 1))
                   (ofZ A 1000)) + (1 # 2))
   <= highMs n)%Z.
Proof.
  intros Hn Hr. unfold withinRange in Hr.
  apply andb_prop in Hr as (Hr & H4). apply andb_prop in Hr as (Hr & H3).
  apply andb_prop in Hr as (H1 & H2).
  apply Qle_bool_iff in H1, H2, H3, H4.
  set (P := (21 # 20) ^ n) in *.
  set (p := Math_pow A (ofDecimal A 105 2) (ofZ A n)).
  pose proof (pow_near acc n Hn) as [Hp1 Hp2]. fold p P in Hp1, Hp2.
  pose proof (ofZ_exact acc 1 ltac:(vm_compute; discriminate)) as H1e.
  pose proof (ofZ_exact acc 1000 ltac:(vm_compute; discriminate)) as H1000.
  unfold inject_Z in H1e, H1000.
  set (one := ofZ A 1) in *. set (k := ofZ A 1000) in *.
  unfold RANGE, ERROR in *.
  assert (Hd : near (valueOf acc (sub A p one)) (valueOf acc p - valueOf acc one)).
  { apply sub_near. unfold inRange, RANGE. rewrite H1e. split; lra. }
  destruct Hd as [Hd1 Hd2]. rewrite H1e in Hd1, Hd2.
  set (d := sub A p one) in *. unfold ERROR in Hd1, Hd2.
  assert (Hm : near (valueOf acc (mul A d k)) (valueOf acc d * valueOf acc k)).
  { apply mul_near. unfold inRange, RANGE. rewrite H1000. split; lra. }
  destruct Hm as [Hm1 Hm2]. rewrite H1000 in Hm1, Hm2.
  unfold lowMs, highMs. fold P. unfold SLACK, ERROR in *.
  split; apply Qfloor_resp_le; lra.
Qed.

Lemma delay_value (n : Z) :
  (1 <= n <= 100)%Z -> n <> 2%Z ->
  represents acc
    (Math_round A
       (mul A (sub A (Math_pow A (ofDecimal A 105 2) (ofZ A n)) (ofZ A 1))
          (ofZ A 1000)))
    (delayMs n).
Proof.
  intros Hn Hne. unfold represents. rewrite round_exact.
  pose proof (proj1 (forallb_forall settledAt levels) levels_settled n (levels_in n Hn))
    as Hs.
  unfold settledAt in Hs. apply andb_prop in Hs as (Hr & Hs).
  destruct (Z.eqb_spec n 2) as [->|_]; [contradiction|]. cbn [orb] in Hs.
  apply andb_prop in Hs as (Hlo & Hhi). apply Z.eqb_eq in Hlo, Hhi.
  pose proof (delay_between n ltac:(lia) Hr) as Hb.
  rewrite Hlo, Hhi in Hb.
  assert (E : forall a b : Z, a = b -> inject_Z a == inject_Z b)
    by (intros a b ->; reflexivity).
  apply E. lia.
Qed.

Lemma delay_tie :
  represents acc
    (Math_round A
       (mul A (sub A (Math_pow A (ofDecimal A 105 2) (ofZ A 2)) (ofZ A 1))
          (ofZ A 1000)))
    102
  \/
  represents acc
    (Math_round A
       (mul A (sub A (Math_pow A (ofDecimal A 105 2) (ofZ A 2)) (ofZ A 1))
          (ofZ A 1000)))
    103.
Proof.
  unfold represents.
  pose proof (delay_between 2 ltac:(lia) ltac:(vm_compute; reflexivity)) as Hb.
  change (lowMs 2) with 102%Z in Hb. change (highMs 2) with 103%Z in Hb.
  set (m := Qfloor _) in Hb.
  assert (Hm : m = 102%Z \/ m = 103%Z) by lia.
  destruct Hm as [Hm|Hm]; [left | right]; rewrite round_exact; fold m; rewrite Hm;
    reflexivity.
Qed.

End Accuracy.

Arguments valueOf {A} acc x : rename.

Inductive QueueItem : Type :=
| Payload (payload : NoticePayload)
| SHUTDOWN
| FLUSH (resolve : nat).   (* [resolve] settles the promise of that name *)

Record Worker : Type := {
  queue : list QueueItem;
  processing : bool;
  shutdown : bool;
  throttle : Z
}.

Section Machine.

Variable A : Arithmetic.
Variables (VERSION process_version : string).
Variable config : Configuration.

(** An activation of [processQueue] suspended at an [await]: in the
    [sleep] of [sendWithThrottle], in [client.send], or at the
    [await this.sendWithThrottle(...)] of the loop, the call having
    returned. *)
Inductive Task : Type :=
| Sleeping (payload : NoticePayload) (ms : double A)
| Sending (payload : NoticePayload)
| Returning.

(** The worker and what surrounds it: the suspended activations of
    [processQueue], the calls of [client.send] so far, the payloads
    [push] has queued so far, the pending timeout timers of [stop] and
    [flush] with their delays, the [stop] promises whose [waitForDrain]
    is polling, the promises of [stop] and [flush] already resolved,
    and the number of 'Queue full' warnings. *)
Record System : Type := {
  worker : Worker;
  tasks : list Task;
  transport : list NoticePayload;
  accepted : list NoticePayload;
  timers : list (nat * Z);
  polling : list nat;
  settled : list nat;
  warnings : nat
}.

Definition BASE_THROTTLE : double A := ofDecimal A 105 2.
Definition MAX_THROTTLE : Z := 100.

(** [new Worker(config)] *)
Definition new : System :=
  {| worker := {| queue := []; processing := false; shutdown := false; throttle := 0 |};
     tasks := []; transport := []; accepted := [];
     timers := []; polling := []; settled := []; warnings := 0 |}.

(** *** Field updates *)

Definition withWorker (f : Worker -> Worker) (s : System) : System :=
  {| worker := f (worker s); tasks := tasks s; transport := transport s;
     accepted := accepted s; timers := timers s; polling := polling s;
     settled := settled s; warnings := warnings s |}.

Definition withTasks (f : list Task -> list Task) (s : System) : System :=
  {| worker := worker s; tasks := f (tasks s); transport := transport s;
     accepted := accepted s; timers := timers s; polling := polling s;
     settled := settled s; warnings := warnings s |}.

Definition setQueue (q : list QueueItem) (w : Worker) : Worker :=
  {| queue := q; processing := processing w; shutdown := shutdown w;
     throttle := throttle w |}.

Definition setProcessing (b : bool) (w : Worker) : Worker :=
  {| queue := queue w; processing := b; shutdown := shutdown w;
     throttle := throttle w |}.

Definition setShutdown (b : bool) (w : Worker) : Worker :=
  {| queue := queue w; processing := processing w; shutdown := b;
     throttle := throttle w |}.

Definition setThrottle (t : Z) (w : Worker) : Worker :=
  {| queue := queue w; processing := processing w; shutdown := shutdown w;
     throttle := t |}.

(** [this.queue.push(item)] *)
Definition enqueue (item : QueueItem) (w : Worker) : Worker :=
  setQueue (queue w ++ [item]) w.

(** [this.client.send(payload)] is called. *)
Definition callSend (payload : NoticePayload) (s : System) : System :=
  {| worker := worker s; tasks := tasks s; transport := transport s ++ [payload];
     accepted := accepted s; timers := timers s; polling := polling s;
     settled := settled s; warnings := warnings s |}.

Definition recordAccepted (payload : NoticePayload) (s : System) : System :=
  {| worker := worker s; tasks := tasks s; transport := transport s;
     accepted := accepted s ++ [payload]; timers := timers s;
     polling := polling s; settled := settled s; warnings := warnings s |}.

(** [setTimeout(resolve, ms)] for the promise [promise]. *)
Definition setTimer (promise : nat) (ms : Z) (s : System) : System :=
  {| worker := worker s; tasks := tasks s; transport := transport s;
     accepted := accepted s; timers := timers s ++ [(promise, ms)];
     polling := polling s; settled := settled s; warnings := warnings s |}.

Definition clearTimer (promise : nat) (s : System) : System :=
  {| worker := worker s; tasks := tasks s; transport := transport s;
     accepted := accepted s;
     timers := filter (fun t => negb (Nat.eqb (fst t) promise)) (timers s);
     polling := polling s; settled := settled s; warnings := warnings s |}.

(** The promise [promise] is resolved. *)
Definition resolve (promise : nat) (s : System) : System :=
  {| worker := worker s; tasks := tasks s; transport := transport s;
     accepted := accepted s; timers := timers s; polling := polling s;
     settled := settled s ++ [promise]; warnings := warnings s |}.

(** [waitForDrain()] starts polling for the promise [promise]. *)
Definition startPolling (promise : nat) (s : System) : System :=
  {| worker := worker s; tasks := tasks s; transport := transport s;
     accepted := accepted s; timers := timers s;
     polling := polling s ++ [promise];
     settled := settled s; warnings := warnings s |}.

Definition stopPolling (promise : nat) (s : System) : System :=
  {| worker := worker s; tasks := tasks s; transport := transport s;
     accepted := accepted s; timers := timers s;
     polling := filter (fun p => negb (Nat.eqb p promise)) (polling s);
     settled := settled s; warnings := warnings s |}.

(** [this.config.logger.warn('Queue full, dropping notice')] *)
Definition warnQueueFull (s : System) : System :=
  {| worker := worker s; tasks := tasks s; transport := transport s;
     accepted := accepted s; timers := timers s; polling := polling s;
     settled := settled s;
     warnings := S (warnings s) |}.

(** *** The throttle *)

Definition throttleDelay (w : Worker) : double A :=
  Math_round A
    (mul A (sub A (Math_pow A BASE_THROTTLE (ofZ A (throttle w))) (ofZ A 1))
       (ofZ A 1000)).

Definition incThrottle (w : Worker) : Worker :=
  setThrottle (Z.min (throttle w + 1) MAX_THROTTLE) w.

Definition decThrottle (w : Worker) : Worker :=
  setThrottle (Z.max (throttle w - 1) 0) w.

(** [sendWithThrottle], up to its first [await]: the sleep when the
    throttle is above zero, the call of [client.send] otherwise. *)
Definition sendWithThrottle (payload : NoticePayload) (s : System) : System * Task :=
  if (throttle (worker s) >? 0)%Z
  then (s, Sleeping payload (throttleDelay (worker s)))
  else (callSend payload s, Sending payload).

(** *** The drain loop *)

(** The [while] loop of [processQueue] from its test, over the queue
    [q] of the worker, up to the next [await] (a suspended task) or to
    its exit ([processing] is reset). *)
Fixpoint whileLoop (q : list QueueItem) (s : System) : System * option Task :=
  match q with
  | [] => (withWorker (setProcessing false) s, None)
  | item :: rest =>
      let s := withWorker (setQueue rest) s in
      match item with
      | SHUTDOWN => (withWorker (setProcessing false) s, None)
      | FLUSH promise => whileLoop rest (resolve promise s)
      | Payload payload =>
          let (s, task) := sendWithThrottle payload s in (s, Some task)
      end
  end.

Definition spawn (t : option Task) (ts : list Task) : list Task :=
  match t with Some task => ts ++ [task] | None => ts end.

(** [processQueue()], up to its first [await]. *)
Definition processQueue (s : System) : System :=
  if processing (worker s) || (Z.of_nat (List.length (queue (worker s))) =? 0)%Z
  then s
  else
    let s := withWorker (setProcessing true) s in
    let (s, t) := whileLoop (queue (worker s)) s in
    withTasks (spawn t) s.

(** *** The public operations *)

Definition push (notice : Notice) (s : System) : bool * System :=
  if shutdown (worker s) then (false, s)
  else if (Z.of_nat (List.length (queue (worker s))) >=? maxQueueSize config)%Z
  then (false, warnQueueFull s)
  else
    let payload := toPayload VERSION process_version notice in
    let s := withWorker (enqueue (Payload payload)) s in
    let s := recordAccepted payload s in
    let s := processQueue s in
    (true, s).

(** [stop(timeout)], up to its [await]; [promise] names the promise
    it returns.  The first test of [waitForDrain] fails, the marker
    being in the queue; the later ones are the [DrainCheck] events. *)
Definition stop (promise : nat) (timeout : option Z) (s : System) : System :=
  if shutdown (worker s) then resolve promise s
  else
    let s := withWorker (setShutdown true) s in
    let s := withWorker (enqueue SHUTDOWN) s in
    let timeoutMs := (nullish timeout (shutdownTimeout config) * 1000)%Z in
    let s := startPolling promise s in
    setTimer promise timeoutMs s.

(** [flush(timeout)]; [promise] names the promise it returns. *)
Definition flush (promise : nat) (timeout : option Z) (s : System) : System :=
  let timeoutMs := (nullish timeout (Configuration.timeout config) * 1000)%Z in
  let s := withWorker (enqueue (FLUSH promise)) s in
  let s := processQueue s in
  setTimer promise timeoutMs s.

Definition running (w : Worker) : bool := negb (shutdown w).

Definition queueSize (w : Worker) : Z := Z.of_nat (List.length (queue w)).

(** The test of [waitForDrain]. *)
Definition drained (w : Worker) : bool :=
  (Z.of_nat (List.length (queue w)) =? 0)%Z && negb (processing w).

(** *** Resumptions *)

Definition replaceTask (k : nat) (t : option Task) (ts : list Task) : list Task :=
  firstn k ts ++ match t with Some task => [task] | None => [] end ++ skipn (S k) ts.

(** The sleep of task [k] is over: [client.send(payload)] is called. *)
Definition wake (k : nat) (payload : NoticePayload) (s : System) : System :=
  withTasks (replaceTask k (Some (Sending payload))) (callSend payload s).

(** The send of task [k] has completed with [result]:
    [sendWithThrottle] adjusts the throttle and returns. *)
Definition sendDone (k : nat) (result : option value) (s : System) : System :=
  let s :=
    match result with
    | None => withWorker incThrottle s
    | Some _ => withWorker decThrottle s
    end in
  withTasks (replaceTask k (Some Returning)) s.

(** Task [k] goes round the loop again. *)
Definition resume (k : nat) (s : System) : System :=
  let (s, t) := whileLoop (queue (worker s)) s in
  withTasks (replaceTask k t) s.

(** What can happen to the system: the three public operations, the
    three resumptions of a drain task, the timeout timer of a [stop]
    or [flush] promise, and a poll of [waitForDrain]. *)
Inductive Event : Type :=
| Push (notice : Notice)
| Stop (promise : nat) (timeout : option Z)
| Flush (promise : nat) (timeout : option Z)
| Wake (k : nat)
| SendDone (k : nat) (result : option value)
| Resume (k : nat)
| Timeout (promise : nat)
| DrainCheck (promise : nat).

Definition hasTimer (promise : nat) (s : System) : bool :=
  existsb (fun t => Nat.eqb (fst t) promise) (timers s).

Definition isPolling (promise : nat) (s : System) : bool :=
  existsb (Nat.eqb promise) (polling s).

Definition step (e : Event) (s : System) : System :=
  match e with
  | Push notice => snd (push notice s)
  | Stop promise timeout => stop promise timeout s
  | Flush promise timeout => flush promise timeout s
  | Wake k =>
      match nth_error (tasks s) k with
      | Some (Sleeping payload _) => wake k payload s
      | _ => s
      end
  | SendDone k result =>
      match nth_error (tasks s) k with
      | Some (Sending _) => sendDone k result s
      | _ => s
      end
  | Resume k =>
      match nth_error (tasks s) k with
      | Some Returning => resume k s
      | _ => s
      end
  | Timeout promise =>
      if hasTimer promise s then resolve promise (clearTimer promise s) else s
  | DrainCheck promise =>
      if isPolling promise s && drained (worker s)
      then resolve promise (stopPolling promise s) else s
  end.

(** The system after a sequence of events, the first one first. *)
Definition run (events : list Event) (s : System) : System :=
  fold_left (fun s e => step e s) events s.

(** *** What the queue and the tasks hold *)

(** The payload items of a queue, in order. *)
Fixpoint payloads (q : list QueueItem) : list NoticePayload :=
  match q with
  | [] => []
  | Payload p :: rest => p :: payloads rest
  | _ :: rest => payloads rest
  end.

(** The payloads popped by a task that has not called [client.send] yet. *)
Definition waiting (ts : list Task) : list NoticePayload :=
  flat_map (fun t => match t with Sleeping p _ => [p] | _ => [] end) ts.

(** The sends in flight. *)
Definition inFlight (ts : list Task) : list NoticePayload :=
  flat_map (fun t => match t with Sending p => [p] | _ => [] end) ts.

Definition hasShutdown (q : list QueueItem) : bool :=
  existsb (fun item => match item with SHUTDOWN => true | _ => false end) q.

(** No payload is queued behind a shutdown marker. *)
Fixpoint markersBehindShutdown (q : list QueueItem) : Prop :=
  match q with
  | [] => True
  | SHUTDOWN :: rest => payloads rest = []
  | _ :: rest => markersBehindShutdown rest
  end.

Lemma payloads_app (q q' : list QueueItem) :
  payloads (q ++ q') = payloads q ++ payloads q'.
Proof.
  induction q as [|[p| |r] q IH]; simpl; [reflexivity | now rewrite IH | exact IH | exact IH].
Qed.

Lemma markersBehindShutdown_no_payload (q : list QueueItem) :
  payloads q = [] -> markersBehindShutdown q.
Proof.
  induction q as [|[p| |r] q IH]; simpl; intros H; auto; discriminate.
Qed.

Lemma markersBehindShutdown_tail (item : QueueItem) (q : list QueueItem) :
  markersBehindShutdown (item :: q) -> markersBehindShutdown q.
Proof.
  destruct item; simpl; auto using markersBehindShutdown_no_payload.
Qed.

Lemma markersBehindShutdown_enqueue (q : list QueueItem) (item : QueueItem) :
  markersBehindShutdown q ->
  hasShutdown q = false \/ payloads [item] = [] ->
  markersBehindShutdown (q ++ [item]).
Proof.
  induction q as [|[p| |r] q IH]; intros Hq Hor.
  - destruct item; simpl; auto.
  - simpl in *. apply IH; auto.
  - destruct Hor as [Hor|Hor]; [discriminate|].
    cbn [app markersBehindShutdown] in *.
    rewrite payloads_app, Hq, Hor. reflexivity.
  - simpl in *. apply IH; auto.
Qed.

Lemma hasShutdown_app (q q' : list QueueItem) :
  hasShutdown (q ++ q') = hasShutdown q || hasShutdown q'.
Proof. apply existsb_app. Qed.

(** *** The invariant of the worker *)

(** What holds of the system at every point of the program. *)
Record Consistent (s : System) : Prop := {
  inv_single : (List.length (tasks s) <= 1)%nat;
  inv_processing : processing (worker s) = negb (Nat.eqb (List.length (tasks s)) 0);
  inv_fifo :
    transport s ++ waiting (tasks s) ++ payloads (queue (worker s)) = accepted s;
  inv_behind : markersBehindShutdown (queue (worker s));
  inv_flag : hasShutdown (queue (worker s)) = true -> shutdown (worker s) = true;
  inv_throttle : 0 <= throttle (worker s) <= MAX_THROTTLE
}.

(** What holds between events: moreover, an idle worker has no
    payload left in its queue. *)
Definition Invariant (s : System) : Prop :=
  Consistent s /\
  (processing (worker s) = false -> payloads (queue (worker s)) = []).

Lemma Invariant_new : Invariant new.
Proof.
  split; [constructor|]; simpl; try reflexivity; try lia; auto; try discriminate.
  unfold MAX_THROTTLE; lia.
Qed.

(** What one run of the loop does, from its test to the next [await]
    or to its exit. *)
Lemma whileLoop_spec (q : list QueueItem) :
  forall s : System,
    queue (worker s) = q ->
    markersBehindShutdown q ->
    let s' := fst (whileLoop q s) in
    let t := snd (whileLoop q s) in
    tasks s' = tasks s /\
    accepted s' = accepted s /\
    shutdown (worker s') = shutdown (worker s) /\
    throttle (worker s') = throttle (worker s) /\
    markersBehindShutdown (queue (worker s')) /\
    (hasShutdown (queue (worker s')) = true -> hasShutdown q = true) /\
    match t with
    | None =>
        processing (worker s') = false /\
        transport s' = transport s /\
        payloads q = [] /\
        payloads (queue (worker s')) = []
    | Some (Sleeping p ms) =>
        processing (worker s') = processing (worker s) /\
        transport s' = transport s /\
        payloads q = p :: payloads (queue (worker s')) /\
        0 < throttle (worker s) /\ ms = throttleDelay (worker s)
    | Some (Sending p) =>
        processing (worker s') = processing (worker s) /\
        transport s' = transport s ++ [p] /\
        payloads q = p :: payloads (queue (worker s')) /\
        throttle (worker s) <= 0
    | Some Returning => False
    end.
Proof.
  induction q as [|item rest IH]; intros s Hqueue Hq.
  - simpl. rewrite Hqueue. repeat split; auto.
  - destruct item as [p| |r].
    + cbn [whileLoop]. unfold sendWithThrottle. cbn [withWorker worker setQueue throttle].
      destruct (Z.gtb_spec (throttle (worker s)) 0); cbn [fst snd].
      * simpl. repeat split; auto.
      * simpl. repeat split; auto.
    + simpl. simpl in Hq. repeat split; auto.
      apply markersBehindShutdown_no_payload; exact Hq.
    + cbn [whileLoop].
      specialize (IH (resolve r (withWorker (setQueue rest) s)) eq_refl Hq).
      cbv zeta in IH |- *.
      destruct IH as (H1 & H2 & H3 & H4 & H5 & H6 & H7).
      simpl in H1, H2, H3, H4, H6.
      repeat split; auto.
Qed.

Lemma processQueue_busy (s : System) :
  processing (worker s) = true -> processQueue s = s.
Proof. unfold processQueue. now intros ->. Qed.

Lemma single_task (s : System) (k : nat) (t : Task) :
  (List.length (tasks s) <= 1)%nat ->
  nth_error (tasks s) k = Some t ->
  k = 0%nat /\ tasks s = [t].
Proof.
  destruct (tasks s) as [|t0 [|t1 ts]]; simpl; intros Hlen Hnth.
  - destruct k; discriminate.
  - destruct k as [|[|k]]; simpl in Hnth; try discriminate.
    inversion Hnth. auto.
  - lia.
Qed.

(** Starting the loop on a consistent system gives a system that
    satisfies the invariant. *)
Lemma processQueue_invariant (s : System) :
  Consistent s -> Invariant (processQueue s).
Proof.
  intros [Hsingle Hproc Hfifo Hbehind Hflag Hthr].
  unfold processQueue.
  destruct (processing (worker s)) eqn:Hp; cbn [orb].
  { split; [constructor; auto; congruence | congruence]. }
  destruct (Z.eqb_spec (Z.of_nat (List.length (queue (worker s)))) 0) as [Hlen|Hlen].
  { assert (Hq : queue (worker s) = []) by (destruct (queue (worker s)); [reflexivity | simpl in Hlen; lia]).
    split; [constructor; auto; congruence | now rewrite Hq]. }
  assert (Htasks : tasks s = []).
  { destruct (tasks s); [reflexivity | simpl in Hproc; discriminate]. }
  pose proof (whileLoop_spec (queue (worker (withWorker (setProcessing true) s)))
                (withWorker (setProcessing true) s) eq_refl) as Hloop.
  cbn [withWorker worker setProcessing queue] in Hloop.
  specialize (Hloop Hbehind). cbv zeta in Hloop.
  cbn [withWorker worker setProcessing queue].
  destruct (whileLoop (queue (worker s)) (withWorker (setProcessing true) s))
    as [s' t] eqn:Hw.
  cbn [fst snd] in Hloop.
  destruct Hloop as (H1 & H2 & H3 & H4 & H5 & H6 & H7).
  cbn [withWorker worker setProcessing tasks accepted shutdown throttle transport processing]
    in H1, H2, H3, H4, H7.
  rewrite Htasks in H1. rewrite Htasks in Hfifo. cbn [waiting flat_map app] in Hfifo.
  assert (Hflag' : hasShutdown (queue (worker s')) = true -> shutdown (worker s') = true).
  { intros Hs. rewrite H3. auto. }
  assert (Hthr' : 0 <= throttle (worker s') <= MAX_THROTTLE) by (rewrite H4; exact Hthr).
  destruct t as [[p ms|p|]|].
  - destruct H7 as (Hp' & Htr & Hpay & _).
    split; [constructor|]; cbn [withTasks spawn worker tasks transport accepted];
      rewrite ?H1; cbn [app List.length waiting flat_map]; auto;
      try (rewrite Hp'; (reflexivity || discriminate)).
    rewrite Htr, H2, <- Hfifo, Hpay. reflexivity.
  - destruct H7 as (Hp' & Htr & Hpay & _).
    split; [constructor|]; cbn [withTasks spawn worker tasks transport accepted];
      rewrite ?H1; cbn [app List.length waiting flat_map]; auto;
      try (rewrite Hp'; (reflexivity || discriminate)).
    rewrite Htr, H2, <- Hfifo, Hpay, <- app_assoc. reflexivity.
  - contradiction.
  - destruct H7 as (Hp' & Htr & Hpay & Hpay').
    split; [constructor|]; cbn [withTasks spawn worker tasks transport accepted];
      rewrite ?H1; cbn [app List.length waiting flat_map]; auto;
      try (rewrite Hp'; (reflexivity || discriminate)).
    rewrite Htr, H2, <- Hfifo, Hpay, Hpay'. reflexivity.
Qed.

(** *** Every event preserves the invariant *)

Lemma no_marker_before_shutdown (s : System) :
  Consistent s -> shutdown (worker s) = false -> hasShutdown (queue (worker s)) = false.
Proof.
  intros Hc Hs. destruct (hasShutdown (queue (worker s))) eqn:E; [|reflexivity].
  apply (inv_flag s Hc) in E. congruence.
Qed.

Lemma push_invariant (notice : Notice) (s : System) :
  Invariant s -> Invariant (snd (push notice s)).
Proof.
  intros [Hc Hidle]. unfold push.
  destruct (shutdown (worker s)) eqn:Hs; [split; assumption|].
  destruct (Z.of_nat (List.length (queue (worker s))) >=? maxQueueSize config)%Z.
  { destruct Hc. split; [constructor|]; assumption. }
  cbn [snd]. apply processQueue_invariant.
  pose proof (no_marker_before_shutdown s Hc Hs) as Hno.
  destruct Hc as [Hsingle Hproc Hfifo Hbehind Hflag Hthr].
  constructor; cbn [recordAccepted withWorker enqueue setQueue worker tasks transport
                      accepted queue processing shutdown throttle]; auto.
  - rewrite payloads_app, !app_assoc. cbn [payloads]. rewrite <- Hfifo, !app_assoc.
    reflexivity.
  - apply markersBehindShutdown_enqueue; auto.
  - rewrite hasShutdown_app, Hno. cbn. discriminate.
Qed.

Lemma stop_invariant (promise : nat) (timeout : option Z) (s : System) :
  Invariant s -> Invariant (stop promise timeout s).
Proof.
  intros [Hc Hidle]. unfold stop.
  destruct (shutdown (worker s)) eqn:Hs.
  { destruct Hc. split; [constructor|]; assumption. }
  pose proof (no_marker_before_shutdown s Hc Hs) as Hno.
  destruct Hc as [Hsingle Hproc Hfifo Hbehind Hflag Hthr].
  split; [constructor|];
    cbn [setTimer startPolling withWorker enqueue setQueue setShutdown worker tasks
           transport accepted queue processing shutdown throttle]; auto.
  - rewrite payloads_app. cbn [payloads]. rewrite app_nil_r. exact Hfifo.
  - apply markersBehindShutdown_enqueue; auto.
  - intros Hp. rewrite payloads_app. cbn [payloads]. rewrite app_nil_r. auto.
Qed.

Lemma flush_invariant (promise : nat) (timeout : option Z) (s : System) :
  Invariant s -> Invariant (flush promise timeout s).
Proof.
  intros [Hc Hidle]. unfold flush.
  assert (Hpre : Consistent (withWorker (enqueue (FLUSH promise)) s)).
  { destruct Hc as [Hsingle Hproc Hfifo Hbehind Hflag Hthr].
    constructor; cbn [withWorker enqueue setQueue worker tasks transport
                        accepted queue processing shutdown throttle]; auto.
    - rewrite payloads_app. cbn [payloads]. rewrite app_nil_r. exact Hfifo.
    - apply markersBehindShutdown_enqueue; auto.
    - rewrite hasShutdown_app. cbn. rewrite orb_false_r. exact Hflag. }
  destruct (processQueue_invariant _ Hpre) as [[H1 H2 H3 H4 H5 H6] H7].
  split; [constructor|]; assumption.
Qed.

Lemma wake_invariant (k : nat) (p : NoticePayload) (ms : double A) (s : System) :
  Invariant s -> nth_error (tasks s) k = Some (Sleeping p ms) ->
  Invariant (wake k p s).
Proof.
  intros [Hc Hidle] Hnth.
  destruct (single_task s k _ (inv_single s Hc) Hnth) as [-> Htasks].
  destruct Hc as [Hsingle Hproc Hfifo Hbehind Hflag Hthr].
  rewrite Htasks in *.
  split; [constructor|];
    cbn [wake callSend withTasks replaceTask worker tasks transport accepted];
    rewrite ?Htasks; cbn [firstn skipn app List.length waiting flat_map]; auto.
  rewrite <- Hfifo, <- app_assoc. reflexivity.
Qed.

Lemma sendDone_invariant (k : nat) (p : NoticePayload) (result : option value)
    (s : System) :
  Invariant s -> nth_error (tasks s) k = Some (Sending p) ->
  Invariant (sendDone k result s).
Proof.
  intros [Hc Hidle] Hnth.
  destruct (single_task s k _ (inv_single s Hc) Hnth) as [-> Htasks].
  destruct Hc as [Hsingle Hproc Hfifo Hbehind Hflag Hthr].
  rewrite Htasks in *. unfold sendDone, MAX_THROTTLE in *.
  destruct result as [v|];
    (split; [constructor|];
     cbn [withTasks withWorker incThrottle decThrottle setThrottle replaceTask worker
            tasks transport accepted queue processing shutdown throttle];
     rewrite ?Htasks; cbn [firstn skipn app List.length waiting flat_map];
     auto; unfold MAX_THROTTLE; lia).
Qed.

Lemma resume_invariant (k : nat) (s : System) :
  Invariant s -> nth_error (tasks s) k = Some Returning ->
  Invariant (resume k s).
Proof.
  intros [Hc Hidle] Hnth.
  destruct (single_task s k _ (inv_single s Hc) Hnth) as [-> Htasks].
  destruct Hc as [Hsingle Hproc Hfifo Hbehind Hflag Hthr].
  rewrite Htasks in *. cbn [waiting flat_map app] in Hfifo.
  pose proof (whileLoop_spec (queue (worker s)) s eq_refl Hbehind) as Hloop.
  cbv zeta in Hloop. unfold resume.
  destruct (whileLoop (queue (worker s)) s) as [s' t] eqn:Hw.
  cbn [fst snd] in Hloop.
  destruct Hloop as (H1 & H2 & H3 & H4 & H5 & H6 & H7).
  rewrite Htasks in H1.
  assert (Hflag' : hasShutdown (queue (worker s')) = true -> shutdown (worker s') = true).
  { intros Hs. rewrite H3. auto. }
  assert (Hthr' : 0 <= throttle (worker s') <= MAX_THROTTLE) by (rewrite H4; exact Hthr).
  cbn [List.length Nat.eqb negb] in Hproc.
  destruct t as [[p ms|p|]|].
  - destruct H7 as (Hp' & Htr & Hpay & _). rewrite Hproc in Hp'.
    split; [constructor|]; cbn [withTasks replaceTask worker tasks transport accepted];
      rewrite ?H1; cbn [firstn skipn app List.length waiting flat_map]; auto;
      try (rewrite Hp'; (reflexivity || discriminate)).
    rewrite Htr, H2, <- Hfifo, Hpay. reflexivity.
  - destruct H7 as (Hp' & Htr & Hpay & _). rewrite Hproc in Hp'.
    split; [constructor|]; cbn [withTasks replaceTask worker tasks transport accepted];
      rewrite ?H1; cbn [firstn skipn app List.length waiting flat_map]; auto;
      try (rewrite Hp'; (reflexivity || discriminate)).
    rewrite Htr, H2, <- Hfifo, Hpay, <- app_assoc. reflexivity.
  - contradiction.
  - destruct H7 as (Hp' & Htr & Hpay & Hpay').
    split; [constructor|]; cbn [withTasks replaceTask worker tasks transport accepted];
      rewrite ?H1; cbn [firstn skipn app List.length waiting flat_map]; auto;
      try (rewrite Hp'; (reflexivity || discriminate)).
    rewrite Htr, H2, <- Hfifo, Hpay, Hpay'. reflexivity.
Qed.

Lemma step_invariant (e : Event) (s : System) :
  Invariant s -> Invariant (step e s).
Proof.
  intros Hinv. destruct e as [n|pr t|pr t|k|k r|k|pr|pr]; cbn [step].
  - now apply push_invariant.
  - now apply stop_invariant.
  - now apply flush_invariant.
  - destruct (nth_error (tasks s) k) as [[p ms|p|]|] eqn:E; auto.
    eapply wake_invariant; eauto.
  - destruct (nth_error (tasks s) k) as [[p ms|p|]|] eqn:E; auto.
    eapply sendDone_invariant; eauto.
  - destruct (nth_error (tasks s) k) as [[p ms|p|]|] eqn:E; auto.
    eapply resume_invariant; eauto.
  - destruct (hasTimer pr s); auto.
    destruct Hinv as [[H1 H2 H3 H4 H5 H6] H7]. split; [constructor|]; assumption.
  - destruct (isPolling pr s && drained (worker s)); auto.
    destruct Hinv as [[H1 H2 H3 H4 H5 H6] H7]. split; [constructor|]; assumption.
Qed.

Lemma run_invariant (events : list Event) (s : System) :
  Invariant s -> Invariant (run events s).
Proof.
  revert s. induction events as [|e events IH]; intros s Hinv; [exact Hinv|].
  simpl. apply IH. now apply step_invariant.
Qed.

(** *** What the loop leaves untouched *)

Lemma whileLoop_frame (q : list QueueItem) :
  forall s : System,
    let s' := fst (whileLoop q s) in
    shutdown (worker s') = shutdown (worker s) /\
    timers s' = timers s /\
    polling s' = polling s /\
    warnings s' = warnings s /\
    (forall promise, In promise (settled s) -> In promise (settled s')).
Proof.
  induction q as [|[p| |r] rest IH]; intros s; cbn [whileLoop].
  - simpl. auto.
  - unfold sendWithThrottle. cbn [withWorker worker setQueue throttle].
    destruct (throttle (worker s) >? 0)%Z; simpl; auto.
  - simpl. auto.
  - specialize (IH (resolve r (withWorker (setQueue rest) s))). cbv zeta in IH.
    destruct IH as (H1 & H2 & H3 & H4 & H5). simpl in H1, H2, H3, H4.
    repeat split; auto.
    intros promise Hin. apply H5. simpl. apply in_or_app. now left.
Qed.

Lemma processQueue_frame (s : System) :
  shutdown (worker (processQueue s)) = shutdown (worker s) /\
  timers (processQueue s) = timers s /\
  polling (processQueue s) = polling s /\
  warnings (processQueue s) = warnings s /\
  (forall promise, In promise (settled s) -> In promise (settled (processQueue s))).
Proof.
  unfold processQueue.
  destruct (processing (worker s) || (Z.of_nat (List.length (queue (worker s))) =? 0)%Z);
    [auto|].
  pose proof (whileLoop_frame (queue (worker (withWorker (setProcessing true) s)))
                (withWorker (setProcessing true) s)) as H.
  cbv zeta in H.
  destruct (whileLoop (queue (worker (withWorker (setProcessing true) s)))
              (withWorker (setProcessing true) s)) as [s' t].
  cbn [fst] in H. destruct H as (H1 & H2 & H3 & H4 & H5).
  simpl in H1, H2, H3, H4, H5. repeat split; auto.
Qed.

Lemma resume_frame (k : nat) (s : System) :
  shutdown (worker (resume k s)) = shutdown (worker s) /\
  timers (resume k s) = timers s /\
  polling (resume k s) = polling s /\
  warnings (resume k s) = warnings s /\
  (forall promise, In promise (settled s) -> In promise (settled (resume k s))).
Proof.
  unfold resume. pose proof (whileLoop_frame (queue (worker s)) s) as H.
  cbv zeta in H. destruct (whileLoop (queue (worker s)) s) as [s' t].
  cbn [fst] in H. destruct H as (H1 & H2 & H3 & H4 & H5). repeat split; auto.
Qed.

(** Once shutdown has begun it stays so. *)
Lemma shutdown_step (e : Event) (s : System) :
  shutdown (worker s) = true -> shutdown (worker (step e s)) = true.
Proof.
  intros Hs. destruct e as [n|pr t|pr t|k|k r|k|pr|pr]; cbn [step].
  - unfold push. rewrite Hs. exact Hs.
  - unfold stop. rewrite Hs. exact Hs.
  - unfold flush. cbn [setTimer worker].
    destruct (processQueue_frame (withWorker (enqueue (FLUSH pr)) s)) as (H & _).
    rewrite H. exact Hs.
  - destruct (nth_error (tasks s) k) as [[p ms|p|]|]; auto.
  - destruct (nth_error (tasks s) k) as [[p ms|p|]|]; auto.
    destruct r; exact Hs.
  - destruct (nth_error (tasks s) k) as [[p ms|p|]|]; auto.
    destruct (resume_frame k s) as (H & _). rewrite H. exact Hs.
  - destruct (hasTimer pr s); auto.
  - destruct (isPolling pr s && drained (worker s)); auto.
Qed.

Lemma shutdown_run (events : list Event) (s : System) :
  shutdown (worker s) = true -> shutdown (worker (run events s)) = true.
Proof.
  revert s. induction events as [|e events IH]; intros s Hs; [exact Hs|].
  simpl. apply IH. now apply shutdown_step.
Qed.

Lemma shutdown_stop (promise : nat) (timeout : option Z) (s : System) :
  shutdown (worker (stop promise timeout s)) = true.
Proof. unfold stop. destruct (shutdown (worker s)) eqn:E; [exact E | reflexivity]. Qed.

(** A resolved promise stays resolved. *)
Lemma settled_step (e : Event) (s : System) (promise : nat) :
  In promise (settled s) -> In promise (settled (step e s)).
Proof.
  intros Hin. destruct e as [n|pr t|pr t|k|k r|k|pr|pr]; cbn [step].
  - unfold push. destruct (shutdown (worker s)); [exact Hin|].
    destruct (Z.of_nat (List.length (queue (worker s))) >=? maxQueueSize config)%Z;
      [exact Hin|].
    cbn [snd]. apply processQueue_frame. exact Hin.
  - unfold stop. destruct (shutdown (worker s)); simpl; auto using in_or_app.
  - unfold flush. cbn [setTimer settled]. apply processQueue_frame. exact Hin.
  - destruct (nth_error (tasks s) k) as [[p ms|p|]|]; auto.
  - destruct (nth_error (tasks s) k) as [[p ms|p|]|]; auto.
    destruct r; exact Hin.
  - destruct (nth_error (tasks s) k) as [[p ms|p|]|]; auto.
    apply resume_frame. exact Hin.
  - destruct (hasTimer pr s); simpl; auto using in_or_app.
  - destruct (isPolling pr s && drained (worker s)); simpl; auto using in_or_app.
Qed.

Lemma hasTimer_app (promise : nat) (s : System) (l : list (nat * Z)) :
  existsb (fun t => Nat.eqb (fst t) promise) (timers s ++ l) =
  hasTimer promise s || existsb (fun t => Nat.eqb (fst t) promise) l.
Proof. unfold hasTimer. apply existsb_app. Qed.

(** A pending timer stays pending until it fires, and firing it
    resolves its promise. *)
Lemma timer_step (e : Event) (s : System) (promise : nat) :
  hasTimer promise s = true ->
  hasTimer promise (step e s) = true \/ In promise (settled (step e s)).
Proof.
  intros Ht. destruct e as [n|pr t|pr t|k|k r|k|pr|pr]; cbn [step].
  - left. unfold push. destruct (shutdown (worker s)); [exact Ht|].
    destruct (Z.of_nat (List.length (queue (worker s))) >=? maxQueueSize config)%Z;
      [exact Ht|].
    cbn [snd]. unfold hasTimer in *.
    destruct (processQueue_frame
                (recordAccepted (toPayload VERSION process_version n)
                   (withWorker (enqueue (Payload (toPayload VERSION process_version n))) s)))
      as (_ & H & _).
    rewrite H. exact Ht.
  - left. unfold stop. destruct (shutdown (worker s)); [exact Ht|].
    unfold hasTimer in *. cbn [setTimer timers startPolling withWorker].
    rewrite existsb_app, Ht. reflexivity.
  - left. unfold flush, hasTimer in *. cbn [setTimer timers].
    destruct (processQueue_frame (withWorker (enqueue (FLUSH pr)) s)) as (_ & H & _).
    rewrite H. cbn [withWorker timers]. rewrite existsb_app, Ht. reflexivity.
  - left. destruct (nth_error (tasks s) k) as [[p ms|p|]|]; auto.
  - left. destruct (nth_error (tasks s) k) as [[p ms|p|]|]; auto.
    destruct r; exact Ht.
  - left. destruct (nth_error (tasks s) k) as [[p ms|p|]|]; auto.
    unfold hasTimer in *. destruct (resume_frame k s) as (_ & H & _).
    rewrite H. exact Ht.
  - destruct (hasTimer pr s) eqn:Hpr; [|left; exact Ht].
    destruct (Nat.eqb_spec pr promise) as [->|Hne].
    + right. simpl. apply in_or_app. right. now left.
    + left. unfold hasTimer in *. cbn [resolve clearTimer timers].
      apply existsb_exists in Ht. destruct Ht as ([id ms] & Hin & Heq).
      apply existsb_exists. exists (id, ms). split; [|exact Heq].
      apply filter_In. split; [exact Hin|].
      simpl in Heq |- *. apply Nat.eqb_eq in Heq. subst id.
      destruct (Nat.eqb_spec promise pr); [congruence | reflexivity].
  - left. destruct (isPolling pr s && drained (worker s)); auto.
Qed.

Lemma timeout_settles (s : System) (promise : nat) :
  hasTimer promise s = true \/ In promise (settled s) ->
  In promise (settled (step (Timeout promise) s)).
Proof.
  intros [Ht|Hin]; [|now apply settled_step].
  cbn [step]. rewrite Ht. simpl. apply in_or_app. right. now left.
Qed.

(** Whatever happens after a timer is set, its timeout resolves the
    promise, if it is not resolved before. *)
Lemma timer_run (events : list Event) (s : System) (promise : nat) :
  hasTimer promise s = true \/ In promise (settled s) ->
  In promise (settled (step (Timeout promise) (run events s))).
Proof.
  intros H. apply timeout_settles.
  revert s H. induction events as [|e events IH]; intros s H; [exact H|].
  simpl. apply IH. destruct H as [H|H].
  - apply (timer_step e) in H. exact H.
  - right. now apply settled_step.
Qed.

(** *** [push] *)

Lemma whileLoop_accepted (q : list QueueItem) :
  forall s : System, accepted (fst (whileLoop q s)) = accepted s.
Proof.
  induction q as [|[p| |r] rest IH]; intros s; cbn [whileLoop]; try reflexivity.
  - unfold sendWithThrottle. cbn [withWorker worker setQueue throttle].
    destruct (throttle (worker s) >? 0)%Z; reflexivity.
  - rewrite IH. reflexivity.
Qed.

Lemma processQueue_accepted (s : System) :
  accepted (processQueue s) = accepted s.
Proof.
  unfold processQueue.
  destruct (processing (worker s) || (Z.of_nat (List.length (queue (worker s))) =? 0)%Z);
    [reflexivity|].
  pose proof (whileLoop_accepted (queue (worker (withWorker (setProcessing true) s)))
                (withWorker (setProcessing true) s)) as H.
  destruct (whileLoop (queue (worker (withWorker (setProcessing true) s)))
              (withWorker (setProcessing true) s)) as [s' t].
  exact H.
Qed.

(** A push on an idle worker starts the drain loop, which takes the
    payload at once: it is sent, or waits for the throttle sleep. *)
Lemma push_starts_drain (notice : Notice) (s : System) :
  Invariant s ->
  fst (push notice s) = true ->
  processing (worker s) = false ->
  let payload := toPayload VERSION process_version notice in
  let s' := snd (push notice s) in
  processing (worker s') = true /\
  payloads (queue (worker s')) = [] /\
  ((tasks s' = [Sending payload] /\ transport s' = transport s ++ [payload]) \/
   (exists ms, tasks s' = [Sleeping payload ms] /\ transport s' = transport s)).
Proof.
  intros [Hc Hidle] Hres Hp payload s'. subst s'. revert Hres. unfold push.
  destruct (shutdown (worker s)) eqn:Hs; [discriminate|].
  destruct (Z.of_nat (List.length (queue (worker s))) >=? maxQueueSize config)%Z;
    [discriminate|].
  intros _. cbn [snd]. fold payload.
  pose proof (no_marker_before_shutdown s Hc Hs) as Hno.
  assert (Htasks : tasks s = []).
  { pose proof (inv_processing s Hc) as H. rewrite Hp in H.
    destruct (tasks s); [reflexivity | discriminate]. }
  unfold processQueue.
  cbn [recordAccepted withWorker enqueue setQueue setProcessing worker queue processing].
  rewrite Hp. cbn [orb].
  replace (Z.of_nat (List.length (queue (worker s) ++ [Payload payload])) =? 0)%Z
    with false
    by (symmetry; apply Z.eqb_neq; rewrite length_app; simpl List.length; lia).
  set (s1 := withWorker (setProcessing true)
               (recordAccepted payload (withWorker (enqueue (Payload payload)) s))).
  pose proof (whileLoop_spec (queue (worker s1)) s1 eq_refl) as Hloop.
  assert (Hb : markersBehindShutdown (queue (worker s1))).
  { apply markersBehindShutdown_enqueue; [apply (inv_behind s Hc) | now left]. }
  specialize (Hloop Hb). cbv zeta in Hloop.
  change (queue (worker s1)) with (queue (worker s) ++ [Payload payload]) in *.
  destruct (whileLoop (queue (worker s) ++ [Payload payload]) s1) as [s2 t].
  cbn [fst snd] in Hloop.
  destruct Hloop as (H1 & _ & _ & _ & _ & _ & H7).
  change (tasks s1) with (tasks s) in H1. rewrite Htasks in H1.
  rewrite payloads_app, (Hidle Hp) in H7. cbn [payloads app] in H7.
  change (processing (worker s1)) with true in H7.
  change (transport s1) with (transport s) in H7.
  cbn [withTasks worker tasks transport]. rewrite H1.
  destruct t as [[p ms|p|]|]; cbn [spawn app].
  - destruct H7 as (Hp' & Htr & Hpay & _). inversion Hpay; subst p.
    repeat split; auto. right. exists ms. auto.
  - destruct H7 as (Hp' & Htr & Hpay & _). inversion Hpay; subst p.
    repeat split; auto.
  - contradiction.
  - destruct H7 as (_ & _ & Hpay & _). discriminate.
Qed.

(** C9.  [push] returns [false] and leaves the worker, its tasks and
    what has been sent and accepted as they are whenever shutdown has
    begun or the queue holds at least [maxQueueSize] items.  Otherwise
    it returns [true], having appended the payload of the notice and
    called [processQueue]: on a busy worker the payload is only
    appended; on an idle one the drain loop starts.  After [stop],
    whatever happens next, [push] returns [false] and changes nothing.
    [maxQueueSize] is 1000 when not configured. *)
Theorem push_contract (notice : Notice) (s : System) :
  let payload := toPayload VERSION process_version notice in
  let result := push notice s in
  (shutdown (worker s) = true \/ maxQueueSize config <= queueSize (worker s) ->
   fst result = false /\
   worker (snd result) = worker s /\ tasks (snd result) = tasks s /\
   transport (snd result) = transport s /\ accepted (snd result) = accepted s) /\
  (shutdown (worker s) = false /\ queueSize (worker s) < maxQueueSize config ->
   fst result = true /\
   snd result =
     processQueue (recordAccepted payload (withWorker (enqueue (Payload payload)) s)) /\
   accepted (snd result) = accepted s ++ [payload] /\
   (processing (worker s) = true ->
    queue (worker (snd result)) = queue (worker s) ++ [Payload payload] /\
    tasks (snd result) = tasks s /\ transport (snd result) = transport s) /\
   (Invariant s -> processing (worker s) = false ->
    processing (worker (snd result)) = true /\ tasks (snd result) <> [])) /\
  (forall promise t events,
     let stopped := run events (stop promise t s) in
     fst (push notice stopped) = false /\ snd (push notice stopped) = stopped /\
     queueSize (worker (snd (push notice stopped))) = queueSize (worker stopped)) /\
  (forall env cwd options,
     options_maxQueueSize options = None ->
     maxQueueSize (Configuration.new env cwd options) = 1000).
Proof.
  intros payload result. subst result. unfold queueSize.
  split; [|split; [|split]].
  - intros H. unfold push. destruct (shutdown (worker s)) eqn:Hs; [auto|].
    destruct H as [H|H]; [discriminate|].
    destruct (Z.geb_spec (Z.of_nat (List.length (queue (worker s)))) (maxQueueSize config));
      [|lia].
    simpl. auto.
  - intros [Hs Hlt].
    assert (E : push notice s =
                (true, processQueue (recordAccepted payload
                                       (withWorker (enqueue (Payload payload)) s)))).
    { unfold push. rewrite Hs.
      destruct (Z.geb_spec (Z.of_nat (List.length (queue (worker s)))) (maxQueueSize config));
        [lia | reflexivity]. }
    split; [rewrite E; reflexivity|].
    split; [rewrite E; reflexivity|].
    split; [rewrite E; cbn [snd]; rewrite processQueue_accepted; reflexivity|].
    split.
    + intros Hp. rewrite E. cbn [snd]. rewrite processQueue_busy; [auto | exact Hp].
    + intros Hinv Hp.
      destruct (push_starts_drain notice s Hinv) as (H1 & _ & H3);
        [rewrite E; reflexivity | exact Hp |].
      split; [exact H1|].
      destruct H3 as [(H3 & _)|(ms & H3 & _)]; rewrite H3; discriminate.
  - intros promise t events.
    assert (Hs : shutdown (worker (run events (stop promise t s))) = true)
      by (apply shutdown_run, shutdown_stop).
    unfold push. rewrite Hs. auto.
  - intros env cwd options H. simpl. rewrite H. reflexivity.
Qed.

(** *** [stop] and [flush] *)

(** A flush marker the loop goes past has had its promise resolved. *)
Lemma whileLoop_markers (q : list QueueItem) :
  forall (s : System) (promise : nat),
    In (FLUSH promise) q ->
    q = [] \/
    In (FLUSH promise) (queue (worker (fst (whileLoop q s)))) \/
    In promise (settled (fst (whileLoop q s))).
Proof.
  induction q as [|[p| |r] rest IH]; intros s promise Hin; [now left|right..].
  - cbn [whileLoop]. unfold sendWithThrottle. cbn [withWorker worker setQueue throttle].
    destruct Hin as [Hin|Hin]; [discriminate|].
    destruct (throttle (worker s) >? 0)%Z; left; exact Hin.
  - destruct Hin as [Hin|Hin]; [discriminate|]. left. exact Hin.
  - cbn [whileLoop]. destruct Hin as [Hin|Hin].
    + inversion Hin; subst r. right.
      apply (whileLoop_frame rest (resolve promise (withWorker (setQueue rest) s))).
      simpl. apply in_or_app. right. now left.
    + destruct (IH (resolve r (withWorker (setQueue rest) s)) promise Hin)
        as [->|H]; [|exact H].
      contradiction.
Qed.

Lemma flush_marker (promise : nat) (t : option Z) (s : System) :
  In (FLUSH promise) (queue (worker (flush promise t s))) \/
  In promise (settled (flush promise t s)).
Proof.
  unfold flush. cbn [setTimer worker settled]. unfold processQueue.
  cbn [withWorker enqueue setQueue setProcessing worker queue processing].
  destruct (processing (worker s) ||
            (Z.of_nat (List.length (queue (worker s) ++ [FLUSH promise])) =? 0)%Z).
  - left. simpl. apply in_or_app. right. now left.
  - set (s1 := withWorker (setProcessing true) (withWorker (enqueue (FLUSH promise)) s)).
    destruct (whileLoop_markers (queue (worker s) ++ [FLUSH promise]) s1 promise)
      as [H|H].
    + apply in_or_app. right. now left.
    + destruct (queue (worker s)); discriminate.
    + destruct (whileLoop (queue (worker s) ++ [FLUSH promise]) s1) as [s2 t2].
      exact H.
Qed.

(** C10.  [stop] and [flush] never look at the length of the queue.
    When shutdown has not begun, [stop] marks it and appends its
    shutdown marker; when it has, [stop] returns at once, the worker
    unchanged.  [flush] appends its flush marker, shutdown begun or
    not, and calls [processQueue]: on a busy worker the marker is
    appended and nothing else; in every case the marker is in the
    queue or its promise is resolved.  The promises of [stop] and of
    [flush] are resolved at the latest when their timeout fires,
    whatever happens before. *)
Theorem markers_bypass_capacity (promise : nat) (t : option Z) (s : System) :
  (shutdown (worker s) = false ->
   queue (worker (stop promise t s)) = queue (worker s) ++ [SHUTDOWN] /\
   shutdown (worker (stop promise t s)) = true) /\
  (shutdown (worker s) = true ->
   worker (stop promise t s) = worker s /\
   In promise (settled (stop promise t s))) /\
  flush promise t s =
    setTimer promise (nullish t (timeout config) * 1000)
      (processQueue (withWorker (enqueue (FLUSH promise)) s)) /\
  (processing (worker s) = true ->
   queue (worker (flush promise t s)) = queue (worker s) ++ [FLUSH promise]) /\
  (In (FLUSH promise) (queue (worker (flush promise t s))) \/
   In promise (settled (flush promise t s))) /\
  (forall events,
     In promise (settled (step (Timeout promise) (run events (stop promise t s))))) /\
  (forall events,
     In promise (settled (step (Timeout promise) (run events (flush promise t s))))).
Proof.
  split; [|split; [|split; [|split; [|split; [|split]]]]].
  - intros Hs. unfold stop. rewrite Hs. split; reflexivity.
  - intros Hs. unfold stop. rewrite Hs. split; [reflexivity|].
    simpl. apply in_or_app. right. now left.
  - reflexivity.
  - intros Hp. unfold flush. cbn [setTimer worker].
    rewrite processQueue_busy; [reflexivity | exact Hp].
  - apply flush_marker.
  - intros events. apply timer_run. unfold stop.
    destruct (shutdown (worker s)).
    + right. simpl. apply in_or_app. right. now left.
    + left. unfold hasTimer. cbn [setTimer timers]. rewrite existsb_app.
      simpl. rewrite Nat.eqb_refl. apply orb_true_r.
  - intros events. apply timer_run. left. unfold flush, hasTimer.
    cbn [setTimer timers]. rewrite existsb_app. simpl. rewrite Nat.eqb_refl.
    apply orb_true_r.
Qed.

(** *** The throttle *)

Lemma incThrottle_iter (n : nat) (w : Worker) :
  0 <= throttle w <= MAX_THROTTLE ->
  throttle (Nat.iter n incThrottle w) = Z.min (throttle w + Z.of_nat n) MAX_THROTTLE.
Proof.
  intros H. induction n as [|n IH].
  - simpl. lia.
  - change (Nat.iter (S n) incThrottle w) with (incThrottle (Nat.iter n incThrottle w)).
    unfold incThrottle at 1. cbn [setThrottle throttle].
    rewrite IH. unfold MAX_THROTTLE in *. lia.
Qed.


(** *** The drain loop runs to completion *)

(** The resumption the drain task waits for, if there is a task;
    [result] is what a send in flight completes with. *)
Definition nextEvent (result : option value) (s : System) : option Event :=
  match tasks s with
  | Sleeping _ _ :: _ => Some (Wake 0)
  | Sending _ :: _ => Some (SendDone 0 result)
  | Returning :: _ => Some (Resume 0)
  | [] => None
  end.

(** The drain task resumed up to [fuel] times, with no other event in
    between; the send number [n] completes with [results n]. *)
Fixpoint drain (results : nat -> option value) (fuel : nat) (s : System) : System :=
  match fuel with
  | O => s
  | S fuel' =>
      match nextEvent (results (List.length (transport s))) s with
      | Some e => drain results fuel' (step e s)
      | None => s
      end
  end.

Definition phase (ts : list Task) : nat :=
  match ts with
  | Sleeping _ _ :: _ => 3
  | Sending _ :: _ => 2
  | Returning :: _ => 1
  | [] => 0
  end.

(** A bound on the number of resumptions left: three for each payload
    in the queue, and those of the task at hand. *)
Definition weight (s : System) : nat :=
  3 * List.length (payloads (queue (worker s))) + phase (tasks s).

Definition isResumption (e : Event) : Prop :=
  match e with
  | Wake _ | SendDone _ _ | Resume _ => True
  | _ => False
  end.

Lemma nextEvent_resumption (result : option value) (s : System) (e : Event) :
  nextEvent result s = Some e -> isResumption e.
Proof.
  unfold nextEvent. destruct (tasks s) as [|[p ms|p|] ts]; intros [= <-]; exact I.
Qed.

Lemma nextEvent_step (result : option value) (s : System) (e : Event) :
  Invariant s ->
  nextEvent result s = Some e ->
  (weight (step e s) < weight s)%nat /\ accepted (step e s) = accepted s.
Proof.
  intros [Hc Hidle] He. unfold nextEvent in He.
  pose proof (inv_single s Hc) as Hlen.
  destruct (tasks s) as [|t [|t' ts]] eqn:Htasks; [discriminate| |simpl in Hlen; lia].
  destruct t as [p ms|p|]; inversion He; subst e; cbn [step]; rewrite Htasks;
    cbn [nth_error].
  - unfold weight, wake, replaceTask.
    cbn [callSend withTasks worker tasks accepted].
    rewrite !Htasks. cbn [firstn skipn app phase]. split; [lia | reflexivity].
  - unfold weight, sendDone, replaceTask.
    destruct result;
      cbn [withTasks withWorker incThrottle decThrottle setThrottle
             worker tasks accepted queue];
      rewrite !Htasks; cbn [firstn skipn app phase]; split; (lia || reflexivity).
  - pose proof (whileLoop_spec (queue (worker s)) s eq_refl (inv_behind s Hc)) as Hloop.
    cbv zeta in Hloop. unfold resume, weight.
    destruct (whileLoop (queue (worker s)) s) as [s' t] eqn:Hw.
    cbn [fst snd] in Hloop. destruct Hloop as (H1 & H2 & _ & _ & _ & _ & H7).
    unfold replaceTask.
    cbn [withTasks worker tasks accepted]. rewrite !H1, !Htasks.
    cbn [firstn skipn app phase].
    destruct t as [[p ms|p|]|].
    + destruct H7 as (_ & _ & Hpay & _). rewrite Hpay. simpl. split; [lia | exact H2].
    + destruct H7 as (_ & _ & Hpay & _). rewrite Hpay. simpl. split; [lia | exact H2].
    + contradiction.
    + destruct H7 as (_ & _ & Hpay & Hpay'). rewrite Hpay, Hpay'. simpl.
      split; [lia | exact H2].
Qed.

(** With fuel for [weight s] resumptions the loop has run to its exit,
    and every accepted payload has been handed to the transport. *)
Lemma drain_completes (results : nat -> option value) (fuel : nat) :
  forall s : System,
    Invariant s -> (weight s <= fuel)%nat ->
    let s' := drain results fuel s in
    Invariant s' /\ tasks s' = [] /\ accepted s' = accepted s /\
    exists resumptions, Forall isResumption resumptions /\ s' = run resumptions s.
Proof.
  induction fuel as [|fuel IH]; intros s Hinv Hw; cbn [drain].
  - split; [exact Hinv|]. split; [|split; [reflexivity|exists []; split; [constructor | reflexivity]]].
    unfold weight in Hw. destruct (tasks s) as [|[p ms|p|] ts]; simpl in Hw; (reflexivity || lia).
  - destruct (nextEvent (results (List.length (transport s))) s) as [e|] eqn:He.
    + destruct (nextEvent_step _ s e Hinv He) as (Hlt & Hacc).
      destruct (IH (step e s) (step_invariant e s Hinv)) as (H1 & H2 & H3 & evs & H4 & H5);
        [lia|].
      split; [exact H1|]. split; [exact H2|]. split; [congruence|].
      exists (e :: evs). split; [|exact H5].
      constructor; [eapply nextEvent_resumption; eauto | exact H4].
    + split; [exact Hinv|]. split; [|split; [reflexivity|exists []; split; [constructor | reflexivity]]].
      unfold nextEvent in He. destruct (tasks s) as [|[p ms|p|] ts]; (reflexivity || discriminate).
Qed.

(** An idle worker has handed every accepted payload to the transport. *)
Lemma idle_all_sent (s : System) :
  Invariant s -> tasks s = [] -> transport s = accepted s.
Proof.
  intros [Hc Hidle] Htasks. pose proof (inv_fifo s Hc) as Hfifo.
  pose proof (inv_processing s Hc) as Hp. rewrite Htasks in *.
  simpl in Hp. rewrite (Hidle Hp) in Hfifo. simpl in Hfifo.
  now rewrite app_nil_r in Hfifo.
Qed.

(** While a send is in flight no event pops the queue or calls the
    transport. *)
Lemma sending_blocks (s : System) (p : NoticePayload) (e : Event) :
  Invariant s -> In (Sending p) (tasks s) ->
  exists added,
    queue (worker (step e s)) = queue (worker s) ++ added /\
    transport (step e s) = transport s.
Proof.
  intros [Hc Hidle] Hin.
  pose proof (inv_single s Hc) as Hlen. pose proof (inv_processing s Hc) as Hp.
  destruct (tasks s) as [|t [|t' ts]] eqn:Htasks; [contradiction| |simpl in Hlen; lia].
  destruct Hin as [->|[]]. simpl in Hp.
  destruct e as [n|pr t|pr t|k|k r|k|pr|pr]; cbn [step].
  - unfold push. destruct (shutdown (worker s)); [exists []; now rewrite app_nil_r|].
    destruct (Z.of_nat (List.length (queue (worker s))) >=? maxQueueSize config)%Z;
      [exists []; now rewrite app_nil_r|].
    cbn [snd]. rewrite processQueue_busy by exact Hp. eexists. split; reflexivity.
  - unfold stop. destruct (shutdown (worker s)); [exists []; now rewrite app_nil_r|].
    eexists. split; reflexivity.
  - unfold flush. cbn [setTimer worker transport].
    rewrite processQueue_busy by exact Hp. eexists. split; reflexivity.
  - rewrite Htasks. destruct k as [|[|k]]; exists []; now rewrite app_nil_r.
  - rewrite Htasks. destruct k as [|[|k]]; cbn [nth_error];
      try (exists []; now rewrite app_nil_r).
    exists []. unfold sendDone. destruct r; now rewrite app_nil_r.
  - rewrite Htasks. destruct k as [|[|k]]; exists []; now rewrite app_nil_r.
  - destruct (hasTimer pr s); exists []; now rewrite app_nil_r.
  - destruct (isPolling pr s && drained (worker s)); exists []; now rewrite app_nil_r.
Qed.

(** The loop that finds the shutdown marker at the front of the queue
    ends there: the items behind the marker stay in the queue, nothing
    is sent, and no task is left. *)
Lemma resume_at_shutdown (s : System) (k : nat) (rest : list QueueItem) :
  Invariant s ->
  nth_error (tasks s) k = Some Returning ->
  queue (worker s) = SHUTDOWN :: rest ->
  let s' := step (Resume k) s in
  tasks s' = [] /\ processing (worker s') = false /\
  queue (worker s') = rest /\ transport s' = transport s /\
  payloads rest = [].
Proof.
  intros [Hc Hidle] Hnth Hq.
  destruct (single_task s k _ (inv_single s Hc) Hnth) as [-> Htasks].
  pose proof (inv_behind s Hc) as Hb. rewrite Hq in Hb. simpl in Hb.
  cbn [step]. rewrite Hnth. unfold resume. rewrite Hq. cbn [whileLoop].
  cbn [withTasks withWorker setProcessing setQueue worker tasks transport queue processing].
  rewrite Htasks. repeat split; auto.
Qed.

(** Only an accepted [push] adds to the accepted payloads. *)
Lemma accepted_step (e : Event) (s : System) :
  accepted (step e s) =
  accepted s ++
  match e with
  | Push notice =>
      if fst (push notice s) then [toPayload VERSION process_version notice] else []
  | _ => []
  end.
Proof.
  destruct e as [n|pr t|pr t|k|k r|k|pr|pr]; cbn [step]; rewrite ?app_nil_r.
  - unfold push. destruct (shutdown (worker s)); [now rewrite app_nil_r|].
    destruct (Z.of_nat (List.length (queue (worker s))) >=? maxQueueSize config)%Z;
      [now rewrite app_nil_r|].
    cbn [fst snd]. now rewrite processQueue_accepted.
  - unfold stop. destruct (shutdown (worker s)); reflexivity.
  - unfold flush. cbn [setTimer accepted]. now rewrite processQueue_accepted.
  - destruct (nth_error (tasks s) k) as [[p ms|p|]|]; reflexivity.
  - destruct (nth_error (tasks s) k) as [[p ms|p|]|]; try reflexivity.
    destruct r; reflexivity.
  - destruct (nth_error (tasks s) k) as [[p ms|p|]|]; try reflexivity.
    unfold resume. pose proof (whileLoop_accepted (queue (worker s)) s) as H.
    destruct (whileLoop (queue (worker s)) s) as [s' t]. exact H.
  - destruct (hasTimer pr s); reflexivity.
  - destruct (isPolling pr s && drained (worker s)); reflexivity.
Qed.


End Machine.

(** *** A concrete worker *)

(** Arithmetic on exact rationals, standing for the doubles. *)
Definition exact : Arithmetic :=
  {| double := QArith_base.Q;
     ofZ := QArith_base.inject_Z;
     ofDecimal := fun m d =>
       QArith_base.Qdiv (QArith_base.inject_Z m) (QArith_base.inject_Z (10 ^ d));
     sub := QArith_base.Qminus;
     mul := QArith_base.Qmult;
     Math_pow := fun x y => QArith_base.Qpower x (Qround.Qfloor y);
     Math_round := fun x =>
       QArith_base.inject_Z
         (Qround.Qfloor (QArith_base.Qplus x (QArith_base.Qmake 1 2))) |}.

(** Exact arithmetic is accurate. *)
Section Exact.
Import QArith Qround Lqa.
Local Open Scope Q_scope.

Lemma near_same (x y : Q) : x == y -> near x y.
Proof. intros E. unfold near, ERROR. rewrite E. split; lra. Qed.

Definition exact_accurate : Accurate exact.
Proof.
  refine {| valueOf := fun x : double exact => (x : Q) |}.
  - intros n _. reflexivity.
  - intros n _. apply near_same. cbn [exact Math_pow ofDecimal ofZ].
    rewrite Qfloor_Z.
    apply Qpower_comp; reflexivity.
  - intros x y _. apply near_same. reflexivity.
  - intros x y _. apply near_same. reflexivity.
  - intros x. reflexivity.
Defined.

End Exact.

Definition small_config : Configuration :=
  Configuration.new (fun _ => None) "/app"
    {| options_apiKey := "test-key";
       options_endpoint := None;
       options_timeout := None;
       options_beforeNotify := None;
       options_maxQueueSize := Some 2;
       options_shutdownTimeout := None;
       options_rootPath := None |}.

Definition notice_of (message : string) : Notice :=
  {| errorClass := "Error"; message := message; backtrace := [];
     fingerprint := None; tags := []; context := []; request := []; user := [];
     environment := None; occurredAt := "2024-01-01T00:00:00.000Z";
     appName := None; revision := None |}.

Definition payload_of (message : string) : NoticePayload :=
  toPayload "1.0.0" "v18.0.0" (notice_of message).

Definition sample_run (events : list Event) : System exact :=
  run exact "1.0.0" "v18.0.0" small_config events (new exact).

Definition ok : option value :=
  Some (VObject [("id", VNumber 1); ("problem_id", VNumber 1)]).

Example throttleDelay_level_1 :
  throttleDelay exact (setThrottle 1 (worker exact (new exact)))
  = QArith_base.inject_Z 50.
Proof. vm_compute. reflexivity. Qed.

Example throttleDelay_level_3 :
  throttleDelay exact (setThrottle 3 (worker exact (new exact)))
  = QArith_base.inject_Z 158.
Proof. vm_compute. reflexivity. Qed.

(** Two pushes, the first send fails: the second payload waits for
    the throttle sleep, then is sent. *)
Example two_pushes_one_failure :
  let s := sample_run [Push (notice_of "first"); Push (notice_of "second");
                       SendDone 0 None; Resume 0] in
  transport exact s = [payload_of "first"] /\
  tasks exact s = [Sleeping exact (payload_of "second") (QArith_base.inject_Z 50)] /\
  throttle (worker exact s) = 1 /\
  transport exact (step exact "1.0.0" "v18.0.0" small_config (Wake 0) s)
  = [payload_of "first"; payload_of "second"].
Proof. vm_compute. repeat split. Qed.

(** A third push while two payloads are queued is refused. *)
Example third_push_refused :
  let s := sample_run [Push (notice_of "first"); Push (notice_of "second");
                       Push (notice_of "third")] in
  fst (push exact "1.0.0" "v18.0.0" small_config (notice_of "fourth") s) = false /\
  payloads (queue (worker exact s)) = [payload_of "second"; payload_of "third"].
Proof. vm_compute. repeat split. Qed.

(** A flush marker queued behind the shutdown marker is left in the
    queue when the loop ends at the shutdown marker. *)
Example flush_behind_shutdown :
  let s := sample_run [Push (notice_of "first"); Stop 1 None; Flush 2 None;
                       SendDone 0 ok; Resume 0] in
  transport exact s = [payload_of "first"] /\
  tasks exact s = [] /\
  processing (worker exact s) = false /\
  queue (worker exact s) = [FLUSH 2] /\
  settled exact s = [].
Proof. vm_compute. repeat split. Qed.



Lemma push_contract_witness :
  let s := new exact in
  (shutdown (worker exact s) = false /\
   queueSize (worker exact s) < maxQueueSize small_config) /\
  fst (push exact "1.0.0" "v18.0.0" small_config (notice_of "first") s) = true /\
  fst (push exact "1.0.0" "v18.0.0" small_config (notice_of "second")
         (stop exact small_config 1 None s)) = false.
Proof.
  intros s.
  assert (H : shutdown (worker exact s) = false /\
              queueSize (worker exact s) < maxQueueSize small_config)
    by (split; reflexivity).
  split; [exact H|].
  destruct (push_contract exact "1.0.0" "v18.0.0" small_config (notice_of "first") s)
    as (_ & Hok & _).
  destruct (push_contract exact "1.0.0" "v18.0.0" small_config (notice_of "second") s)
    as (_ & _ & Hstop & _).
  split; [exact (proj1 (Hok H))|].
  exact (proj1 (Hstop 1%nat None [])).
Defined.

(** A worker whose queue is at capacity. *)
Definition full_worker : System exact :=
  sample_run [Push (notice_of "first"); Push (notice_of "second");
              Push (notice_of "third")].

Lemma markers_bypass_capacity_witness :
  maxQueueSize small_config <= queueSize (worker exact full_worker) /\
  shutdown (worker exact full_worker) = false /\
  queue (worker exact (stop exact small_config 1 None full_worker))
  = queue (worker exact full_worker) ++ [SHUTDOWN] /\
  queue (worker exact (flush exact small_config 2 None full_worker))
  = queue (worker exact full_worker) ++ [FLUSH 2].
Proof.
  assert (Hs : shutdown (worker exact full_worker) = false) by reflexivity.
  assert (Hp : processing (worker exact full_worker) = true) by reflexivity.
  split; [vm_compute; discriminate|]. split; [exact Hs|].
  destruct (markers_bypass_capacity exact "1.0.0" "v18.0.0" small_config 1 None full_worker)
    as (Hstop & _).
  destruct (markers_bypass_capacity exact "1.0.0" "v18.0.0" small_config 2 None full_worker)
    as (_ & _ & _ & Hflush & _).
  split; [exact (proj1 (Hstop Hs)) | exact (Hflush Hp)].
Defined.

(** A second [stop] appends no marker: shutdown has begun, and [stop]
    returns at once. *)
Lemma second_stop_appends_no_marker :
  let s := sample_run [Stop 1 None] in
  shutdown (worker exact s) = true /\
  queue (worker exact s) = [SHUTDOWN] /\
  queue (worker exact (stop exact small_config 2 None s)) = [SHUTDOWN] /\
  queue (worker exact (stop exact small_config 2 None s))
  <> queue (worker exact s) ++ [SHUTDOWN].
Proof. repeat split. simpl. discriminate. Qed.

End Worker.

(* ================================================================== *)
(** ** More on src/filters/sanitize.ts *)
(* ================================================================== *)

Module SanitizeFacts.
Import JSString JSValue RegExp Sanitize.

Local Open Scope list_scope.

(** *** Truncation *)

Lemma take_append_exact (a b : string) :
  take (String.length a) (a ++ b) = a.
Proof. induction a as [|c a IH]; simpl; [reflexivity | now rewrite IH]. Qed.

Lemma substring_prefix (s : string) (n : Z) :
  0 <= n <= strlen s -> substring s 0 n = take (Z.to_nat n) s.
Proof.
  intros H. unfold substring.
  replace (Z.min (Z.max 0 0) (strlen s)) with 0 by lia.
  replace (Z.min (Z.max n 0) (strlen s)) with n by lia.
  replace (Z.min 0 n) with 0 by lia.
  replace (Z.max 0 n - 0) with n by lia.
  simpl (Z.to_nat 0). now rewrite drop_0.
Qed.

Lemma strlen_truncateString_long (s : string) :
  TRUNCATE_LIMIT < strlen s -> strlen (truncateString s) = TRUNCATE_LIMIT + 1.
Proof.
  intros Hgt. rewrite (truncateString_long s Hgt).
  rewrite strlen_append, strlen_TRUNCATED, strlen_substring_prefix
    by (unfold TRUNCATE_LIMIT in *; lia).
  unfold TRUNCATE_LIMIT. lia.
Qed.

Lemma truncateString_twice (s : string) :
  truncateString (truncateString s) = truncateString s.
Proof.
  destruct (Z.le_gt_cases (strlen s) TRUNCATE_LIMIT) as [Hle|Hgt].
  - now rewrite !(truncateString_short s Hle).
  - pose proof (strlen_truncateString_long s Hgt) as Hlen.
    rewrite (truncateString_long (truncateString s)) by lia.
    rewrite (truncateString_long s Hgt) at 2. f_equal.
    rewrite (truncateString_long s Hgt) in Hlen |- *.
    assert (Hn : 0 <= TRUNCATE_LIMIT - 13 <= strlen s) by (unfold TRUNCATE_LIMIT in *; lia).
    rewrite (substring_prefix _ (TRUNCATE_LIMIT - 13))
      by (rewrite Hlen; unfold TRUNCATE_LIMIT; lia).
    pose proof (strlen_substring_prefix s _ Hn) as Hp. unfold strlen in Hp.
    replace (Z.to_nat (TRUNCATE_LIMIT - 13))
      with (String.length (substring s 0 (TRUNCATE_LIMIT - 13))) by lia.
    apply take_append_exact.
Qed.

(** X1. Truncating twice is truncating once, and a truncated string has
    at most [TRUNCATE_LIMIT + 1] code units. *)
Theorem truncateString_idempotent (s : string) :
  truncateString (truncateString s) = truncateString s /\
  strlen (truncateString s) <= TRUNCATE_LIMIT + 1.
Proof.
  split; [apply truncateString_twice|].
  destruct (Z.le_gt_cases (strlen s) TRUNCATE_LIMIT) as [Hle|Hgt].
  - rewrite (truncateString_short s Hle). lia.
  - rewrite (strlen_truncateString_long s Hgt). lia.
Qed.

(** *** Which keys are filtered *)

(** A text in its canonical form under the [i] flag. *)
Fixpoint canonString (s : string) : string :=
  match s with
  | EmptyString => EmptyString
  | String c t => String (upperChar c) (canonString t)
  end.

Lemma matchHere_startsWith (lit s : string) :
  matchHere true lit s = startsWith (canonString s) (canonString lit).
Proof.
  revert s. induction lit as [|a lit IH]; intros s; [reflexivity|].
  destruct s as [|b s]; [reflexivity|]. cbn [matchHere canonString startsWith canonicalize].
  rewrite IH. reflexivity.
Qed.

Lemma existsb_orb {A : Type} (g h : A -> bool) (l : list A) :
  existsb (fun x => g x || h x) l = existsb g l || existsb h l.
Proof.
  induction l as [|x l IH]; [reflexivity|]. simpl. rewrite IH.
  destruct (g x), (h x), (existsb g l), (existsb h l); reflexivity.
Qed.

Lemma existsb_pointwise {A : Type} (g h : A -> bool) (l : list A) :
  (forall x, g x = h x) -> existsb g l = existsb h l.
Proof.
  intros E. induction l as [|x l IH]; [reflexivity|]. simpl. now rewrite E, IH.
Qed.

Lemma existsb_map_compose {A B : Type} (g : B -> bool) (m : A -> B) (l : list A) :
  existsb g (map m l) = existsb (fun x => g (m x)) l.
Proof. induction l as [|x l IH]; [reflexivity|]. simpl. now rewrite IH. Qed.

Lemma search_includes (alts : list string) (s : string) :
  search true alts s =
  existsb (fun lit => includes (canonString s) (canonString lit)) alts.
Proof.
  induction s as [|c t IH].
  - cbn [search canonString includes]. rewrite orb_false_r.
    apply existsb_pointwise. intros lit. rewrite matchHere_startsWith, orb_false_r. reflexivity.
  - cbn [search canonString includes]. rewrite IH, existsb_orb. f_equal.
    apply existsb_pointwise. intros lit. now rewrite matchHere_startsWith.
Qed.

Lemma shouldFilter_includes (K : list string) (f : SanitizeFilter) (key : string) :
  Sanitize.new K = Some f ->
  shouldFilter f key =
  negb (String.eqb key EmptyString) &&
  existsb (fun k => includes (canonString (toLowerCase key))
                      (canonString (toLowerCase k))) K.
Proof.
  intros Hf. rewrite shouldFilter_spec. f_equal.
  unfold Sanitize.new in Hf. destruct K as [|k0 K'].
  - rewrite buildPattern_empty in Hf. inversion Hf. reflexivity.
  - rewrite buildPattern_nonempty in Hf by congruence. unfold option_map in Hf.
    injection Hf as <-. cbn [filterPattern test]. rewrite search_includes.
    change (toLowerCase k0 :: map toLowerCase K') with (map toLowerCase (k0 :: K')).
    apply (existsb_map_compose
             (fun lit => includes (canonString (toLowerCase key)) (canonString lit))).
Qed.

(** X2. A key is filtered exactly when it is not empty and, letter case
    apart, some filter key occurs in it. *)
Theorem shouldFilter_containment (K : list string) (f : SanitizeFilter) (key : string) :
  Sanitize.new K = Some f ->
  shouldFilter f key =
  negb (String.eqb key EmptyString) &&
  existsb (fun k => includes (canonString (toLowerCase key))
                      (canonString (toLowerCase k))) K.
Proof. apply shouldFilter_includes. Qed.

Lemma shouldFilter_containment_witness :
  exists f,
    Sanitize.new ["token"] = Some f /\
    shouldFilter f "accessTokenValue" = true /\
    shouldFilter f "username" = false.
Proof.
  destruct (new_total ["token"]) as [f Hf]. exists f. split; [exact Hf|].
  rewrite !(shouldFilter_containment ["token"] f _ Hf). split; reflexivity.
Defined.

(** *** Sanitizing twice *)

Lemma process_object_distinct (f : SanitizeFilter) (fields : list (string * value))
    (depth : Z) :
  NoDup (JSObject.keys fields) ->
  process f (VObject fields) depth =
  if (depth >? MAX_DEPTH)%Z then VString FILTERED
  else VObject (map (fun kv => (fst kv,
                                if shouldFilter f (fst kv) then VString FILTERED
                                else process f (snd kv) (depth + 1)))
                  (JSObject.assigned fields)).
Proof.
  intros Hnd. cbn [process]. destruct (depth >? MAX_DEPTH)%Z; [reflexivity|].
  fold (processObject f fields depth). now rewrite processObject_distinct.
Qed.

(** Cloning gives a tidy value when the keys of every object are
    distinct. *)
Lemma deepClone_wf : forall v : value, wf v -> tidy (deepClone v).
Proof.
  fix IH 1. intros [ | | b | n | n | s | bytes | t | items | fields] Hwf;
    try exact I.
  - cbn [deepClone tidy]. simpl in Hwf.
    induction items as [|x items IHl]; [exact I|].
    destruct Hwf as [Hx Hr]. cbn [map fold_right].
    split; [exact (IH x Hx) | exact (IHl Hr)].
  - destruct Hwf as [Hnd Hall]. rewrite (deepClone_object _ Hnd).
    destruct (inherited fields); [exact I|]. cbn [tidy].
    rewrite map_map. cbn [fst].
    change (map (fun x : string * value => fst x) (JSObject.assigned fields))
      with (JSObject.keys (JSObject.assigned fields)).
    split; [now apply JSObject.assigned_distinct|].
    split; [apply JSObject.assigned_no_proto|].
    clear Hnd. induction fields as [|[k x] fields IHl]; [exact I|].
    destruct Hall as [Hx Hr]. cbn [JSObject.assigned filter fst].
    destruct (negb (JSObject.isProto k)); [|exact (IHl Hr)].
    cbn [map fold_right snd]. split; [exact (IH x Hx) | exact (IHl Hr)].
Qed.

(** Sanitizing keeps a value tidy. *)
Lemma process_tidy (f : SanitizeFilter) :
  forall (v : value) (depth : Z), tidy v -> tidy (process f v depth).
Proof.
  fix IH 1. intros v depth Ht.
  destruct (Z.gtb_spec depth MAX_DEPTH) as [Hd|Hd].
  { rewrite process_beyond_depth by exact Hd. exact I. }
  destruct v as [ | | b | n | n | s | bytes | t | items | fields];
    cbn [process]; destruct (Z.gtb_spec depth MAX_DEPTH); try lia; try exact I.
  - cbn [processObjectWith fold_left]. split; [constructor | split; [tauto | exact I]].
  - simpl in Ht. cbn [tidy].
    induction items as [|x items IHl]; [exact I|].
    destruct Ht as [Hx Hr]. simpl. split; [apply IH; exact Hx | apply IHl; exact Hr].
  - destruct Ht as (Hnd & Hno & Hall).
    fold (processObject f fields depth). rewrite processObject_distinct by exact Hnd.
    rewrite (JSObject.assigned_id fields Hno).
    cbn [tidy]. rewrite map_map. cbn [fst].
    split; [exact Hnd|]. split; [exact Hno|].
    clear Hnd Hno. induction fields as [|[k x] fields IHl]; [exact I|].
    destruct Hall as [Hx Hr]. simpl in Hx |- *.
    split; [|apply IHl; exact Hr].
    destruct (shouldFilter f k); [exact I | apply IH; exact Hx].
Qed.

Lemma process_idempotent (f : SanitizeFilter) :
  forall (v : value) (depth : Z),
    tidy v -> process f (process f v depth) depth = process f v depth.
Proof.
  fix IH 1. intros v depth Ht.
  destruct (Z.gtb_spec depth MAX_DEPTH) as [Hd|Hd].
  { rewrite (process_beyond_depth f v) by exact Hd.
    now apply process_beyond_depth. }
  assert (Hgt : (depth >? MAX_DEPTH)%Z = false)
    by (destruct (Z.gtb_spec depth MAX_DEPTH); [lia | reflexivity]).
  destruct v as [ | | b | n | n | s | bytes | t | items | fields].
  1-5: cbn [process]; rewrite Hgt; cbn [process]; rewrite Hgt; reflexivity.
  - cbn [process]. rewrite Hgt. cbn [process]. rewrite Hgt.
    f_equal. apply truncateString_twice.
  - cbn [process]. rewrite Hgt. cbn [process]. rewrite Hgt. reflexivity.
  - cbn [process]. rewrite Hgt. cbn [processObjectWith fold_left process].
    rewrite Hgt. reflexivity.
  - cbn [process]. rewrite Hgt. cbn [process]. rewrite Hgt. f_equal.
    simpl in Ht. induction items as [|x items IHl]; [reflexivity|].
    destruct Ht as [Hx Hr]. simpl. rewrite (IH x (depth + 1) Hx), (IHl Hr).
    reflexivity.
  - destruct Ht as (Hnd & Hno & Hall).
    rewrite (process_object_distinct f fields depth Hnd), Hgt.
    rewrite (JSObject.assigned_id fields Hno).
    rewrite process_object_distinct by (rewrite keys_map_snd; exact Hnd).
    rewrite Hgt. f_equal.
    rewrite JSObject.assigned_id by (rewrite keys_map_snd; exact Hno).
    rewrite map_map. cbn [fst snd].
    clear Hnd Hno. induction fields as [|[k x] fields IHl]; [reflexivity|].
    destruct Hall as [Hx Hr]. simpl in Hx |- *. rewrite (IHl Hr). f_equal. f_equal.
    destruct (shouldFilter f k); [reflexivity | apply IH; exact Hx].
Qed.

(** X3. Sanitizing what has been sanitized changes nothing. *)
Theorem sanitize_idempotent (f : SanitizeFilter) (v : value) :
  wf v -> sanitize f (sanitize f v) = sanitize f v.
Proof.
  intros Hwf. unfold sanitize.
  pose proof (deepClone_wf v Hwf) as Ht.
  rewrite (deepClone_tidy (process f (deepClone v) 0)) by (apply process_tidy; exact Ht).
  apply process_idempotent. exact Ht.
Qed.

Definition sample_value : value :=
  VObject [("user", VObject [("name", VString "john"); ("password", VString "x")]);
           ("items", VArray [VBuffer [1; 2]; VDate 0; VNull])].

Lemma sample_value_wf : wf sample_value.
Proof. simpl. repeat split; repeat constructor; simpl; intuition discriminate. Defined.

Lemma sanitize_idempotent_witness :
  wf sample_value /\
  forall f, sanitize f (sanitize f sample_value) = sanitize f sample_value.
Proof.
  split; [exact sample_value_wf|].
  intros f. exact (sanitize_idempotent f sample_value sample_value_wf).
Defined.

(** *** The depth of what is sent *)

(** The number of arrays and objects nested in a value. *)
Fixpoint height (v : value) : Z :=
  match v with
  | VArray items => 1 + fold_right (fun x acc => Z.max (height x) acc) 0 items
  | VObject fields =>
      1 + fold_right (fun kv acc => Z.max (height (snd kv)) acc) 0 fields
  | _ => 0
  end.

Lemma height_nonneg : forall v : value, 0 <= height v.
Proof.
  intros [ | | b | n | n | s | bytes | t | items | fields]; cbn [height]; try lia.
  - induction items as [|x items IH]; cbn [fold_right]; lia.
  - induction fields as [|kv fields IH]; cbn [fold_right]; lia.
Qed.

Lemma entries_height (o : list (string * value)) (b : Z) :
  0 <= b ->
  Forall (fun kv => height (snd kv) <= b) o ->
  fold_right (fun kv acc => Z.max (height (snd kv)) acc) 0 o <= b.
Proof.
  intros Hb H. induction H as [|kv o Hkv Ho IH]; cbn [fold_right]; lia.
Qed.

Lemma Forall_put (P : value -> Prop) (o : list (string * value)) (k : string) (v : value) :
  Forall (fun kv => P (snd kv)) o -> P v ->
  Forall (fun kv => P (snd kv)) (JSObject.put o k v).
Proof.
  intros Ho Hv. unfold JSObject.put. destruct (JSObject.isProto k); [exact Ho|].
  induction Ho as [|[k0 v0] o Hk Ho IH]; simpl.
  - constructor; [exact Hv | constructor].
  - destruct (String.eqb k0 k); constructor; auto.
Qed.

Lemma process_height (f : SanitizeFilter) :
  forall (v : value) (depth : Z),
    height (process f v depth) <= Z.max 0 (MAX_DEPTH + 1 - depth).
Proof.
  fix IH 1. intros v depth.
  destruct (Z.gtb_spec depth MAX_DEPTH) as [Hd|Hd].
  { rewrite process_beyond_depth by exact Hd. cbn [height]. lia. }
  assert (Hgt : (depth >? MAX_DEPTH)%Z = false)
    by (destruct (Z.gtb_spec depth MAX_DEPTH); [lia | reflexivity]).
  destruct v as [ | | b | n | n | s | bytes | t | items | fields];
    cbn [process]; rewrite Hgt; try (cbn [height]; lia).
  - cbn [processObjectWith fold_left height fold_right]. lia.
  - cbn [height].
    assert (H : fold_right (fun x acc => Z.max (height x) acc) 0
                  (map (fun item => process f item (depth + 1)) items)
                <= MAX_DEPTH - depth).
    { induction items as [|x items IHl]; cbn [map fold_right]; [lia|].
      pose proof (IH x (depth + 1)). lia. }
    lia.
  - cbn [height].
    assert (H : Forall (fun kv => height (snd kv) <= MAX_DEPTH - depth)
                  (processObjectWith (process f) f fields depth)).
    { unfold processObjectWith.
      assert (G : forall acc,
                 Forall (fun kv => height (snd kv) <= MAX_DEPTH - depth) acc ->
                 Forall (fun kv => height (snd kv) <= MAX_DEPTH - depth)
                   (fold_left
                      (fun result kv =>
                         if shouldFilter f (fst kv)
                         then JSObject.put result (fst kv) (VString FILTERED)
                         else JSObject.put result (fst kv)
                                (process f (snd kv) (depth + 1)))
                      fields acc)).
      { induction fields as [|[k x] fields IHl]; intros acc Hacc; [exact Hacc|].
        simpl. apply IHl. destruct (shouldFilter f k).
        - apply (Forall_put (fun v => height v <= MAX_DEPTH - depth)); [exact Hacc|].
          cbn [height]. lia.
        - apply (Forall_put (fun v => height v <= MAX_DEPTH - depth)); [exact Hacc|].
          pose proof (IH x (depth + 1)). lia. }
      apply G. constructor. }
    apply entries_height in H; lia.
Qed.

(** The number of nested calls of [deepClone] a value takes. *)
Fixpoint callDepth (v : value) : nat :=
  match v with
  | VArray items => S (fold_right (fun x acc => Nat.max (callDepth x) acc) 0%nat items)
  | VObject fields =>
      S (fold_right (fun kv acc => Nat.max (callDepth (snd kv)) acc) 0%nat fields)
  | _ => 1%nat
  end.

(** No object nested in the value has an own [__proto__]. *)
Fixpoint plain (v : value) : Prop :=
  match v with
  | VArray items => fold_right (fun x acc => plain x /\ acc) True items
  | VObject fields =>
      ~ In JSObject.PROTO (map fst fields) /\
      fold_right (fun kv acc => plain (snd kv) /\ acc) True fields
  | _ => True
  end.

Lemma mapM_total {A B : Type} (g : A -> option B) (h : A -> B) (l : list A) :
  Forall (fun x => g x = Some (h x)) l -> mapM g l = Some (map h l).
Proof.
  induction 1 as [|x l Hx Hl IH]; [reflexivity|].
  cbn [mapM map]. now rewrite Hx, IH.
Qed.

Lemma mapM_each {A B : Type} (g : A -> option B) (l : list A) (r : list B) :
  mapM g l = Some r -> Forall (fun x => g x <> None) l.
Proof.
  revert r. induction l as [|x l IH]; intros r; cbn [mapM]; [constructor|].
  destruct (g x) as [y|] eqn:Ex; [|discriminate].
  destruct (mapM g l) as [r'|] eqn:Er; [|discriminate].
  intros _. constructor; [congruence | exact (IH r' eq_refl)].
Qed.

Lemma assignWithin_none (frames : nat) (fields : list (string * value)) :
  fold_left (fun result kv =>
               assignWithin result (fst kv) (deepCloneWithin frames (snd kv)))
    fields None = None.
Proof. induction fields as [|kv fields IH]; [reflexivity | exact IH]. Qed.

Lemma assignWithin_each (frames : nat) (fields : list (string * value)) :
  forall (start : option building) (result : building),
    fold_left (fun result kv =>
                 assignWithin result (fst kv) (deepCloneWithin frames (snd kv)))
      fields start = Some result ->
    Forall (fun kv => deepCloneWithin frames (snd kv) <> None) fields.
Proof.
  induction fields as [|[k v] fields IH]; intros start result; cbn [fold_left fst snd];
    [constructor|].
  intros H. constructor; [|exact (IH _ _ H)].
  cbn [snd]. intros E. rewrite E in H.
  assert (Ea : assignWithin start k None = None) by (destruct start; reflexivity).
  rewrite Ea, assignWithin_none in H. discriminate.
Qed.

Lemma assignWithin_total (frames : nat) (fields : list (string * value)) :
  ~ In JSObject.PROTO (map fst fields) ->
  Forall (fun kv => deepCloneWithin frames (snd kv) = Some (deepClone (snd kv))) fields ->
  forall own : list (string * value),
    fold_left (fun result kv =>
                 assignWithin result (fst kv) (deepCloneWithin frames (snd kv)))
      fields (Some (own, None))
    = Some (fold_left (fun result kv => assignTo result (fst kv) (deepClone (snd kv)))
              fields (own, None)).
Proof.
  intros Hno Hall. induction Hall as [|[k v] fields Hv Hall IH]; intros own;
    [reflexivity|].
  cbn [fold_left fst snd] in *. rewrite Hv. cbn [assignWithin snd].
  unfold assignTo at 1 3. cbn [fst snd].
  destruct (JSObject.isProto k) eqn:Ek.
  - exfalso. apply Hno. left. apply String.eqb_eq in Ek. exact Ek.
  - apply IH. intro Hin. apply Hno. now right.
Qed.

Lemma max_callDepth {A : Type} (g : A -> value) (l : list A) (frames : nat) :
  Forall (fun x => (callDepth (g x) <= frames)%nat) l <->
  (fold_right (fun x acc => Nat.max (callDepth (g x)) acc) 0 l <= frames)%nat.
Proof.
  induction l as [|x l IH]; cbn [fold_right].
  - split; [lia | constructor].
  - split.
    + intros H. inversion H as [|? ? Hx Hl]; subst. apply IH in Hl. lia.
    + intros H. constructor; [lia | apply IH; lia].
Qed.

(** The clone is returned only when the stack has room for the
    nested calls the value takes. *)
Lemma deepCloneWithin_room (frames : nat) :
  forall v : value, deepCloneWithin frames v <> None -> (callDepth v <= frames)%nat.
Proof.
  induction frames as [|frames IH]; intros v; [intros H; now contradiction H|].
  destruct v as [ | | b | n | n | s | bytes | t | items | fields];
    cbn [deepCloneWithin callDepth]; try lia.
  - destruct (mapM (deepCloneWithin frames) items) as [r|] eqn:Er;
      [|intros H; now contradiction H].
    intros _. apply le_n_S.
    apply (max_callDepth (fun x => x)). apply mapM_each in Er.
    eapply Forall_impl; [|exact Er]. intros x Hx. now apply IH.
  - destruct (fold_left
                (fun result kv =>
                   assignWithin result (fst kv) (deepCloneWithin frames (snd kv)))
                fields (Some ([], None))) as [result|] eqn:Er;
      [|intros H; now contradiction H].
    intros _. apply le_n_S.
    apply (max_callDepth (fun kv : string * value => snd kv)).
    apply assignWithin_each in Er.
    eapply Forall_impl; [|exact Er]. intros kv Hkv. now apply IH.
Qed.

(** It is returned when the stack has that room and no object has an
    own [__proto__]. *)
Lemma deepCloneWithin_plain (frames : nat) :
  forall v : value,
    plain v -> (callDepth v <= frames)%nat ->
    deepCloneWithin frames v = Some (deepClone v).
Proof.
  induction frames as [|frames IH]; intros v Hp Hd.
  { destruct v; cbn [callDepth] in Hd; lia. }
  destruct v as [ | | b | n | n | s | bytes | t | items | fields];
    cbn [deepCloneWithin deepClone]; try reflexivity.
  - cbn [callDepth] in Hd. apply le_S_n in Hd.
    apply (max_callDepth (fun x => x)) in Hd. cbn [plain] in Hp.
    rewrite (mapM_total _ deepClone); [reflexivity|].
    induction items as [|x items IHl]; [constructor|].
    destruct Hp as [Hx Hr]. inversion Hd as [|? ? Hdx Hdl]; subst.
    constructor; [exact (IH x Hx Hdx) | exact (IHl Hr Hdl)].
  - cbn [callDepth] in Hd. apply le_S_n in Hd.
    apply (max_callDepth (fun kv : string * value => snd kv)) in Hd.
    destruct Hp as [Hno Hp].
    rewrite (assignWithin_total frames fields Hno); [reflexivity|].
    clear Hno. induction fields as [|[k x] fields IHl]; [constructor|].
    destruct Hp as [Hx Hr]. inversion Hd as [|? ? Hdx Hdl]; subst.
    constructor; [exact (IH x Hx Hdx) | exact (IHl Hr Hdl)].
Qed.

(** A value nested [n] arrays deep around [v]. *)
Fixpoint wrap (n : nat) (v : value) : value :=
  match n with
  | O => v
  | S n' => VArray [wrap n' v]
  end.

Lemma callDepth_wrap (n : nat) (v : value) :
  callDepth (wrap n v) = (n + callDepth v)%nat.
Proof.
  induction n as [|n IH]; [reflexivity|].
  cbn [wrap callDepth fold_right]. rewrite IH. lia.
Qed.

(** X4. [sanitize] returns a value only when the stack has room for
    the nested calls of [deepClone] the input takes, one for every
    level of nesting and with no bound of its own: deeper input makes
    it throw, whatever [MAX_DEPTH] is, and whatever room the stack has
    there is an input that deep.  With that room it returns one for
    every input in which no object has an own [__proto__].  The value
    it returns nests at most [MAX_DEPTH + 1] arrays and objects. *)
Theorem sanitize_height (frames : nat) (f : SanitizeFilter) (v : value) :
  (forall r, sanitizeWithin frames f v = Some r ->
     r = sanitize f v /\ height r <= MAX_DEPTH + 1 /\ (callDepth v <= frames)%nat) /\
  (plain v -> (callDepth v <= frames)%nat ->
   sanitizeWithin frames f v = Some (sanitize f v)) /\
  ((frames < callDepth v)%nat -> sanitizeWithin frames f v = None) /\
  sanitizeWithin frames f (wrap frames v) = None.
Proof.
  assert (Hnone : forall w, (frames < callDepth w)%nat ->
                            sanitizeWithin frames f w = None).
  { intros w Hw. unfold sanitizeWithin.
    destruct (deepCloneWithin frames w) eqn:E; [|reflexivity].
    assert (callDepth w <= frames)%nat by (apply deepCloneWithin_room; congruence).
    lia. }
  split; [|split; [|split]].
  - intros r Hr. rewrite (sanitizeWithin_agrees frames f v r Hr).
    split; [reflexivity|]. split.
    + unfold sanitize. pose proof (process_height f (deepClone v) 0).
      unfold MAX_DEPTH in *. lia.
    + apply deepCloneWithin_room. unfold sanitizeWithin in Hr.
      destruct (deepCloneWithin frames v); [congruence | discriminate].
  - intros Hp Hd. unfold sanitizeWithin.
    rewrite (deepCloneWithin_plain frames v Hp Hd). reflexivity.
  - apply Hnone.
  - apply Hnone. rewrite callDepth_wrap.
    assert (1 <= callDepth v)%nat by (destruct v; simpl; lia). lia.
Qed.

Lemma sanitize_height_witness :
  let deep := wrap 15 (VString "test") in
  sanitizeWithin 100 {| filterPattern := NeverMatch |} deep
  = Some (wrap 11 (VString FILTERED)) /\
  sanitizeWithin 15 {| filterPattern := NeverMatch |} deep = None.
Proof.
  intros deep.
  destruct (sanitize_height 100 {| filterPattern := NeverMatch |} deep) as (_ & H & _).
  destruct (sanitize_height 15 {| filterPattern := NeverMatch |} deep) as (_ & _ & H' & _).
  split.
  - apply H; [simpl; tauto | vm_compute; lia].
  - apply H'. vm_compute. lia.
Defined.

(** *** What is left in a sanitized value *)

(** A value that holds no string longer than the cap and its marker,
    no [Buffer] and no [Date], and in which every key the filter
    matches, at any depth, holds the placeholder. *)
Fixpoint clean (f : SanitizeFilter) (v : value) : Prop :=
  match v with
  | VString s => strlen s <= TRUNCATE_LIMIT + 1
  | VBuffer _ | VDate _ => False
  | VArray items => fold_right (fun x acc => clean f x /\ acc) True items
  | VObject fields =>
      fold_right
        (fun kv acc =>
           (shouldFilter f (fst kv) = true -> snd kv = VString FILTERED) /\
           clean f (snd kv) /\ acc)
        True fields
  | _ => True
  end.

Definition cleanEntry (f : SanitizeFilter) (kv : string * value) : Prop :=
  (shouldFilter f (fst kv) = true -> snd kv = VString FILTERED) /\ clean f (snd kv).

Lemma clean_object (f : SanitizeFilter) (fields : list (string * value)) :
  Forall (cleanEntry f) fields -> clean f (VObject fields).
Proof.
  intros H. cbn [clean]. induction H as [|kv o [Hk Hc] Ho IH]; cbn [fold_right]; auto.
Qed.

Lemma cleanEntry_put (f : SanitizeFilter) (o : list (string * value))
    (k : string) (v : value) :
  Forall (cleanEntry f) o -> cleanEntry f (k, v) ->
  Forall (cleanEntry f) (JSObject.put o k v).
Proof.
  intros Ho Hv. unfold JSObject.put. destruct (JSObject.isProto k); [exact Ho|].
  induction Ho as [|[k0 v0] o Hk Ho IH]; simpl.
  - constructor; [exact Hv | constructor].
  - destruct (String.eqb_spec k0 k) as [->|Hne]; constructor; auto.
Qed.

Lemma strlen_truncateString (s : string) : strlen (truncateString s) <= TRUNCATE_LIMIT + 1.
Proof.
  destruct (Z.le_gt_cases (strlen s) TRUNCATE_LIMIT) as [Hle|Hgt].
  - rewrite (truncateString_short s Hle). lia.
  - rewrite (strlen_truncateString_long s Hgt). lia.
Qed.

Lemma process_clean (f : SanitizeFilter) :
  forall (v : value) (depth : Z), clean f (process f v depth).
Proof.
  fix IH 1. intros v depth.
  destruct (Z.gtb_spec depth MAX_DEPTH) as [Hd|Hd].
  { rewrite process_beyond_depth by exact Hd. cbn [clean]. vm_compute. discriminate. }
  assert (Hgt : (depth >? MAX_DEPTH)%Z = false)
    by (destruct (Z.gtb_spec depth MAX_DEPTH); [lia | reflexivity]).
  destruct v as [ | | b | n | n | s | bytes | t | items | fields];
    cbn [process]; rewrite Hgt; try exact I.
  - cbn [clean]. apply strlen_truncateString.
  - cbn [clean]. vm_compute. discriminate.
  - cbn [clean]. induction items as [|x items IHl]; cbn [map fold_right]; [exact I|].
    split; [apply IH | exact IHl].
  - apply clean_object. unfold processObjectWith.
    assert (G : forall acc,
               Forall (cleanEntry f) acc ->
               Forall (cleanEntry f)
                 (fold_left
                    (fun result kv =>
                       if shouldFilter f (fst kv)
                       then JSObject.put result (fst kv) (VString FILTERED)
                       else JSObject.put result (fst kv)
                              (process f (snd kv) (depth + 1)))
                    fields acc)).
    { induction fields as [|[k x] fields IHl]; intros acc Hacc; [exact Hacc|].
      simpl. apply IHl. destruct (shouldFilter f k) eqn:Hk.
      - apply cleanEntry_put; [exact Hacc|]. split; [reflexivity|].
        cbn [snd clean]. vm_compute. discriminate.
      - apply cleanEntry_put; [exact Hacc|]. split.
        + cbn [fst]. rewrite Hk. discriminate.
        + apply IH. }
    apply G. constructor.
Qed.

(** X5. Whatever the input, what [sanitize] returns holds no string
    longer than 10001 code units, no [Buffer] and no [Date], and every
    key the filter matches, at any depth, holds the placeholder. *)
Theorem sanitize_clean (f : SanitizeFilter) (v : value) : clean f (sanitize f v).
Proof. apply process_clean. Qed.

End SanitizeFacts.

(* ================================================================== *)
(** ** More on src/notice.ts *)
(* ================================================================== *)

Module NoticeFacts.
Import JSString JSValue Notice.

Local Open Scope list_scope.

(** *** The message *)

Lemma truthy_orElse (a b : string) : truthy b = true -> truthy (orElse a b) = true.
Proof. unfold orElse. destruct (truthy a) eqn:E; auto. Qed.

Lemma truncateMessage_long (m : string) :
  MAX_MESSAGE_LENGTH < strlen m ->
  truncateMessage m = (substring m 0 (MAX_MESSAGE_LENGTH - 3) ++ "...")%string.
Proof.
  intros H. unfold truncateMessage.
  destruct m as [|c m]; [discriminate H|].
  cbn [truthy negb].
  destruct (Z.leb_spec (strlen (String c m)) MAX_MESSAGE_LENGTH); [lia | reflexivity].
Qed.

Lemma truncateMessage_short (m : string) :
  strlen m <= MAX_MESSAGE_LENGTH -> truncateMessage m = m.
Proof.
  intros H. unfold truncateMessage. destruct m as [|c m]; [reflexivity|].
  cbn [truthy negb].
  destruct (Z.leb_spec (strlen (String c m)) MAX_MESSAGE_LENGTH); [reflexivity | lia].
Qed.

Lemma strlen_truncateMessage_long (m : string) :
  MAX_MESSAGE_LENGTH < strlen m -> strlen (truncateMessage m) = MAX_MESSAGE_LENGTH.
Proof.
  intros H. rewrite truncateMessage_long by exact H.
  rewrite strlen_append, strlen_substring_prefix
    by (unfold MAX_MESSAGE_LENGTH in *; lia).
  unfold MAX_MESSAGE_LENGTH. reflexivity.
Qed.

Lemma strlen_truncateMessage (m : string) :
  strlen (truncateMessage m) <= MAX_MESSAGE_LENGTH.
Proof.
  destruct (Z.le_gt_cases (strlen m) MAX_MESSAGE_LENGTH) as [Hle|Hgt].
  - now rewrite (truncateMessage_short m Hle).
  - rewrite (strlen_truncateMessage_long m Hgt). lia.
Qed.

(** X6. A message longer than the cap is cut to exactly the cap and ends
    with the ellipsis; a shorter one is kept; truncating twice is
    truncating once. *)
Theorem truncateMessage_fits (m : string) :
  strlen (truncateMessage m) <= MAX_MESSAGE_LENGTH /\
  (MAX_MESSAGE_LENGTH < strlen m ->
   strlen (truncateMessage m) = MAX_MESSAGE_LENGTH /\
   endsWith (truncateMessage m) "..." = true) /\
  (strlen m <= MAX_MESSAGE_LENGTH -> truncateMessage m = m) /\
  truncateMessage (truncateMessage m) = truncateMessage m.
Proof.
  split; [apply strlen_truncateMessage|].
  split.
  { intros H. split; [now apply strlen_truncateMessage_long|].
    rewrite truncateMessage_long by exact H. apply endsWith_append. }
  split; [apply truncateMessage_short|].
  apply truncateMessage_short, strlen_truncateMessage.
Qed.

Lemma truncateMessage_fits_witness :
  let m := JSString.repeat "x" (Z.to_nat 15000) in
  MAX_MESSAGE_LENGTH < strlen m /\
  strlen (truncateMessage m) = MAX_MESSAGE_LENGTH /\
  endsWith (truncateMessage m) "..." = true.
Proof.
  intros m.
  assert (H : MAX_MESSAGE_LENGTH < strlen m) by (vm_compute; reflexivity).
  split; [exact H|].
  exact (proj1 (proj2 (truncateMessage_fits m)) H).
Defined.

Lemma truthy_truncateMessage (m : string) :
  truthy m = true -> truthy (truncateMessage m) = true.
Proof.
  intros H. destruct (Z.le_gt_cases (strlen m) MAX_MESSAGE_LENGTH) as [Hle|Hgt].
  - now rewrite truncateMessage_short.
  - destruct (truncateMessage m) eqn:E; [|reflexivity].
    pose proof (strlen_truncateMessage_long m Hgt) as Hlen.
    rewrite E in Hlen. discriminate Hlen.
Qed.

(** X7. Whatever the error and the options, the notice has a class name
    and a message that are not empty, a message within the cap, and at
    most 100 frames. *)
Theorem createNotice_bounds (now : string) (error : Error) (options : Options) :
  let notice := createNotice now error options in
  errorClass notice <> EmptyString /\
  message notice <> EmptyString /\
  strlen (message notice) <= MAX_MESSAGE_LENGTH /\
  Z.of_nat (List.length (backtrace notice)) <= MAX_BACKTRACE_LINES.
Proof.
  cbn [createNotice errorClass message backtrace].
  assert (T : forall s, truthy s = true -> s <> EmptyString)
    by (intros [|c s]; [discriminate | congruence]).
  split; [apply T, truthy_orElse; reflexivity|].
  split; [apply T, truthy_truncateMessage, truthy_orElse; reflexivity|].
  split; [apply strlen_truncateMessage | apply parseBacktrace_length].
Qed.

(** *** The backtrace *)

Lemma trimEnd_twice (s : string) : trimEnd (trimEnd s) = trimEnd s.
Proof.
  induction s as [|c t IH]; [reflexivity|].
  cbn [trimEnd]. destruct (trimEnd t) as [|c' t'] eqn:E.
  - destruct (isWhiteSpace c) eqn:Hc; [reflexivity|].
    cbn [trimEnd]. now rewrite Hc.
  - cbn [trimEnd]. cbn [trimEnd] in IH. rewrite IH. reflexivity.
Qed.

(** The first code unit, if there is one, is not white space. *)
Definition startsClean (s : string) : Prop :=
  match s with
  | EmptyString => True
  | String c _ => isWhiteSpace c = false
  end.

Lemma startsClean_trimStart (s : string) : startsClean (trimStart s).
Proof.
  induction s as [|c t IH]; [exact I|]. cbn [trimStart].
  destruct (isWhiteSpace c) eqn:E; [exact IH | exact E].
Qed.

Lemma startsClean_trimEnd (s : string) : startsClean s -> startsClean (trimEnd s).
Proof.
  destruct s as [|c t]; [trivial|]. intros Hc. cbn [trimEnd].
  destruct (trimEnd t); [|exact Hc].
  simpl in Hc. rewrite Hc. exact Hc.
Qed.

Lemma trimStart_clean (s : string) : startsClean s -> trimStart s = s.
Proof. destruct s as [|c t]; [reflexivity|]. intros Hc. simpl in *. now rewrite Hc. Qed.

Lemma trim_twice (s : string) : trim (trim s) = trim s.
Proof.
  unfold trim.
  rewrite (trimStart_clean (trimEnd (trimStart s)))
    by (apply startsClean_trimEnd, startsClean_trimStart).
  apply trimEnd_twice.
Qed.

(** X8. With no root path configured every frame starts with the marker
    and carries no white space around it. *)
Theorem parseBacktrace_without_root (stack : option string) :
  Forall (fun frame => startsWith frame "at " = true /\ trim frame = frame)
    (parseBacktrace stack None).
Proof.
  unfold parseBacktrace. destruct (present stack) as [s|]; [|constructor].
  apply Forall_forall. intros frame Hin. apply in_firstn in Hin.
  apply in_map_iff in Hin. destruct Hin as (line & <- & Hin).
  apply filter_In in Hin. rewrite cleanBacktraceLine_no_root.
  split; [apply Hin | apply trim_twice].
Qed.

Example parseBacktrace_node_stack :
  parseBacktrace
    (Some ("Error: Test error" ++ String LF
           "    at Object.<anonymous> (/Users/test/project/src/index.ts:10:5)"
           ++ String LF
           "    at Module._compile (node:internal/modules/cjs/loader:1234:14)")%string)
    None
  = ["at Object.<anonymous> (/Users/test/project/src/index.ts:10:5)";
     "at Module._compile (node:internal/modules/cjs/loader:1234:14)"].
Proof. reflexivity. Qed.

Lemma startsWith_split (s p : string) :
  startsWith s p = true -> s = (p ++ drop (String.length p) s)%string.
Proof.
  revert s. induction p as [|a p IH]; intros s H.
  - destruct s; reflexivity.
  - destruct s as [|b s]; [discriminate|]. simpl in H.
    apply andb_prop in H. destruct H as [Hab Hp].
    apply Ascii.eqb_eq in Hab. subst b. simpl. f_equal. now apply IH.
Qed.

(** [replace] rewrites the first occurrence of the pattern, and only
    that one; without an occurrence the text is returned as it is. *)
Lemma replace_first (s pat rep : string) :
  (includes s pat = false /\ replace s pat rep = s) \/
  (exists pre post,
     s = (pre ++ pat ++ post)%string /\
     replace s pat rep = (pre ++ rep ++ post)%string /\
     forall n, (n < String.length pre)%nat -> startsWith (drop n s) pat = false).
Proof.
  induction s as [|c t IH].
  - cbn [replace includes]. destruct (startsWith EmptyString pat) eqn:E.
    + right. exists EmptyString, (drop (String.length pat) EmptyString).
      split; [now apply startsWith_split|]. split; [reflexivity|].
      intros n Hn. simpl in Hn. lia.
    + left. split; reflexivity.
  - cbn [replace includes]. destruct (startsWith (String c t) pat) eqn:E.
    + right. exists EmptyString, (drop (String.length pat) (String c t)).
      split; [now apply startsWith_split|]. split; [reflexivity|].
      intros n Hn. simpl in Hn. lia.
    + cbn [orb]. destruct IH as [[Hno Hsame]|(pre & post & Hs & Hrep & Hfirst)].
      * left. split; [exact Hno | now rewrite Hsame].
      * right. exists (String c pre), post.
        split; [simpl; now rewrite <- Hs|]. split; [simpl; now rewrite Hrep|].
        intros [|n] Hn; [exact E|]. simpl in Hn |- *. apply Hfirst. lia.
Qed.

(** X9. With a root path configured, a frame line without the root path
    is kept as it is; in a line with it, the first occurrence, and only
    that one, is replaced by the placeholder. *)
Theorem cleanBacktraceLine_first (line root : string) :
  root <> EmptyString ->
  (includes line root = false /\ cleanBacktraceLine line (Some root) = line) \/
  (exists pre post,
     line = (pre ++ root ++ post)%string /\
     cleanBacktraceLine line (Some root) = (pre ++ PROJECT_ROOT ++ post)%string /\
     forall n, (n < String.length pre)%nat -> startsWith (drop n line) root = false).
Proof.
  intros Hne. unfold cleanBacktraceLine, present.
  destruct root as [|c root]; [congruence|]. cbn [truthy].
  apply replace_first.
Qed.

Lemma cleanBacktraceLine_first_witness :
  "/app" <> EmptyString /\
  cleanBacktraceLine "at run (/app/lib/app.js:1:1)" (Some "/app")
  = "at run ([PROJECT_ROOT]/lib/app.js:1:1)".
Proof.
  assert (H : "/app" <> EmptyString) by discriminate.
  split; [exact H|].
  destruct (cleanBacktraceLine_first "at run (/app/lib/app.js:1:1)" "/app" H)
    as [[Hno _]|(pre & post & _ & Hclean & _)].
  - discriminate Hno.
  - reflexivity.
Defined.

End NoticeFacts.

(* ================================================================== *)
(** ** src/testing.ts: capturing notices from payloads *)
(* ================================================================== *)

Module Testing.
Import JSString JSValue Notice Configuration.

Local Open Scope list_scope.

(** The object [captureFromPayload] builds.  Its [environment] is the
    value found in the context of the payload, of whatever type (the
    cast does not check it); it has no [appName] nor [revision]. *)
Record CapturedNotice : Type := {
  captured_errorClass : string;
  captured_message : string;
  captured_backtrace : list string;
  captured_fingerprint : option string;
  captured_tags : list string;
  captured_context : Context;
  captured_request : RequestInfo;
  captured_user : User;
  captured_environment : option value;
  captured_occurredAt : string
}.

(** [captureFromPayload(payload)], on the array [notices] of the module. *)
Definition captureFromPayload (payload : NoticePayload) (notices : list CapturedNotice)
  : list CapturedNotice :=
  let notice :=
    {| captured_errorClass := class (error payload);
       captured_message := payload_message (error payload);
       captured_backtrace := payload_backtrace (error payload);
       captured_fingerprint := payload_fingerprint (error payload);
       captured_tags := nullish (payload_tags (error payload)) [];
       captured_context := payload_context payload;
       captured_request := payload_request payload;
       captured_user := payload_user payload;
       captured_environment := JSObject.get (payload_context payload) "environment";
       captured_occurredAt := occurred_at (error payload) |} in
  notices ++ [notice].

(** [notices[notices.length - 1]] *)
Definition getLastNotice (notices : list CapturedNotice) : option CapturedNotice :=
  if (Z.of_nat (List.length notices) - 1 <? 0)%Z then None
  else nth_error notices (Z.to_nat (Z.of_nat (List.length notices) - 1)).

(** [notices[0]] *)
Definition getFirstNotice (notices : list CapturedNotice) : option CapturedNotice :=
  nth_error notices 0.

Definition hasNotices (notices : list CapturedNotice) : bool :=
  (Z.of_nat (List.length notices) >? 0)%Z.

Definition noticeCount (notices : list CapturedNotice) : Z :=
  Z.of_nat (List.length notices).

Lemma getLastNotice_app (notices : list CapturedNotice) (c : CapturedNotice) :
  getLastNotice (notices ++ [c]) = Some c.
Proof.
  unfold getLastNotice. rewrite length_app. cbn [List.length].
  destruct (Z.ltb_spec (Z.of_nat (List.length notices + 1) - 1) 0) as [H|_]; [lia|].
  replace (Z.to_nat (Z.of_nat (List.length notices + 1) - 1))
    with (List.length notices + 0)%nat by lia.
  now rewrite nth_error_app2, Nat.add_comm, Nat.add_sub by lia.
Qed.

(** *** What comes back from the JSON text *)

Section Wire.

(** [date.toJSON()]: the text of [toISOString] for the time value of a
    date, [None] for an invalid date, which JSON writes as [null]. *)
Variable toJSON : Z -> option string.

(** [JSON.parse(JSON.stringify(v))], [None] standing for [undefined]:
    a property that holds [undefined] is left out of the text, and an
    array item that does is written as [null]; a Buffer and a Date are
    written by their [toJSON]; a text and a number (the numbers of the
    model are finite) come back as they are.  [JSON.stringify] throws
    on a BigInt, and the client then makes no request: the function is
    used on payloads that can be serialized. *)
Fixpoint wire (v : value) : option value :=
  match v with
  | VUndefined => None
  | VDate time =>
      Some (match toJSON time with Some text => VString text | None => VNull end)
  | VBuffer bytes =>
      Some (VObject [("type", VString "Buffer"); ("data", VArray (map VNumber bytes))])
  | VArray items =>
      Some (VArray (map (fun item => match wire item with
                                     | Some w => w
                                     | None => VNull
                                     end) items))
  | VObject fields =>
      Some (VObject (flat_map (fun kv => match wire (snd kv) with
                                         | Some w => [(fst kv, w)]
                                         | None => []
                                         end) fields))
  | _ => Some v
  end.

(** The properties of an object that come back. *)
Definition wireEntries (fields : list (string * value)) : list (string * value) :=
  flat_map (fun kv => match wire (snd kv) with
                      | Some w => [(fst kv, w)]
                      | None => []
                      end) fields.

(** [JSON.parse(body.toString())] for the body that [JSON.stringify]
    has made of a payload: the texts and the lists of texts come back
    as they are, [fingerprint] and [tags] are absent again when they
    were [undefined]. *)
Definition parse (body : NoticePayload) : NoticePayload :=
  {| error := error body;
     payload_context := wireEntries (payload_context body);
     payload_request := wireEntries (payload_request body);
     payload_user := wireEntries (payload_user body);
     notifier := notifier body |}.

(** [{ id, problem_id }] *)
Record ApiResponse : Type := {
  response_id : Z;
  response_problem_id : Z
}.

(** What [mockFetch] does with a request: it answers with status 201
    and the JSON text of a response, hands the request to the [fetch]
    that [setup] has replaced, or throws ['fetch not available']. *)
Inductive Answer : Type :=
| Created (response : ApiResponse)
| PassedOn
| NotAvailable.

(** [mockFetch(input, init)] on a request of the client, whose body is
    the text [JSON.stringify] has made of the payload: the body is not
    empty, it parses, and [captureFromPayload] reads the fields of a
    payload, so that nothing is thrown inside the [try].
    [originalFetch] tells whether [setup] has found a [fetch] to
    replace. *)
Definition mockFetch (originalFetch : bool) (request : Client.Request)
    (notices : list CapturedNotice) : list CapturedNotice * Answer :=
  if includes (Client.url request) "/ingest/v1/errors"
  then
    let notices := captureFromPayload (parse (Client.body request)) notices in
    (notices,
     Created {| response_id := Z.of_nat (List.length notices);
                response_problem_id := Z.of_nat (List.length notices) |})
  else if originalFetch then (notices, PassedOn)
  else (notices, NotAvailable).

(** A value that JSON gives back as it is: [null], a boolean, a
    number, a text, and the arrays and objects of such values. *)
Fixpoint stable (v : value) : Prop :=
  match v with
  | VNull | VBool _ | VNumber _ | VString _ => True
  | VArray items => fold_right (fun x acc => stable x /\ acc) True items
  | VObject fields => fold_right (fun kv acc => stable (snd kv) /\ acc) True fields
  | _ => False
  end.

Lemma wire_stable : forall v : value, stable v -> wire v = Some v.
Proof.
  fix IH 1. intros [ | | b | n | n | s | bytes | t | items | fields] Hs;
    try reflexivity; try contradiction.
  - cbn [wire]. do 2 f_equal. cbn [stable] in Hs.
    induction items as [|x items IHl]; [reflexivity|].
    destruct Hs as [Hx Hr]. cbn [map]. rewrite (IH x Hx), (IHl Hr). reflexivity.
  - cbn [wire]. do 2 f_equal. cbn [stable] in Hs.
    induction fields as [|[k x] fields IHl]; [reflexivity|].
    destruct Hs as [Hx Hr]. cbn [flat_map fst snd] in *.
    rewrite (IH x Hx), (IHl Hr). reflexivity.
Qed.

Lemma wireEntries_stable (fields : list (string * value)) :
  stable (VObject fields) -> wireEntries fields = fields.
Proof.
  intros Hs. pose proof (wire_stable (VObject fields) Hs) as E.
  cbn [wire] in E. now injection E.
Qed.

Lemma keys_wireEntries (fields : list (string * value)) (k : string) :
  In k (JSObject.keys (wireEntries fields)) -> In k (JSObject.keys fields).
Proof.
  unfold wireEntries. induction fields as [|[k0 v0] fields IH]; [tauto|].
  cbn [flat_map fst snd]. unfold JSObject.keys in *. rewrite map_app.
  intros Hin. apply in_app_or in Hin. destruct Hin as [Hin|Hin].
  - destruct (wire v0); [|contradiction]. destruct Hin as [<-|[]]. now left.
  - right. now apply IH.
Qed.

(** Under a key, what comes back is what the text of the value
    gives. *)
Lemma get_wireEntries (fields : list (string * value)) (k : string) :
  NoDup (JSObject.keys fields) ->
  JSObject.get (wireEntries fields) k =
  match JSObject.get fields k with
  | Some v => wire v
  | None => None
  end.
Proof.
  induction fields as [|[k0 v0] fields IH]; intros Hnd; [reflexivity|].
  inversion Hnd as [|? ? Hnot Hnd']; subst.
  change (wireEntries ((k0, v0) :: fields))
    with ((match wire v0 with Some w => [(k0, w)] | None => [] end)
          ++ wireEntries fields).
  cbn [JSObject.get]. destruct (String.eqb_spec k0 k) as [->|Hne].
  - destruct (wire v0) as [w|]; cbn [app JSObject.get].
    + now rewrite String.eqb_refl.
    + apply JSObject.get_absent. intro Hin. apply Hnot. now apply keys_wireEntries.
  - destruct (wire v0) as [w|]; cbn [app JSObject.get].
    + destruct (String.eqb_spec k0 k); [contradiction | now apply IH].
    + now apply IH.
Qed.

Lemma startsWith_same (s : string) : startsWith s s = true.
Proof.
  induction s as [|c s IH]; [reflexivity|].
  cbn [startsWith]. now rewrite Ascii.eqb_refl, IH.
Qed.

Lemma includes_append (a p : string) : includes (a ++ p) p = true.
Proof.
  induction a as [|c a IH].
  - cbn [append]. destruct p as [|c p]; [reflexivity|].
    cbn [includes]. now rewrite startsWith_same.
  - cbn [append includes]. rewrite IH. apply orb_true_r.
Qed.

(** X10. When the request the client builds for the payload of a
    notice, which goes to the ingest address, reaches [mockFetch], the
    answer is 201 with the number of notices as [id] and [problem_id],
    there is one notice more, and the last notice keeps of the
    original: the class, the message, the frames, the fingerprint, the
    time, and the tags, an empty list coming back as an empty list.
    Its context, request and user are what comes back from the JSON
    text of those of the payload: a property that holds [undefined] is
    gone, and the request and the user are those of the notice when
    they hold values that JSON gives back as they are.  Its
    environment is the one of the notice when that is set, and
    otherwise what comes back of what the context holds under that
    key. *)
Theorem capture_of_toPayload (VERSION process_version : string) (config : Configuration)
    (originalFetch : bool) (n : Notice) (notices : list CapturedNotice) :
  NoDup (JSObject.keys (context n)) ->
  Client.serializable (toPayload VERSION process_version n) = true ->
  let sent :=
    Client.requestFor VERSION process_version config
      (toPayload VERSION process_version n) in
  let notices' := fst (mockFetch originalFetch sent notices) in
  snd (mockFetch originalFetch sent notices)
  = Created {| response_id := noticeCount notices + 1;
               response_problem_id := noticeCount notices + 1 |} /\
  noticeCount notices' = noticeCount notices + 1 /\
  hasNotices notices' = true /\
  exists c,
    getLastNotice notices' = Some c /\
    captured_errorClass c = errorClass n /\
    captured_message c = message n /\
    captured_backtrace c = backtrace n /\
    captured_fingerprint c = fingerprint n /\
    captured_tags c = tags n /\
    captured_occurredAt c = occurredAt n /\
    captured_context c = wireEntries (payload_context (toPayload VERSION process_version n)) /\
    captured_request c = wireEntries (request n) /\
    captured_user c = wireEntries (user n) /\
    (stable (VObject (request n)) -> captured_request c = request n) /\
    (stable (VObject (user n)) -> captured_user c = user n) /\
    (NoDup (JSObject.keys (request n)) ->
     forall key, JSObject.get (request n) key = Some VUndefined ->
                 JSObject.get (captured_request c) key = None) /\
    captured_environment c =
      match present (environment n) with
      | Some e => Some (VString e)
      | None =>
          match JSObject.get (context n) "environment" with
          | Some v => wire v
          | None => None
          end
      end.
Proof.
  intros Hnd _ sent notices'. subst sent notices'. unfold mockFetch.
  cbn [Client.requestFor Client.url Client.body]. unfold ingestUrl.
  rewrite includes_append. cbn [fst snd].
  unfold captureFromPayload, noticeCount, hasNotices.
  rewrite length_app. cbn [List.length].
  replace (Z.of_nat (List.length notices + 1)) with (Z.of_nat (List.length notices) + 1)
    by lia.
  split; [reflexivity|]. split; [reflexivity|].
  split; [destruct (Z.gtb_spec (Z.of_nat (List.length notices) + 1) 0);
          [reflexivity | lia]|].
  eexists. split; [apply getLastNotice_app|].
  cbn [parse toPayload error payload_context payload_request payload_user class
         payload_message payload_backtrace payload_fingerprint payload_tags
         occurred_at captured_errorClass captured_message captured_backtrace
         captured_fingerprint captured_tags captured_request captured_user
         captured_context captured_occurredAt captured_environment].
  repeat (split; [reflexivity|]).
  split; [destruct (tags n); reflexivity|].
  split; [reflexivity|]. split; [reflexivity|]. split; [reflexivity|].
  split; [reflexivity|].
  split; [apply wireEntries_stable|]. split; [apply wireEntries_stable|].
  split.
  { intros Hreq key Hkey. now rewrite (get_wireEntries _ key Hreq), Hkey. }
  rewrite get_wireEntries
    by (do 3 apply JSObject.keys_spread_distinct;
        rewrite (spread_nil_distinct _ Hnd); exact Hnd).
  rewrite (spread_nil_distinct _ Hnd), !get_spread_optionalEntry. simpl.
  destruct (present (revision n)), (present (appName n)), (present (environment n));
    reflexivity.
Qed.

End Wire.

Lemma capture_of_toPayload_witness :
  let n :=
    {| errorClass := "Error"; message := "Test error"; backtrace := [];
       fingerprint := None; tags := ["test"];
       context := [("key", VString "value")];
       request := [("url", VString "/orders"); ("referer", VUndefined)];
       user := [("id", VString "user-1")];
       environment := Some "test"; occurredAt := "2024-01-01T00:00:00.000Z";
       appName := None; revision := None |} in
  exists c,
    getLastNotice
      (fst (mockFetch (fun _ => None) false
              (Client.requestFor "1.0.0" "v18.0.0" Client.sample_config
                 (toPayload "1.0.0" "v18.0.0" n)) []))
    = Some c /\
    captured_tags c = ["test"] /\
    captured_request c = [("url", VString "/orders")] /\
    captured_user c = [("id", VString "user-1")] /\
    captured_environment c = Some (VString "test").
Proof.
  intros n.
  assert (Hnd : NoDup (JSObject.keys (context n))).
  { repeat constructor. simpl. tauto. }
  destruct (capture_of_toPayload (fun _ => None) "1.0.0" "v18.0.0" Client.sample_config
              false n [] Hnd eq_refl)
    as (_ & _ & _ & c & Hlast & _ & _ & _ & _ & Htags & _ & _ & Hreq & _ & _ & Huser
        & _ & Henv).
  exists c. split; [exact Hlast|]. split; [exact Htags|].
  split; [exact Hreq|]. split; [apply Huser; simpl; tauto | exact Henv].
Defined.

End Testing.

(* ================================================================== *)
(** ** src/client.ts: the shape of the trace of one call *)
(* ================================================================== *)

Module ClientFacts.
Import JSString JSValue Notice Effect Configuration Client.

Local Open Scope list_scope.

(** The events between arming the timer and the log entry are the
    network attempt and the disarming of the timer. *)
Definition quiet (request : Request) (ev : Event) : Prop :=
  ev = Fetch request \/ ev = ClearTimeout.

(** The level at which [handleResponse] reports a status other than 201. *)
Definition isWarned (status : Z) : bool :=
  (status =? 400)%Z || (status =? 422)%Z || (status =? 429)%Z.

Section Shape.

Variables (VERSION process_version : string).
Variable fetch : Request -> Completion Response.
Variable stack : nat.
Variables (config : Configuration) (payload : NoticePayload).

Let request : Request := requestFor VERSION process_version config payload.
Let outcome : Completion (option value) * list Event :=
  run (send VERSION process_version fetch stack config payload).

Ltac step_send :=
  subst outcome request;
  cbv [run send requestFor handleResponse JSON_stringify getProperty await
       ToString log logWarn logError bind tryCatch emit ret throw fst snd app].

Ltac shape mid lvl msg :=
  exists mid, lvl, msg;
  split; [reflexivity|];
  split; [repeat constructor; (now left) || (now right)|];
  split; [simpl; tauto|];
  split; [intros H; discriminate H | intros (v' & H); discriminate H].

(** X11. Whatever the network does, one call of [send] arms the timer
    first, then does nothing but the network attempt and disarming the
    timer, which it does at least once, and ends with exactly one log
    entry; that entry is at debug level exactly when the call returns a
    parsed body. *)
Theorem send_trace_shape :
  exists mid lvl msg,
    snd outcome = SetTimeout (timeout config) :: mid ++ [Log lvl msg] /\
    Forall (quiet request) mid /\
    In ClearTimeout mid /\
    (lvl = Debug <-> exists v, fst outcome = Normal (Some v)).
Proof.
  step_send.
  destruct (serializable payload).
  2:{ shape [ClearTimeout] Error
        (FailedToSend "TypeError: Do not know how to serialize a BigInt"). }
  match goal with |- context [fetch ?r] => destruct (fetch r) as [resp|e] end.
  2:{ destruct (instanceofError e && String.eqb (thrown_name e) "AbortError").
      - shape [Fetch (requestFor VERSION process_version config payload); ClearTimeout]
          Error RequestTimeout.
      - shape [Fetch (requestFor VERSION process_version config payload); ClearTimeout]
          Error (FailedToSend (thrown_text e)). }
  destruct (status resp =? 201)%Z.
  - destruct (json resp) as [v|e].
    + destruct v; cbn -[toText];
        repeat match goal with
               | |- context [toText stack ?x] =>
                   destruct (toText stack x) as [?|?e]; cbn -[toText]
               end;
        first
          [ eexists [Fetch (requestFor VERSION process_version config payload);
                     ClearTimeout], Debug, _;
            split; [reflexivity|];
            split; [repeat constructor; (now left) || (now right)|];
            split; [simpl; tauto|];
            split; [intros _; eexists; reflexivity | reflexivity]
          | shape [Fetch (requestFor VERSION process_version config payload);
                   ClearTimeout; ClearTimeout]
              Error (FailedToSend "TypeError: Cannot read properties of null")
          | match goal with
            | |- context [instanceofError ?e && ?b] =>
                destruct (instanceofError e && b);
                [ shape [Fetch (requestFor VERSION process_version config payload);
                         ClearTimeout; ClearTimeout] Error RequestTimeout
                | shape [Fetch (requestFor VERSION process_version config payload);
                         ClearTimeout; ClearTimeout] Error (FailedToSend (thrown_text e)) ]
            end ].
    + destruct (instanceofError e && String.eqb (thrown_name e) "AbortError").
      * shape [Fetch (requestFor VERSION process_version config payload);
               ClearTimeout; ClearTimeout] Error RequestTimeout.
      * shape [Fetch (requestFor VERSION process_version config payload);
               ClearTimeout; ClearTimeout] Error (FailedToSend (thrown_text e)).
  - destruct (text resp) as [b|e];
      destruct (status resp =? 400)%Z, (status resp =? 401)%Z,
        (status resp =? 422)%Z, (status resp =? 429)%Z, (status resp >=? 500)%Z;
      eexists [Fetch (requestFor VERSION process_version config payload);
               ClearTimeout], _, _;
      (split; [reflexivity|];
       split; [repeat constructor; (now left) || (now right)|];
       split; [simpl; tauto|];
       split; [intros H; discriminate H | intros (v' & H); discriminate H]).
Qed.

(** X12. An answer with a status other than 201 gives [null] after one
    attempt and one log entry, whether its body can be read or not; the
    entry is a warning for the statuses 400, 422 and 429 and an error
    for every other status. *)
Theorem send_status_level (resp : Response) :
  serializable payload = true ->
  fetch request = Normal resp ->
  status resp <> 201 ->
  exists msg,
    outcome = (Normal None,
               [SetTimeout (timeout config); Fetch request; ClearTimeout;
                Log (if isWarned (status resp) then Warn else Error) msg]).
Proof.
  intros Hs Hf Hst. revert Hf. step_send. rewrite Hs. intros ->.
  apply Z.eqb_neq in Hst. rewrite Hst. unfold isWarned.
  destruct (text resp) as [b|e];
    destruct (status resp =? 400)%Z eqn:E400, (status resp =? 401)%Z eqn:E401,
      (status resp =? 422)%Z eqn:E422, (status resp =? 429)%Z eqn:E429,
      (status resp >=? 500)%Z;
    try (eexists; reflexivity);
    exfalso; lia.
Qed.

End Shape.

(** A 429 answer whose body cannot be read. *)
Definition rate_limited : Response :=
  {| status := 429;
     json := Normal VNull;
     text := Abrupt {| instanceofError := true;
                       thrown_name := "TypeError";
                       thrown_message := "body used already";
                       thrown_text := "TypeError: body used already" |} |}.

Lemma send_status_level_witness :
  exists msg,
    run (send "1.0.0" "v18.0.0" (fun _ => Normal rate_limited) 1000
           sample_config sample_payload) =
    (Normal None,
     [SetTimeout 15000;
      Fetch (requestFor "1.0.0" "v18.0.0" sample_config sample_payload);
      ClearTimeout; Log Warn msg]).
Proof.
  apply (send_status_level "1.0.0" "v18.0.0" (fun _ => Normal rate_limited) 1000
           sample_config sample_payload rate_limited).
  - reflexivity.
  - reflexivity.
  - simpl. discriminate.
Defined.

End ClientFacts.

(* ================================================================== *)
(** ** src/configuration.ts: the settings read outside the pipeline *)
(* ================================================================== *)

Module Settings.
Import JSString JSValue RegExp Sanitize Notice Configuration SanitizeFacts.

Local Open Scope list_scope.

Definition DEFAULT_FILTER_KEYS : list string :=
  ["password"; "password_confirmation"; "passwd"; "secret"; "token";
   "api_key"; "apiKey"; "access_token"; "accessToken"; "refresh_token";
   "refreshToken"; "authorization"; "bearer"; "credit_card"; "creditCard";
   "card_number"; "cardNumber"; "cvv"; "cvc"; "ssn"].

Definition DEFAULT_IGNORED_EXCEPTIONS : list string :=
  ["ECONNRESET"; "ECONNREFUSED"; "ETIMEDOUT"; "EPIPE"].

(** An entry of [ignoredExceptions]: a string, or a [RegExp] without
    the [g] and [y] flags, given by what its [test] answers. *)
Inductive Pattern : Type :=
| Text (s : string)
| Expression (test : string -> bool).

(** Options and fields of the configuration that the record of the
    module [Configuration] leaves out. *)
Record SettingsOptions : Type := {
  options_environment : option string;
  options_enabled : option bool;
  options_ignoredExceptions : option (list Pattern);
  options_filterKeys : option (list string);
  options_async : option bool;
  options_appName : option string;
  options_revision : option string;
  options_sendRequestData : option bool;
  options_sendEnvironmentData : option bool;
  options_sendUserData : option bool
}.

Record Settings : Type := {
  environment : string;
  _enabled : option bool;
  ignoredExceptions : list Pattern;
  filterKeys : list string;
  async : bool;
  appName : option string;
  revision : option string;
  sendRequestData : bool;
  sendEnvironmentData : bool;
  sendUserData : bool
}.

Definition detectEnvironment (env : string -> option string) : string :=
  orString (env "CHECKEND_ENVIRONMENT") (orString (env "NODE_ENV") "development").

(** [a || b] where both may be unset. *)
Definition orOption (a b : option string) : option string :=
  match present a with Some s => Some s | None => b end.

(** The constructor, for the settings that [notify], the filter and
    the integrations read; [env] is [process.env]. *)
Definition new (env : string -> option string) (options : SettingsOptions) : Settings :=
  {| environment := orString (options_environment options) (detectEnvironment env);
     _enabled := options_enabled options;
     ignoredExceptions :=
       map Text DEFAULT_IGNORED_EXCEPTIONS ++ nullish (options_ignoredExceptions options) [];
     filterKeys := DEFAULT_FILTER_KEYS ++ nullish (options_filterKeys options) [];
     async := nullish (options_async options) true;
     appName := orOption (options_appName options) (env "CHECKEND_APP_NAME");
     revision := orOption (options_revision options) (env "CHECKEND_REVISION");
     sendRequestData := nullish (options_sendRequestData options) true;
     sendEnvironmentData := nullish (options_sendEnvironmentData options) false;
     sendUserData := nullish (options_sendUserData options) true |}.

Definition isValid (config : Configuration) : bool :=
  truthy (apiKey config) && truthy (endpoint config).

Definition isProductionOrStaging (settings : Settings) : bool :=
  existsb (String.eqb (environment settings)) ["production"; "staging"].

Definition enabled (settings : Settings) : bool :=
  match _enabled settings with
  | Some b => b
  | None => isProductionOrStaging settings
  end.

(** [code === pattern], where [code] may be [undefined]. *)
Definition codeIs (code : option string) (pattern : string) : bool :=
  match code with Some c => String.eqb c pattern | None => false end.

Definition shouldIgnore (settings : Settings) (errorClass message : string)
    (code : option string) : bool :=
  existsb
    (fun pattern =>
       match pattern with
       | Text pattern =>
           String.eqb errorClass pattern || String.eqb message pattern
           || codeIs code pattern
       | Expression test =>
           test errorClass || test message
           || match present code with Some c => test c | None => false end
       end)
    (ignoredExceptions settings).

(** Membership in a list of strings, as a boolean. *)
Definition member (s : string) (l : list string) : bool := existsb (String.eqb s) l.

Definition codeIn (code : option string) (l : list string) : bool :=
  match code with Some c => member c l | None => false end.

Lemma truthy_orString (a : option string) (b : string) :
  truthy b = true -> truthy (orString a b) = true.
Proof.
  intros Hb. unfold orString, present. destruct a as [s|]; [|exact Hb].
  destruct (truthy s) eqn:E; [exact E | exact Hb].
Qed.

Lemma existsb_texts (errorClass message : string) (code : option string)
    (texts : list string) :
  existsb
    (fun pattern =>
       match pattern with
       | Text pattern =>
           String.eqb errorClass pattern || String.eqb message pattern
           || codeIs code pattern
       | Expression test =>
           test errorClass || test message
           || match present code with Some c => test c | None => false end
       end)
    (map Text texts)
  = member errorClass texts || member message texts || codeIn code texts.
Proof.
  induction texts as [|t texts IH].
  - destruct code; reflexivity.
  - cbn [map existsb]. rewrite IH. unfold codeIn, codeIs, member.
    destruct code as [c|]; cbn [existsb];
      destruct (String.eqb errorClass t), (String.eqb message t);
      try destruct (String.eqb c t);
      cbn [orb]; rewrite ?orb_true_r, ?orb_false_r; try reflexivity.
    all: destruct (existsb (String.eqb errorClass) texts); reflexivity.
Qed.

(** X13. A configuration is valid exactly when an API key that is not
    empty is given, in the options or else in [CHECKEND_API_KEY]: the
    endpoint falls back to the default and never makes it invalid. *)
Theorem isValid_apiKey (env : string -> option string) (cwd : string)
    (options : ConfigOptions) :
  isValid (Configuration.new env cwd options) =
  truthy (options_apiKey options)
  || match env "CHECKEND_API_KEY" with Some key => truthy key | None => false end.
Proof.
  unfold isValid, Configuration.new. cbn [apiKey endpoint].
  rewrite (truthy_orString (options_endpoint options))
    by (apply truthy_orString; reflexivity).
  rewrite andb_true_r. unfold orString at 1. cbn [present].
  destruct (truthy (options_apiKey options)) eqn:E; [exact E|].
  cbn [orb]. unfold orString, present.
  destruct (env "CHECKEND_API_KEY") as [key|]; [|reflexivity].
  destruct (truthy key) eqn:Ek; [exact Ek | reflexivity].
Qed.

(** X14. With string patterns only, an error is ignored exactly when its
    class, its message or its code is, as a whole, one of the four
    default codes or one of the given strings; the defaults cannot be
    removed by the options. *)
Theorem shouldIgnore_texts (env : string -> option string) (options : SettingsOptions)
    (texts : list string) (errorClass message : string) (code : option string) :
  options_ignoredExceptions options = Some (map Text texts) ->
  shouldIgnore (new env options) errorClass message code =
  member errorClass (DEFAULT_IGNORED_EXCEPTIONS ++ texts)
  || member message (DEFAULT_IGNORED_EXCEPTIONS ++ texts)
  || codeIn code (DEFAULT_IGNORED_EXCEPTIONS ++ texts).
Proof.
  intros Ho. unfold shouldIgnore, new. cbn [ignoredExceptions]. rewrite Ho.
  cbn [nullish]. rewrite <- map_app. apply existsb_texts.
Qed.

Definition no_options : SettingsOptions :=
  {| options_environment := None; options_enabled := None;
     options_ignoredExceptions := Some (map Text ["CustomError"]);
     options_filterKeys := None; options_async := None;
     options_appName := None; options_revision := None;
     options_sendRequestData := None; options_sendEnvironmentData := None;
     options_sendUserData := None |}.

Lemma shouldIgnore_texts_witness :
  shouldIgnore (new (fun _ => None) no_options) "Error" "failed" (Some "ECONNRESET") = true /\
  shouldIgnore (new (fun _ => None) no_options) "Error" "ECONNRESET by peer" None = false.
Proof.
  rewrite !(shouldIgnore_texts (fun _ => None) no_options ["CustomError"] _ _ _ eq_refl).
  split; reflexivity.
Defined.

(** X15. Whatever filter keys the options give, the filter built from
    [config.filterKeys] exists, and it filters a key exactly when the
    key is not empty and, letter case apart, one of the twenty default
    keys or one of the given keys occurs in it. *)
Theorem filterKeys_defaults (env : string -> option string) (options : SettingsOptions) :
  exists f,
    Sanitize.new (filterKeys (new env options)) = Some f /\
    forall key,
      shouldFilter f key =
      negb (String.eqb key EmptyString) &&
      (existsb (fun k => includes (canonString (toLowerCase key))
                           (canonString (toLowerCase k))) DEFAULT_FILTER_KEYS
       || existsb (fun k => includes (canonString (toLowerCase key))
                              (canonString (toLowerCase k)))
            (nullish (options_filterKeys options) [])).
Proof.
  destruct (new_total (filterKeys (new env options))) as [f Hf].
  exists f. split; [exact Hf|]. intros key.
  rewrite (shouldFilter_includes _ f key Hf). cbn [new filterKeys].
  now rewrite existsb_app.
Qed.

End Settings.

(* ================================================================== *)
(** ** src/index.ts: the context store *)
(* ================================================================== *)

Module Scope.
Import JSString JSValue Notice.

Local Open Scope list_scope.

(** The prototype of an object of the store: [Object.prototype], as
    [{}] has it, none, or the object that an assignment to [__proto__]
    has made the prototype. *)
Inductive Prototype : Type :=
| ObjectPrototype
| NoPrototype
| Given (proto : value).

(** An object of the store: its own properties, which is what the
    spreads of [getContext] and [notify] read of it, and its prototype,
    on which what an assignment does depends. *)
Record Target : Type := {
  own : list (string * value);
  prototype : Prototype
}.

(** [{}] *)
Definition empty : Target := {| own := []; prototype := ObjectPrototype |}.

(** The object [runWithContext] hands to [asyncLocalStorage.run]. *)
Record Store : Type := {
  store_context : Target;
  store_user : Target;
  store_request : Target
}.

(** [globalContext], [globalUser], and what
    [asyncLocalStorage.getStore()] answers where the code runs. *)
Record State : Type := {
  globalContext : Context;
  globalUser : User;
  getStore : option Store
}.

Definition initial : State :=
  {| globalContext := []; globalUser := []; getStore := None |}.

(** What an assignment [target[key] = v] does when [target] does not
    own [key] and finds it through a Buffer: a property is defined,
    nothing is, or a [TypeError] is thrown. *)
Inductive Outcome : Type := Defines | Ignores | Throws.

Section Host.

(** The rules of typed arrays for such an assignment (an index out of
    range, a name like [length] that has a getter only) are those of
    the host: [typedArraySet bytes key] is what the assignment of a key
    other than [__proto__] does on an object that inherits from a
    Buffer of these bytes. *)
Variable typedArraySet : list Z -> string -> Outcome.

(** The setter of [Object.prototype.__proto__]: an object or [null]
    becomes the prototype, any other value is ignored. *)
Definition setPrototype (v : value) (target : Target) : Target :=
  match v with
  | VObject _ | VArray _ | VBuffer _ | VDate _ =>
      {| own := own target; prototype := Given v |}
  | VNull => {| own := own target; prototype := NoPrototype |}
  | _ => target
  end.

(** The own property [key] is written or created. *)
Definition define (key : string) (v : value) (target : Target) : Target :=
  {| own := JSObject.set (own target) key v; prototype := prototype target |}.

(** [target[key] = v] in strict code, with whether it throws.  An own
    property is written.  Otherwise the key is looked up along the
    prototypes: a data property found there, or nothing found, makes
    the assignment define an own property; the accessor [__proto__] of
    [Object.prototype], when it is reached, runs its setter and no
    property is defined. *)
Definition assignKey (target : Target) (key : string) (v : value) : Target * bool :=
  if existsb (String.eqb key) (JSObject.keys (own target))
  then (define key v target, false)
  else
    match prototype target with
    | NoPrototype => (define key v target, false)
    | ObjectPrototype =>
        if JSObject.isProto key then (setPrototype v target, false)
        else (define key v target, false)
    | Given (VBuffer bytes) =>
        if JSObject.isProto key then (setPrototype v target, false)
        else
          match typedArraySet bytes key with
          | Defines => (define key v target, false)
          | Ignores => (target, false)
          | Throws => (target, true)
          end
    | Given (VObject fields) =>
        if JSObject.isProto key
           && negb (existsb (String.eqb key) (JSObject.keys fields))
        then (setPrototype v target, false)
        else (define key v target, false)
    | Given _ =>
        if JSObject.isProto key then (setPrototype v target, false)
        else (define key v target, false)
    end.

(** [Object.assign(target, source)]: the properties of [source] are
    assigned to [target] one by one, up to the first that throws. *)
Fixpoint assign (target : Target) (source : list (string * value)) : Target * bool :=
  match source with
  | [] => (target, false)
  | (key, v) :: rest =>
      let (target', threw) := assignKey target key v in
      if threw then (target', true) else assign target' rest
  end.

(** The three setters.  Inside a store a [TypeError] of
    [Object.assign] leaves the properties assigned so far; the state
    is the one a caller that catches the error goes on with. *)
Definition setContext (context : Context) (st : State) : State :=
  match getStore st with
  | Some store =>
      {| globalContext := globalContext st;
         globalUser := globalUser st;
         getStore := Some {| store_context := fst (assign (store_context store) context);
                             store_user := store_user store;
                             store_request := store_request store |} |}
  | None =>
      {| globalContext := JSObject.spread (JSObject.spread [] (globalContext st)) context;
         globalUser := globalUser st;
         getStore := None |}
  end.

Definition setUser (user : User) (st : State) : State :=
  match getStore st with
  | Some store =>
      {| globalContext := globalContext st;
         globalUser := globalUser st;
         getStore := Some {| store_context := store_context store;
                             store_user := fst (assign (store_user store) user);
                             store_request := store_request store |} |}
  | None =>
      {| globalContext := globalContext st;
         globalUser := JSObject.spread (JSObject.spread [] (globalUser st)) user;
         getStore := None |}
  end.

Definition setRequest (request : RequestInfo) (st : State) : State :=
  match getStore st with
  | Some store =>
      {| globalContext := globalContext st;
         globalUser := globalUser st;
         getStore := Some {| store_context := store_context store;
                             store_user := store_user store;
                             store_request :=
                               fst (assign (store_request store) request) |} |}
  | None => st
  end.

Definition getContext (st : State) : Context :=
  JSObject.spread (JSObject.spread [] (globalContext st))
    (match getStore st with Some store => own (store_context store) | None => [] end).

Definition getUser (st : State) : User :=
  JSObject.spread (JSObject.spread [] (globalUser st))
    (match getStore st with Some store => own (store_user store) | None => [] end).

Definition clear (st : State) : State :=
  match getStore st with
  | Some _ =>
      {| globalContext := globalContext st;
         globalUser := globalUser st;
         getStore := Some {| store_context := empty; store_user := empty;
                             store_request := empty |} |}
  | None => {| globalContext := []; globalUser := []; getStore := None |}
  end.

(** What a callback can do to the store, through the functions the
    module exports. *)
Inductive Call : Type :=
| SetContext (context : Context)
| SetUser (user : User)
| SetRequest (request : RequestInfo)
| Clear
| RunWithContext (callback : list Call).

(** [runWithContext(callback)]: the callback runs with a fresh store
    as the current one; the store of the caller is the current one
    again when it returns. *)
Fixpoint call (c : Call) (st : State) : State :=
  match c with
  | SetContext context => setContext context st
  | SetUser user => setUser user st
  | SetRequest request => setRequest request st
  | Clear => clear st
  | RunWithContext callback =>
      let inside :=
        fold_left (fun s c => call c s) callback
          {| globalContext := globalContext st;
             globalUser := globalUser st;
             getStore := Some {| store_context := empty; store_user := empty;
                                 store_request := empty |} |} in
      {| globalContext := globalContext inside;
         globalUser := globalUser inside;
         getStore := getStore st |}
  end.

Definition runWithContext (callback : list Call) (st : State) : State :=
  call (RunWithContext callback) st.

Definition calls (cs : list Call) (st : State) : State :=
  fold_left (fun s c => call c s) cs st.

End Host.

(** The objects of the state have pairwise distinct keys. *)
Definition Distinct (st : State) : Prop :=
  NoDup (JSObject.keys (globalContext st)) /\
  NoDup (JSObject.keys (globalUser st)) /\
  match getStore st with
  | Some store =>
      NoDup (JSObject.keys (own (store_context store))) /\
      NoDup (JSObject.keys (own (store_user store))) /\
      NoDup (JSObject.keys (own (store_request store)))
  | None => True
  end.

(** The prototype is no Buffer: an assignment of a key other than
    [__proto__] defines an own property. *)
Definition regular (p : Prototype) : Prop :=
  match p with
  | Given (VBuffer _) => False
  | _ => True
  end.

(** [Object.assign(target, data)] meets no Buffer. *)
Definition ordinary (target : Target) (data : list (string * value)) : Prop :=
  regular (prototype target) /\ forall bytes, ~ In (JSObject.PROTO, VBuffer bytes) data.

(** *** Lookup in a spread *)

Lemma get_app_last {A : Type} (o : list (string * A)) (k0 : string) (v0 : A) (k : string) :
  JSObject.get (o ++ [(k0, v0)]) k =
  match JSObject.get o k with
  | Some v => Some v
  | None => if String.eqb k0 k then Some v0 else None
  end.
Proof.
  induction o as [|[k1 v1] o IH]; simpl; [reflexivity|].
  destruct (String.eqb k1 k); [reflexivity | exact IH].
Qed.

Lemma get_spread_rev {A : Type} (b : list (string * A)) :
  forall (a : list (string * A)) (k : string),
    JSObject.get (JSObject.spread a b) k =
    match JSObject.get (rev b) k with
    | Some v => Some v
    | None => JSObject.get a k
    end.
Proof.
  unfold JSObject.spread.
  induction b as [|[k0 v0] b IH]; intros a k; [reflexivity|].
  cbn [fold_left fst snd rev]. rewrite IH, get_app_last.
  destruct (JSObject.get (rev b) k); [reflexivity|].
  destruct (String.eqb_spec k0 k) as [->|Hne].
  - apply JSObject.get_set_eq.
  - now apply JSObject.get_set_neq.
Qed.

Lemma get_none_not_in {A : Type} (o : list (string * A)) (k : string) :
  JSObject.get o k = None <-> ~ In k (JSObject.keys o).
Proof.
  induction o as [|[k0 v0] o IH]; simpl; [tauto|].
  destruct (String.eqb_spec k0 k) as [->|Hne].
  - split; [discriminate | tauto].
  - rewrite IH. tauto.
Qed.

Lemma get_rev {A : Type} (o : list (string * A)) (k : string) :
  NoDup (JSObject.keys o) -> JSObject.get (rev o) k = JSObject.get o k.
Proof.
  induction o as [|[k0 v0] o IH]; intros Hnd; [reflexivity|].
  inversion Hnd as [|? ? Hnot Hnd']; subst.
  cbn [rev]. rewrite get_app_last, (IH Hnd'). simpl.
  destruct (String.eqb_spec k0 k) as [->|Hne].
  - apply get_none_not_in in Hnot. now rewrite Hnot.
  - destruct (JSObject.get o k); reflexivity.
Qed.

Lemma get_spread {A : Type} (a b : list (string * A)) (k : string) :
  NoDup (JSObject.keys b) ->
  JSObject.get (JSObject.spread a b) k =
  match JSObject.get b k with
  | Some v => Some v
  | None => JSObject.get a k
  end.
Proof. intros Hnd. now rewrite get_spread_rev, get_rev. Qed.

Lemma get_spread_nil {A : Type} (o : list (string * A)) (k : string) :
  JSObject.get (JSObject.spread [] o) k = JSObject.get (rev o) k.
Proof. rewrite get_spread_rev. now destruct (JSObject.get (rev o) k). Qed.

(** *** What an assignment reaches *)

Section Assignments.

Variable typedArraySet : list Z -> string -> Outcome.

Lemma own_setPrototype (v : value) (target : Target) :
  own (setPrototype v target) = own target.
Proof. destruct v; reflexivity. Qed.

Lemma regular_setPrototype (v : value) (target : Target) :
  regular (prototype target) -> (forall bytes, v <> VBuffer bytes) ->
  regular (prototype (setPrototype v target)).
Proof.
  intros Hr Hv. destruct v; cbn; try exact Hr; try exact I.
  exact (Hv _ eq_refl).
Qed.

(** The own properties after one assignment are those before, or those
    before with the key written. *)
Lemma assignKey_own (target : Target) (key : string) (v : value) :
  own (fst (assignKey typedArraySet target key v)) = own target \/
  own (fst (assignKey typedArraySet target key v)) = JSObject.set (own target) key v.
Proof.
  unfold assignKey.
  destruct (existsb (String.eqb key) (JSObject.keys (own target))); [now right|].
  destruct (prototype target) as [| |[ | | | | | | bytes | | | fields]];
    try (destruct (JSObject.isProto key); cbn [fst];
         rewrite ?own_setPrototype; now (left + right)).
  - destruct (JSObject.isProto key); cbn [fst]; rewrite ?own_setPrototype; [now left|].
    destruct (typedArraySet bytes key); now (left + right).
  - destruct (JSObject.isProto key
              && negb (existsb (String.eqb key) (JSObject.keys fields)));
      cbn [fst]; rewrite ?own_setPrototype; now (left + right).
Qed.

Lemma assignKey_distinct (target : Target) (key : string) (v : value) :
  NoDup (JSObject.keys (own target)) ->
  NoDup (JSObject.keys (own (fst (assignKey typedArraySet target key v)))).
Proof.
  intros Hnd. destruct (assignKey_own target key v) as [E|E]; rewrite E.
  - exact Hnd.
  - now apply JSObject.keys_set_distinct.
Qed.

Lemma assign_distinct (source : list (string * value)) :
  forall target : Target,
    NoDup (JSObject.keys (own target)) ->
    NoDup (JSObject.keys (own (fst (assign typedArraySet target source)))).
Proof.
  induction source as [|[key v] rest IH]; intros target Hnd; [exact Hnd|].
  cbn [assign]. pose proof (assignKey_distinct target key v Hnd) as Hk.
  destruct (assignKey typedArraySet target key v) as [target' threw].
  cbn [fst] in Hk. destruct threw; [exact Hk | now apply IH].
Qed.

(** Where no Buffer is met, a key other than [__proto__] is defined. *)
Lemma assignKey_regular (target : Target) (key : string) (v : value) :
  regular (prototype target) -> key <> JSObject.PROTO ->
  assignKey typedArraySet target key v = (define key v target, false).
Proof.
  intros Hr Hk. unfold assignKey.
  assert (E : JSObject.isProto key = false) by now apply String.eqb_neq.
  rewrite E. cbn [andb].
  destruct (existsb (String.eqb key) (JSObject.keys (own target))); [reflexivity|].
  destruct (prototype target) as [| |[ | | | | | | bytes | | | fields]];
    try reflexivity.
  contradiction.
Qed.

(** The key [__proto__] is defined or sets the prototype; it does not
    throw, and leaves the other properties as they are. *)
Lemma assignKey_proto (target : Target) (v : value) :
  snd (assignKey typedArraySet target JSObject.PROTO v) = false /\
  (forall k, k <> JSObject.PROTO ->
     JSObject.get (own (fst (assignKey typedArraySet target JSObject.PROTO v))) k
     = JSObject.get (own target) k) /\
  (regular (prototype target) -> (forall bytes, v <> VBuffer bytes) ->
   regular (prototype (fst (assignKey typedArraySet target JSObject.PROTO v)))).
Proof.
  unfold assignKey. change (JSObject.isProto JSObject.PROTO) with true. cbn [andb].
  assert (D : forall k, k <> JSObject.PROTO ->
                JSObject.get (own (define JSObject.PROTO v target)) k
                = JSObject.get (own target) k).
  { intros k Hk. cbn [define own]. apply JSObject.get_set_neq. congruence. }
  assert (S : forall k : string,
                JSObject.get (own (setPrototype v target)) k
                = JSObject.get (own target) k).
  { intros k. now rewrite own_setPrototype. }
  destruct (existsb (String.eqb JSObject.PROTO) (JSObject.keys (own target)));
    [repeat split; auto|].
  destruct (prototype target) as [| |[ | | | | | | bytes | | | fields]] eqn:Ep;
    try (repeat split; auto; intros Hr Hv;
         apply regular_setPrototype; [rewrite Ep; exact I | exact Hv]).
  - repeat split; auto. intros _ _. cbn [define prototype fst]. now rewrite Ep.
  - repeat split; auto. intros Hr. contradiction.
  - destruct (negb (existsb (String.eqb JSObject.PROTO) (JSObject.keys fields)));
      repeat split; auto; intros Hr Hv.
    + apply regular_setPrototype; [rewrite Ep; exact I | exact Hv].
    + cbn [define prototype fst]. now rewrite Ep.
Qed.

(** Where [Object.assign] meets no Buffer it does not throw, and at
    every key but [__proto__] the target holds the value of the source,
    or what it held when the source has none. *)
Lemma assign_ordinary (source : list (string * value)) :
  forall (target : Target) (k : string),
    NoDup (JSObject.keys source) ->
    ordinary target source ->
    k <> JSObject.PROTO ->
    snd (assign typedArraySet target source) = false /\
    JSObject.get (own (fst (assign typedArraySet target source))) k =
    match JSObject.get source k with
    | Some v => Some v
    | None => JSObject.get (own target) k
    end.
Proof.
  induction source as [|[key v] rest IH]; intros target k Hnd [Hr Hb] Hk;
    [split; reflexivity|].
  inversion Hnd as [|? ? Hnot Hnd']; subst. cbn [assign JSObject.get].
  assert (Hb' : forall bytes, ~ In (JSObject.PROTO, VBuffer bytes) rest).
  { intros bytes Hin. apply (Hb bytes). now right. }
  destruct (String.eqb_spec key JSObject.PROTO) as [->|Hkey].
  - destruct (assignKey_proto target v) as (Hs & Hg & Hreg).
    destruct (assignKey typedArraySet target JSObject.PROTO v) as [target' threw].
    cbn [fst snd] in Hs, Hg, Hreg. subst threw.
    assert (Hr' : regular (prototype target')).
    { apply Hreg; [exact Hr|]. intros bytes ->. apply (Hb bytes). now left. }
    destruct (IH target' k Hnd' (conj Hr' Hb') Hk) as (E1 & E2).
    split; [exact E1|]. rewrite E2, (Hg k Hk).
    destruct (String.eqb_spec JSObject.PROTO k) as [E|_]; [congruence | reflexivity].
  - rewrite (assignKey_regular target key v Hr Hkey).
    destruct (IH (define key v target) k Hnd' (conj Hr Hb') Hk) as (E1 & E2).
    split; [exact E1|]. rewrite E2. cbn [define own].
    destruct (String.eqb_spec key k) as [->|Hne].
    + apply get_none_not_in in Hnot. rewrite Hnot. apply JSObject.get_set_eq.
    + rewrite (JSObject.get_set_neq _ _ _ _ Hne). reflexivity.
Qed.

(** On an object that has [Object.prototype] for prototype and no own
    [__proto__], [Object.assign] defines no property [__proto__]. *)
Lemma assign_no_proto (source : list (string * value)) :
  forall target : Target,
    NoDup (JSObject.keys source) ->
    JSObject.get (own target) JSObject.PROTO = None ->
    prototype target = ObjectPrototype \/ ~ In JSObject.PROTO (JSObject.keys source) ->
    JSObject.get (own (fst (assign typedArraySet target source))) JSObject.PROTO = None.
Proof.
  induction source as [|[key v] rest IH]; intros target Hnd Hown Hp; [exact Hown|].
  inversion Hnd as [|? ? Hnot Hnd']; subst. cbn [assign].
  destruct (String.eqb_spec key JSObject.PROTO) as [->|Hkey].
  - destruct Hp as [Hp|Hp]; [|exfalso; apply Hp; now left].
    assert (E : assignKey typedArraySet target JSObject.PROTO v
                = (setPrototype v target, false)).
    { unfold assignKey. rewrite Hp.
      apply get_none_not_in in Hown.
      destruct (existsb (String.eqb JSObject.PROTO) (JSObject.keys (own target))) eqn:Ex;
        [|reflexivity].
      apply existsb_exists in Ex. destruct Ex as (x & Hx & Ex).
      apply String.eqb_eq in Ex. subst x. contradiction. }
    rewrite E. apply IH; [exact Hnd' | now rewrite own_setPrototype | now right].
  - pose proof (assignKey_own target key v) as Ho.
    destruct (assignKey typedArraySet target key v) as [target' threw] eqn:Ea.
    cbn [fst] in Ho.
    assert (Hown' : JSObject.get (own target') JSObject.PROTO = None).
    { destruct Ho as [->| ->]; [exact Hown|].
      now rewrite (JSObject.get_set_neq _ _ _ _ Hkey). }
    destruct threw; [exact Hown'|].
    apply IH; [exact Hnd' | exact Hown' |].
    destruct Hp as [Hp|Hp].
    + destruct (in_dec string_dec JSObject.PROTO (JSObject.keys rest)) as [Hin|Hout];
        [|now right].
      left. revert Ea. unfold assignKey.
      assert (Ek : JSObject.isProto key = false) by now apply String.eqb_neq.
      rewrite Hp, Ek.
      destruct (existsb (String.eqb key) (JSObject.keys (own target)));
        intros [= <-]; exact Hp.
    + right. intro Hin. apply Hp. now right.
Qed.

(** *** The store keeps its objects well formed *)

Lemma Distinct_initial : Distinct initial.
Proof. repeat split; constructor. Qed.

Lemma call_distinct :
  forall (c : Call) (st : State), Distinct st -> Distinct (call typedArraySet c st).
Proof.
  fix IH 1. intros c st (Hc & Hu & Hs).
  destruct c as [context|user|request| |callback]; cbn [call].
  - unfold setContext. destruct (getStore st) as [store|].
    + destruct Hs as (H1 & H2 & H3). repeat split; cbn; auto.
      now apply assign_distinct.
    + repeat split; cbn; auto.
      apply JSObject.keys_spread_distinct, JSObject.keys_spread_distinct.
      constructor.
  - unfold setUser. destruct (getStore st) as [store|].
    + destruct Hs as (H1 & H2 & H3). repeat split; cbn; auto.
      now apply assign_distinct.
    + repeat split; cbn; auto.
      apply JSObject.keys_spread_distinct, JSObject.keys_spread_distinct.
      constructor.
  - unfold setRequest. destruct (getStore st) as [store|] eqn:E.
    + destruct Hs as (H1 & H2 & H3). repeat split; cbn; auto.
      now apply assign_distinct.
    + repeat split; auto. now rewrite E.
  - unfold clear. destruct (getStore st); repeat split; cbn; auto; constructor.
  - assert (G : forall s, Distinct s ->
                 Distinct (fold_left (fun s c => call typedArraySet c s) callback s)).
    { induction callback as [|c0 cs IHl]; intros s Hd; [exact Hd|].
      simpl. apply IHl. apply IH. exact Hd. }
    specialize (G {| globalContext := globalContext st;
                     globalUser := globalUser st;
                     getStore := Some {| store_context := empty; store_user := empty;
                                         store_request := empty |} |}).
    destruct G as (G1 & G2 & _).
    { repeat split; cbn; auto; constructor. }
    repeat split; cbn; auto.
Qed.

(** *** Inside a store the globals are out of reach *)

Lemma call_scoped :
  forall (c : Call) (st : State) (store : Store),
    getStore st = Some store ->
    globalContext (call typedArraySet c st) = globalContext st /\
    globalUser (call typedArraySet c st) = globalUser st /\
    exists store', getStore (call typedArraySet c st) = Some store'.
Proof.
  fix IH 1. intros c st store Hs.
  destruct c as [context|user|request| |callback]; cbn [call].
  - unfold setContext. rewrite Hs. cbn. eauto.
  - unfold setUser. rewrite Hs. cbn. eauto.
  - unfold setRequest. rewrite Hs. cbn. eauto.
  - unfold clear. rewrite Hs. cbn. eauto.
  - assert (G : forall s store0,
                 getStore s = Some store0 ->
                 globalContext (fold_left (fun s c => call typedArraySet c s) callback s)
                 = globalContext s /\
                 globalUser (fold_left (fun s c => call typedArraySet c s) callback s)
                 = globalUser s).
    { induction callback as [|c0 cs IHl]; intros s store0 Hs0; [split; reflexivity|].
      simpl. destruct (IH c0 s store0 Hs0) as (E1 & E2 & store1 & E3).
      destruct (IHl (call typedArraySet c0 s) store1 E3) as (F1 & F2).
      split; congruence. }
    destruct (G {| globalContext := globalContext st;
                   globalUser := globalUser st;
                   getStore := Some {| store_context := empty; store_user := empty;
                                       store_request := empty |} |} _ eq_refl)
      as (G1 & G2).
    cbn [globalContext globalUser getStore] in *. eauto.
Qed.

Lemma calls_scoped (cs : list Call) :
  forall (st : State) (store : Store),
    getStore st = Some store ->
    globalContext (calls typedArraySet cs st) = globalContext st /\
    globalUser (calls typedArraySet cs st) = globalUser st.
Proof.
  unfold calls. induction cs as [|c cs IH]; intros st store Hs; [split; reflexivity|].
  simpl. destruct (call_scoped c st store Hs) as (E1 & E2 & store1 & E3).
  destruct (IH (call typedArraySet c st) store1 E3) as (F1 & F2). split; congruence.
Qed.

Set Warnings "-notation-for-abbreviation".
Local Notation runWithContext := (runWithContext typedArraySet).
Local Notation setContext := (setContext typedArraySet).
Local Notation setUser := (setUser typedArraySet).
Set Warnings "notation-for-abbreviation".

(** X16. Nothing a callback does through [setContext], [setUser],
    [setRequest], [clear] and nested [runWithContext] reaches outside
    [runWithContext]: when it returns, the global context, the global
    user and the store of the caller are what they were. *)
Theorem runWithContext_isolated (callback : list Call) (st : State) :
  runWithContext callback st = st.
Proof.
  unfold Scope.runWithContext. cbn [call].
  destruct (calls_scoped callback
              {| globalContext := globalContext st;
                 globalUser := globalUser st;
                 getStore := Some {| store_context := empty; store_user := empty;
                                     store_request := empty |} |} _ eq_refl)
    as (E1 & E2).
  unfold calls in E1, E2. rewrite E1, E2. destruct st; reflexivity.
Qed.

(** X17. Outside a store, after [setContext(data)] the context that
    [getContext()] returns holds the values of [data] at the keys of
    [data] and what it held before at every other key.  Inside a store
    [Object.assign] writes to the context of the store, and this holds
    at every key but [__proto__], as long as the assignments meet no
    Buffer as a prototype; the key [__proto__] of [data] adds no
    property to a context that has [Object.prototype] for prototype:
    [getContext()] holds under [__proto__] what it held before.  The
    same holds of [setUser] and [getUser]. *)
Theorem set_then_get (st : State) (data : list (string * value)) (k : string) :
  Distinct st ->
  NoDup (JSObject.keys data) ->
  (getStore st = None \/
   (k <> JSObject.PROTO /\
    forall store, getStore st = Some store ->
      ordinary (store_context store) data /\ ordinary (store_user store) data) ->
   JSObject.get (getContext (setContext data st)) k =
     match JSObject.get data k with
     | Some v => Some v
     | None => JSObject.get (getContext st) k
     end /\
   JSObject.get (getUser (setUser data st)) k =
     match JSObject.get data k with
     | Some v => Some v
     | None => JSObject.get (getUser st) k
     end) /\
  (forall store, getStore st = Some store ->
     (prototype (store_context store) = ObjectPrototype ->
      JSObject.get (own (store_context store)) JSObject.PROTO = None ->
      JSObject.get (getContext (setContext data st)) JSObject.PROTO
      = JSObject.get (getContext st) JSObject.PROTO) /\
     (prototype (store_user store) = ObjectPrototype ->
      JSObject.get (own (store_user store)) JSObject.PROTO = None ->
      JSObject.get (getUser (setUser data st)) JSObject.PROTO
      = JSObject.get (getUser st) JSObject.PROTO)).
Proof.
  intros (Hc & Hu & Hs) Hd.
  unfold getContext, getUser, Scope.setContext, Scope.setUser. split.
  - intros Hcase.
    destruct (getStore st) as [store|] eqn:Es;
      cbn [globalContext globalUser getStore store_context store_user].
    + destruct Hcase as [Hcase|(Hk & Hord)]; [discriminate|].
      destruct (Hord store eq_refl) as (Hoc & Hou).
      destruct Hs as (H1 & H2 & _).
      destruct (assign_ordinary data (store_context store) k Hd Hoc Hk) as (_ & Ec).
      destruct (assign_ordinary data (store_user store) k Hd Hou Hk) as (_ & Eu).
      split.
      * rewrite !get_spread by (try apply assign_distinct; assumption).
        rewrite Ec. destruct (JSObject.get data k); reflexivity.
      * rewrite !get_spread by (try apply assign_distinct; assumption).
        rewrite Eu. destruct (JSObject.get data k); reflexivity.
    + split.
      * rewrite (get_spread _ []) by constructor. cbn [JSObject.get].
        rewrite (spread_nil_distinct (JSObject.spread _ data))
          by (apply JSObject.keys_spread_distinct, JSObject.keys_spread_distinct;
              constructor).
        rewrite (get_spread _ data) by exact Hd.
        rewrite (get_spread _ []) by constructor. reflexivity.
      * rewrite (get_spread _ []) by constructor. cbn [JSObject.get].
        rewrite (spread_nil_distinct (JSObject.spread _ data))
          by (apply JSObject.keys_spread_distinct, JSObject.keys_spread_distinct;
              constructor).
        rewrite (get_spread _ data) by exact Hd.
        rewrite (get_spread _ []) by constructor. reflexivity.
  - intros store Es. rewrite Es in Hs |- *. destruct Hs as (H1 & H2 & _).
    cbn [globalContext globalUser getStore store_context store_user].
    split; intros Hp Hown.
    + rewrite !get_spread by (try apply assign_distinct; assumption).
      rewrite (assign_no_proto data (store_context store) Hd Hown (or_introl Hp)).
      now rewrite Hown.
    + rewrite !get_spread by (try apply assign_distinct; assumption).
      rewrite (assign_no_proto data (store_user store) Hd Hown (or_introl Hp)).
      now rewrite Hown.
Qed.

End Assignments.

(** A host on which an object that inherits from a Buffer cannot be
    given a property. *)
Definition frozenHost : list Z -> string -> Outcome := fun _ _ => Throws.

(** A body parsed from JSON with a key [__proto__], set as context
    inside a store: the other key is set, [__proto__] is not. *)
Definition parsed_body : list (string * value) :=
  [("__proto__", VObject [("admin", VBool true)]); ("tenant", VString "b")].

Definition scoped : State :=
  {| globalContext := [("tenant", VString "a"); ("region", VString "eu")];
     globalUser := [];
     getStore := Some {| store_context := empty; store_user := empty;
                         store_request := empty |} |}.

Lemma set_then_get_witness :
  JSObject.get (getContext (setContext frozenHost parsed_body scoped)) "tenant"
  = Some (VString "b") /\
  JSObject.get (getContext (setContext frozenHost parsed_body scoped)) "region"
  = Some (VString "eu") /\
  JSObject.get (getContext (setContext frozenHost parsed_body scoped)) "__proto__"
  = None.
Proof.
  assert (Hd : Distinct scoped).
  { repeat split; cbn; repeat constructor; simpl; intuition discriminate. }
  assert (Hn : NoDup (JSObject.keys parsed_body)).
  { repeat constructor; simpl; intuition discriminate. }
  assert (Ho : forall store, getStore scoped = Some store ->
                 ordinary (store_context store) parsed_body /\
                 ordinary (store_user store) parsed_body).
  { intros store [= <-]. cbn. repeat split; intros bytes [H|[H|[]]]; discriminate H. }
  destruct (set_then_get frozenHost scoped parsed_body "tenant" Hd Hn) as (E1 & _).
  destruct (set_then_get frozenHost scoped parsed_body "region" Hd Hn) as (E2 & E3).
  split; [|split].
  - destruct E1 as (E1 & _); [right; split; [discriminate | exact Ho]|]. exact E1.
  - destruct E2 as (E2 & _); [right; split; [discriminate | exact Ho]|]. exact E2.
  - destruct (E3 _ eq_refl) as (E3' & _). exact (E3' eq_refl eq_refl).
Defined.

(** Once a store has been given [null] for prototype, the key
    [__proto__] is a property like any other. *)
Example setContext_after_null_prototype :
  JSObject.get
    (getContext
       (setContext frozenHost [("__proto__", VString "x")]
          (setContext frozenHost [("__proto__", VNull)] scoped))) "__proto__"
  = Some (VString "x").
Proof. reflexivity. Qed.

End Scope.

(* ================================================================== *)
(** ** src/index.ts: [configure] and [notify] *)
(* ================================================================== *)

Module Facade.
Import JSString JSValue RegExp Sanitize Notice Effect Configuration Index.
Import SanitizeFacts Settings Scope.

Local Open Scope list_scope.

Record NotifyOptions : Type := {
  notify_context : option Context;
  notify_request : option RequestInfo;
  notify_user : option User;
  notify_fingerprint : option string;
  notify_tags : option (list string)
}.

(** The state of the module: the configuration (its two records),
    whether [client] and [worker] are set, the filter, [started], and
    the context store. *)
Record Module : Type := {
  config : option (Configuration * Settings);
  client : bool;
  worker : bool;
  sanitizeFilter : option SanitizeFilter;
  started : bool;
  store : Scope.State
}.

(** The state before the first [configure]. *)
Definition unconfigured : Module :=
  {| config := None; client := false; worker := false; sanitizeFilter := None;
     started := false; store := Scope.initial |}.

(** What the functions of the module do, in program order: [notify]
    logs that the error is ignored, or enters the pipeline of callbacks
    and [sendNotice]; [notifySync] and the handler of uncaught
    exceptions call the client themselves. *)
Inductive Event : Type :=
| Ignoring (errorClass : string)      (* `Ignoring error: ${errorClass}` *)
| Pipeline (ev : Index.Event)
| Direct (notice : Notice).           (* [client.sendNotice(notice)] *)

(** [process.env] as an object, and as what reading a variable gives. *)
Definition variable (env : list (string * string)) (name : string) : option string :=
  JSObject.get env name.

Definition envObject (env : list (string * string)) : list (string * value) :=
  map (fun kv => (fst kv, VString (snd kv))) env.

(** [configure(options)]; [start()] sets [started] on the first
    valid configuration.  The constructor of the filter does not throw
    (lemma [new_total]). *)
Definition configure (env : list (string * string)) (cwd : string)
    (options : ConfigOptions) (more : SettingsOptions) (m : Module) : Module :=
  let cfg := Configuration.new (variable env) cwd options in
  let settings := Settings.new (variable env) more in
  if negb (isValid cfg)
  then {| config := Some (cfg, settings); client := client m; worker := worker m;
          sanitizeFilter := sanitizeFilter m; started := started m; store := store m |}
  else {| config := Some (cfg, settings);
          client := true;
          worker := async settings;
          sanitizeFilter := Sanitize.new (filterKeys settings);
          started := true;
          store := store m |}.

Definition shouldNotify (m : Module) : bool :=
  match config m with
  | Some (cfg, settings) =>
      if negb (started m) || negb (client m) then false
      else if negb (isValid cfg) then false
      else if negb (enabled settings) then false
      else true
  | None => false
  end.

(** [sanitize(data)] of the module *)
Definition sanitize (m : Module) (data : value) : value :=
  match sanitizeFilter m with
  | None => data
  | Some f => Sanitize.sanitize f data
  end.

(** The properties of an object value.  [sanitize] gives an object
    for an object, but for one that an own [__proto__] makes an heir of
    a Buffer: the code then keeps the text ['[Buffer]'] as the context
    of the notice, which is held here as a context without
    properties. *)
Definition fieldsOf (v : value) : list (string * value) :=
  match v with VObject fields => fields | _ => [] end.

(** [getLocalStorage()] *)
Definition getLocalStorage (st : Scope.State) : Store :=
  nullish (getStore st)
    {| store_context := empty; store_user := empty; store_request := empty |}.

(** The notice [notify] builds for an error that is not ignored. *)
Definition buildNotice (env : list (string * string)) (now : string) (m : Module)
    (cfg : Configuration) (settings : Settings)
    (error : Error) (options : NotifyOptions) : Notice :=
  let localContext := own (store_context (getLocalStorage (store m))) in
  let localUser := own (store_user (getLocalStorage (store m))) in
  let localRequest := own (store_request (getLocalStorage (store m))) in
  let contextData :=
    JSObject.spread
      (JSObject.spread (JSObject.spread [] (globalContext (store m))) localContext)
      (nullish (notify_context options) []) in
  let contextData :=
    if sendEnvironmentData settings
    then JSObject.spread (JSObject.spread [] contextData)
           [("env", sanitize m (VObject (JSObject.spread [] (envObject env))))]
    else contextData in
  let mergedContext := fieldsOf (sanitize m (VObject contextData)) in
  let mergedUser :=
    if sendUserData settings
    then fieldsOf
           (sanitize m
              (VObject
                 (JSObject.spread
                    (JSObject.spread (JSObject.spread [] (globalUser (store m))) localUser)
                    (nullish (notify_user options) []))))
    else [] in
  let mergedRequest :=
    if sendRequestData settings
    then fieldsOf
           (sanitize m
              (VObject
                 (JSObject.spread (JSObject.spread [] localRequest)
                    (nullish (notify_request options) []))))
    else [] in
  createNotice now error
    {| opt_context := Some mergedContext;
       opt_request := Some mergedRequest;
       opt_user := Some mergedUser;
       opt_fingerprint := notify_fingerprint options;
       opt_tags := notify_tags options;
       opt_environment := Some (Settings.environment settings);
       opt_rootPath := rootPath cfg;
       opt_appName := appName settings;
       opt_revision := revision settings |}.

(** [notify(error, options)]; [code] is [error.code]. *)
Definition notify (env : list (string * string)) (now : string) (m : Module)
    (error : Error) (code : option string) (options : NotifyOptions) : list Event :=
  if negb (shouldNotify m) then []
  else
    match config m with
    | None => []
    | Some (cfg, settings) =>
        let errorClass := orElse (error_name error) "Error" in
        let message := orElse (error_message error) "Unknown error" in
        if shouldIgnore settings errorClass message code
        then [Ignoring errorClass]
        else
          let notice := buildNotice env now m cfg settings error options in
          map Pipeline (snd (run (notify_tail (Some cfg) notice)))
    end.

(** *** What [notify] needs to report *)

Lemma detectEnvironment_default (env : string -> option string) :
  present (env "CHECKEND_ENVIRONMENT") = None ->
  present (env "NODE_ENV") = None ->
  detectEnvironment env = "development".
Proof. unfold detectEnvironment, orString. now intros -> ->. Qed.

(** X18. Out of the box [notify] reports nothing: after [configure] with
    no [enabled] option and no environment given (neither the option,
    nor [CHECKEND_ENVIRONMENT], nor [NODE_ENV]), the environment is
    ['development'], reporting is off, and [notify] does nothing,
    whatever the API key and whatever the state before. *)
Theorem notify_off_by_default (env : list (string * string)) (cwd now : string)
    (options : ConfigOptions) (more : SettingsOptions) (m : Module)
    (error : Error) (code : option string) (nopts : NotifyOptions) :
  options_enabled more = None ->
  present (options_environment more) = None ->
  present (variable env "CHECKEND_ENVIRONMENT") = None ->
  present (variable env "NODE_ENV") = None ->
  Settings.environment (Settings.new (variable env) more) = "development" /\
  notify env now (configure env cwd options more m) error code nopts = [].
Proof.
  intros He Ho H1 H2.
  assert (Henv : Settings.environment (Settings.new (variable env) more) = "development").
  { cbn [Settings.new Settings.environment]. unfold orString. rewrite Ho.
    now apply detectEnvironment_default. }
  split; [exact Henv|].
  assert (Hen : enabled (Settings.new (variable env) more) = false).
  { unfold enabled, isProductionOrStaging. rewrite Henv.
    cbn [Settings.new _enabled]. rewrite He. reflexivity. }
  unfold notify, shouldNotify, configure.
  destruct (isValid (Configuration.new (variable env) cwd options)) eqn:Hv;
    cbn [negb config started client]; rewrite ?Hv; cbn [negb orb].
  - rewrite Hen. reflexivity.
  - destruct (negb (started m) || negb (client m)); reflexivity.
Qed.

Definition production_key : ConfigOptions :=
  {| options_apiKey := "test-key"; options_endpoint := None; options_timeout := None;
     options_beforeNotify := None; options_maxQueueSize := None;
     options_shutdownTimeout := None; options_rootPath := None |}.

Definition no_settings : SettingsOptions :=
  {| options_environment := None; options_enabled := None;
     options_ignoredExceptions := None; options_filterKeys := None;
     options_async := None; options_appName := None; options_revision := None;
     options_sendRequestData := None; options_sendEnvironmentData := None;
     options_sendUserData := None |}.

Definition no_notify_options : NotifyOptions :=
  {| notify_context := None; notify_request := None; notify_user := None;
     notify_fingerprint := None; notify_tags := None |}.

Definition sample_error : Error :=
  {| error_name := "TypeError"; error_message := "x is not a function";
     error_stack := None |}.

Lemma notify_off_by_default_witness :
  notify [("HOME", "/root")] "2024-01-01T00:00:00.000Z"
    (configure [("HOME", "/root")] "/app" production_key no_settings unconfigured)
    sample_error None no_notify_options = [].
Proof.
  exact (proj2 (notify_off_by_default [("HOME", "/root")] "/app" "2024-01-01T00:00:00.000Z"
                  production_key no_settings unconfigured sample_error None
                  no_notify_options eq_refl eq_refl eq_refl eq_refl)).
Defined.

(** *** The notice that enters the pipeline *)

Lemma clean_fieldsOf (m : Module) (f : SanitizeFilter) (o : list (string * value)) :
  sanitizeFilter m = Some f -> clean f (VObject (fieldsOf (sanitize m (VObject o)))).
Proof.
  intros Hf. unfold sanitize. rewrite Hf.
  pose proof (process_clean f (deepClone (VObject o)) 0) as H.
  fold (Sanitize.sanitize f (VObject o)) in H.
  destruct (Sanitize.sanitize f (VObject o)); try exact H; constructor.
Qed.

(** X19. After a valid [configure] that enables reporting, [notify] of
    an error that is not ignored runs the callbacks and the sending on
    one notice, and in that notice the context, the user and the request
    have been through the filter built from [config.filterKeys]: at
    every depth a key the filter matches holds the placeholder, and no
    string is longer than 10001 code units; the user is empty when
    [sendUserData] is off and the request is empty when
    [sendRequestData] is off. *)
Theorem notify_hands_over_clean_notice (env : list (string * string)) (cwd now : string)
    (options : ConfigOptions) (more : SettingsOptions) (m : Module)
    (error : Error) (code : option string) (nopts : NotifyOptions) :
  let cfg := Configuration.new (variable env) cwd options in
  let settings := Settings.new (variable env) more in
  let m' := configure env cwd options more m in
  let notice := buildNotice env now m' cfg settings error nopts in
  isValid cfg = true ->
  enabled settings = true ->
  shouldIgnore settings (orElse (error_name error) "Error")
    (orElse (error_message error) "Unknown error") code = false ->
  exists f,
    Sanitize.new (filterKeys settings) = Some f /\
    notify env now m' error code nopts
    = map Pipeline (snd (run (notify_tail (Some cfg) notice))) /\
    clean f (VObject (context notice)) /\
    clean f (VObject (user notice)) /\
    clean f (VObject (request notice)) /\
    (sendUserData settings = false -> user notice = []) /\
    (sendRequestData settings = false -> request notice = []).
Proof.
  intros cfg settings m' notice Hv He Hi.
  destruct (new_total (filterKeys settings)) as [f Hf].
  exists f. split; [exact Hf|].
  assert (Hm : m' = {| config := Some (cfg, settings); client := true;
                       worker := async settings;
                       sanitizeFilter := Sanitize.new (filterKeys settings);
                       started := true; store := store m |}).
  { subst m'. unfold configure. fold cfg settings. rewrite Hv. reflexivity. }
  assert (Hsf : sanitizeFilter m' = Some f) by (rewrite Hm; exact Hf).
  split.
  { assert (Hc : config m' = Some (cfg, settings)) by (rewrite Hm; reflexivity).
    assert (Hst : started m' = true) by (rewrite Hm; reflexivity).
    assert (Hcl : client m' = true) by (rewrite Hm; reflexivity).
    unfold notify, shouldNotify. subst notice. rewrite Hc, Hst, Hcl.
    cbn [negb orb]. rewrite Hv, He. cbn [negb]. rewrite Hi. reflexivity. }
  subst notice. unfold buildNotice.
  cbn [createNotice context user request nullish opt_context opt_user opt_request].
  split; [now apply clean_fieldsOf|].
  split; [destruct (sendUserData settings); [now apply clean_fieldsOf | exact I]|].
  split; [destruct (sendRequestData settings); [now apply clean_fieldsOf | exact I]|].
  split; intros ->; reflexivity.
Qed.

Definition production : SettingsOptions :=
  {| options_environment := Some "production"; options_enabled := None;
     options_ignoredExceptions := None; options_filterKeys := None;
     options_async := None; options_appName := None; options_revision := None;
     options_sendRequestData := None; options_sendEnvironmentData := None;
     options_sendUserData := Some false |}.

Definition secret_options : NotifyOptions :=
  {| notify_context := Some [("order", VObject [("cardNumber", VString "4111")])];
     notify_request := None;
     notify_user := Some [("id", VNumber 7)];
     notify_fingerprint := None; notify_tags := None |}.

Lemma notify_hands_over_clean_notice_witness :
  let m := configure [] "/app" production_key production unconfigured in
  let cfg := Configuration.new (variable []) "/app" production_key in
  let notice :=
    buildNotice [] "2024-01-01T00:00:00.000Z" m cfg (Settings.new (variable []) production)
      sample_error secret_options in
  notify [] "2024-01-01T00:00:00.000Z" m sample_error None secret_options
  = [Pipeline (SendNotice notice)] /\
  context notice = [("order", VObject [("cardNumber", VString "[FILTERED]")])] /\
  user notice = [].
Proof.
  intros m cfg notice.
  destruct (notify_hands_over_clean_notice [] "/app" "2024-01-01T00:00:00.000Z"
              production_key production unconfigured sample_error None secret_options
              eq_refl eq_refl eq_refl) as (f & _ & Hrun & _ & _ & _ & Huser & _).
  split; [exact Hrun|]. split; [reflexivity | exact (Huser eq_refl)].
Defined.

(** *** Where a context value comes from *)

Lemma get_map_entries {A B : Type} (h : string -> A -> B) (o : list (string * A))
    (k : string) :
  JSObject.get (map (fun kv => (fst kv, h (fst kv) (snd kv))) o) k
  = option_map (h k) (JSObject.get o k).
Proof.
  induction o as [|[k0 v0] o IH]; [reflexivity|]. cbn [map JSObject.get fst snd].
  destruct (String.eqb_spec k0 k) as [->|Hne]; [reflexivity | exact IH].
Qed.

(** The context data [notify] merges, before the filter. *)
Definition mergedContextData (m : Module) (options : NotifyOptions)
  : list (string * value) :=
  JSObject.spread
    (JSObject.spread (JSObject.spread [] (globalContext (store m)))
       (own (store_context (getLocalStorage (store m)))))
    (nullish (notify_context options) []).

Lemma get_mergedContextData (m : Module) (options : NotifyOptions) (k : string) :
  Distinct (store m) ->
  NoDup (JSObject.keys (nullish (notify_context options) [])) ->
  JSObject.get (mergedContextData m options) k =
  match JSObject.get (nullish (notify_context options) []) k with
  | Some v => Some v
  | None =>
      match JSObject.get (own (store_context (getLocalStorage (store m)))) k with
      | Some v => Some v
      | None => JSObject.get (globalContext (store m)) k
      end
  end.
Proof.
  intros (Hg & _ & Hs) Ho. unfold mergedContextData.
  assert (Hl : NoDup (JSObject.keys (own (store_context (getLocalStorage (store m)))))).
  { unfold getLocalStorage. destruct (getStore (store m)) as [st|]; cbn [nullish].
    - exact (proj1 Hs).
    - constructor. }
  rewrite (get_spread _ _ k Ho), (get_spread _ _ k Hl), (spread_nil_distinct _ Hg).
  reflexivity.
Qed.

(** X20. When the merged context data is not made an heir of a Buffer
    by an own [__proto__], the context of the notice has no key
    [__proto__], and at every other key, [env] apart when the
    environment data is sent: the value comes from the options of the
    call when they have the key, else from the context of the running
    request when it has the key, else from the global context; a key
    the filter matches holds the placeholder, and any other key the
    sanitized value. *)
Theorem notify_context_precedence (env : list (string * string)) (now : string)
    (m : Module) (cfg : Configuration) (settings : Settings) (f : SanitizeFilter)
    (error : Error) (options : NotifyOptions) (k : string) :
  Distinct (store m) ->
  NoDup (JSObject.keys (nullish (notify_context options) [])) ->
  sanitizeFilter m = Some f ->
  sendEnvironmentData settings = false \/ k <> "env" ->
  inherited (mergedContextData m options) = None ->
  JSObject.get (context (buildNotice env now m cfg settings error options)) k =
  if JSObject.isProto k then None
  else
    option_map
      (fun v => if shouldFilter f k then VString FILTERED else process f (deepClone v) 1)
      match JSObject.get (nullish (notify_context options) []) k with
      | Some v => Some v
      | None =>
          match JSObject.get (own (store_context (getLocalStorage (store m)))) k with
          | Some v => Some v
          | None => JSObject.get (globalContext (store m)) k
          end
      end.
Proof.
  intros Hd Ho Hf Hk Hplain.
  rewrite <- (get_mergedContextData m options k Hd Ho).
  unfold buildNotice. cbn [createNotice context nullish opt_context].
  fold (mergedContextData m options).
  assert (Hnd : NoDup (JSObject.keys (mergedContextData m options))).
  { unfold mergedContextData. do 3 apply JSObject.keys_spread_distinct. constructor. }
  set (data := if sendEnvironmentData settings then _ else _).
  assert (Hdata : NoDup (JSObject.keys data) /\
                  (forall key, sendEnvironmentData settings = false \/ key <> "env" ->
                     JSObject.get data key
                     = JSObject.get (mergedContextData m options) key)).
  { subst data. destruct (sendEnvironmentData settings).
    - split.
      + do 2 apply JSObject.keys_spread_distinct. constructor.
      + intros key [Hkey|Hkey]; [discriminate|].
        rewrite get_spread_rev. cbn [rev app JSObject.get].
        destruct (String.eqb_spec "env" key) as [E|_]; [congruence|].
        now rewrite (spread_nil_distinct _ Hnd).
    - split; [exact Hnd | reflexivity]. }
  destruct Hdata as (Hnd' & Hget).
  assert (Hplain' : inherited data = None).
  { rewrite (inherited_get data Hnd'), (Hget JSObject.PROTO) by (right; discriminate).
    rewrite <- (inherited_get _ Hnd). exact Hplain. }
  unfold sanitize. rewrite Hf, (sanitize_object_entries f data Hnd' Hplain').
  cbn [fieldsOf].
  rewrite (get_map_entries
             (fun key v => if shouldFilter f key then VString FILTERED
                           else process f (deepClone v) 1)).
  rewrite JSObject.get_assigned.
  destruct (JSObject.isProto k); [reflexivity|].
  now rewrite (Hget k Hk).
Qed.

Lemma notify_context_precedence_witness :
  let m := configure [] "/app" production_key production
             {| config := None; client := false; worker := false;
                sanitizeFilter := None; started := false;
                store := Scope.setContext frozenHost
                           [("tenant", VString "a"); ("plan", VString "free")]
                           Scope.initial |} in
  let options :=
    {| notify_context := Some [("tenant", VString "b");
                               ("__proto__", VObject [("admin", VBool true)])];
       notify_request := None;
       notify_user := None; notify_fingerprint := None; notify_tags := None |} in
  let notice :=
    buildNotice [] "2024-01-01T00:00:00.000Z" m
      (Configuration.new (variable []) "/app" production_key)
      (Settings.new (variable []) production) sample_error options in
  JSObject.get (context notice) "tenant" = Some (VString "b") /\
  JSObject.get (context notice) "plan" = Some (VString "free") /\
  JSObject.get (context notice) "__proto__" = None.
Proof.
  intros m options notice.
  assert (Hd : Distinct (store m)).
  { apply (call_distinct frozenHost (SetContext _)), Distinct_initial. }
  assert (Ho : NoDup (JSObject.keys (nullish (notify_context options) []))).
  { repeat constructor; simpl; intuition discriminate. }
  assert (Hp : inherited (mergedContextData m options) = None) by reflexivity.
  destruct (new_total (filterKeys (Settings.new (variable []) production))) as [f Hf].
  split; [|split].
  - subst notice.
    rewrite (notify_context_precedence [] _ m
               (Configuration.new (variable []) "/app" production_key)
               (Settings.new (variable []) production) f sample_error options "tenant"
               Hd Ho Hf (or_introl eq_refl) Hp).
    rewrite (shouldFilter_includes _ f "tenant" Hf). reflexivity.
  - subst notice.
    rewrite (notify_context_precedence [] _ m
               (Configuration.new (variable []) "/app" production_key)
               (Settings.new (variable []) production) f sample_error options "plan"
               Hd Ho Hf (or_introl eq_refl) Hp).
    rewrite (shouldFilter_includes _ f "plan" Hf). reflexivity.
  - subst notice.
    rewrite (notify_context_precedence [] _ m
               (Configuration.new (variable []) "/app" production_key)
               (Settings.new (variable []) production) f sample_error options "__proto__"
               Hd Ho Hf (or_introl eq_refl) Hp).
    reflexivity.
Defined.

(** *** The other ways in *)

(** [notifySync(error, options)], up to the promise it returns. *)
Definition notifySync (env : list (string * string)) (now : string) (m : Module)
    (error : Error) (options : NotifyOptions) : list Event :=
  if negb (shouldNotify m) || negb (client m) then []
  else
    match config m with
    | None => []
    | Some (cfg, settings) =>
        let notice := buildNotice env now m cfg settings error options in
        let (r, trace) := run (runBeforeNotifyCallbacks (Some cfg) notice) in
        map Pipeline trace ++
        match r with
        | Normal (true, notice) => [Direct notice]
        | _ => []
        end
    end.

(** The options of [createNotice] in the two handlers. *)
Definition unhandledOptions (m : Module) (cfg : Configuration) (settings : Settings)
    (context : list (string * value)) (tags : list string) : Options :=
  {| opt_context := Some (fieldsOf (sanitize m (VObject context)));
     opt_request := None;
     opt_user := None;
     opt_fingerprint := None;
     opt_tags := Some tags;
     opt_environment := Some (Settings.environment settings);
     opt_rootPath := rootPath cfg;
     opt_appName := appName settings;
     opt_revision := revision settings |}.

(** [handleUncaughtException(error, origin)], up to the call of the
    handler that was installed before. *)
Definition handleUncaughtException (now : string) (m : Module)
    (error : Error) (code : option string) (origin : string) : list Event :=
  if negb (shouldNotify m) then []
  else
    match config m with
    | None => []
    | Some (cfg, settings) =>
        if shouldIgnore settings (error_name error) (error_message error) code then []
        else
          let context :=
            JSObject.set
              (JSObject.set (JSObject.spread [] (globalContext (store m)))
                 "unhandled" (VBool true))
              "origin" (VString origin) in
          let notice :=
            createNotice now error
              (unhandledOptions m cfg settings context ["unhandled"; "uncaughtException"]) in
          if client m then [Direct notice] else []
    end.

(** The [reason] of a rejection: an [Error] with its [code], a string,
    or anything else. *)
Inductive Reason : Type :=
| ReasonError (error : Error) (code : option string)
| ReasonString (text : string)
| ReasonOther.

(** [handleUnhandledRejection(reason, promise)], up to the call of the
    handler that was installed before; [stack] is the stack the host
    gives an [Error] made in the handler. *)
Definition handleUnhandledRejection (now : string) (stack : option string) (m : Module)
    (reason : Reason) : list Event :=
  if negb (shouldNotify m) then []
  else
    match config m with
    | None => []
    | Some (cfg, settings) =>
        let (error, code) :=
          match reason with
          | ReasonError error code => (error, code)
          | ReasonString text =>
              ({| error_name := "UnhandledRejection"; error_message := text;
                  error_stack := stack |}, None)
          | ReasonOther =>
              ({| error_name := "UnhandledRejection";
                  error_message := "Unhandled Promise rejection";
                  error_stack := stack |}, None)
          end in
        if shouldIgnore settings (error_name error) (error_message error) code then []
        else
          let context :=
            JSObject.set
              (JSObject.set (JSObject.spread [] (globalContext (store m)))
                 "unhandled" (VBool true))
              "rejection" (VBool true) in
          let notice :=
            createNotice now error
              (unhandledOptions m cfg settings context ["unhandled"; "unhandledRejection"]) in
          [Pipeline (SendNotice notice)]
    end.

(** X21. An error that [notify] ignores is still sent by [notifySync],
    which does not consult [ignoredExceptions]: with reporting on and no
    callback, [notify] only logs that it ignores the error, and
    [notifySync] hands the notice to the client. *)
Theorem notifySync_sends_ignored (env : list (string * string)) (now : string)
    (m : Module) (cfg : Configuration) (settings : Settings)
    (error : Error) (code : option string) (options : NotifyOptions) :
  shouldNotify m = true ->
  config m = Some (cfg, settings) ->
  beforeNotify cfg = [] ->
  shouldIgnore settings (orElse (error_name error) "Error")
    (orElse (error_message error) "Unknown error") code = true ->
  notify env now m error code options = [Ignoring (orElse (error_name error) "Error")] /\
  notifySync env now m error options
  = [Direct (buildNotice env now m cfg settings error options)].
Proof.
  intros Hn Hc Hb Hi. split.
  - unfold notify. rewrite Hn, Hc. cbn [negb]. rewrite Hi. reflexivity.
  - unfold notifySync. rewrite Hn.
    assert (Hcl : client m = true).
    { unfold shouldNotify in Hn. rewrite Hc in Hn.
      destruct (started m), (client m); (reflexivity || discriminate). }
    rewrite Hcl, Hc. cbn [negb orb].
    unfold run, runBeforeNotifyCallbacks. rewrite Hb. reflexivity.
Qed.

Definition ignoring_reset : SettingsOptions :=
  {| options_environment := Some "production"; options_enabled := None;
     options_ignoredExceptions := None; options_filterKeys := None;
     options_async := None; options_appName := None; options_revision := None;
     options_sendRequestData := None; options_sendEnvironmentData := None;
     options_sendUserData := None |}.

Definition reset_error : Error :=
  {| error_name := "Error"; error_message := "read ECONNRESET"; error_stack := None |}.

Lemma notifySync_sends_ignored_witness :
  let m := configure [] "/app" production_key ignoring_reset unconfigured in
  notify [] "2024-01-01T00:00:00.000Z" m reset_error (Some "ECONNRESET") no_notify_options
  = [Ignoring "Error"] /\
  exists notice,
    notifySync [] "2024-01-01T00:00:00.000Z" m reset_error no_notify_options
    = [Direct notice].
Proof.
  intros m.
  destruct (notifySync_sends_ignored [] "2024-01-01T00:00:00.000Z" m
              (Configuration.new (variable []) "/app" production_key)
              (Settings.new (variable []) ignoring_reset)
              reset_error (Some "ECONNRESET") no_notify_options
              eq_refl eq_refl eq_refl eq_refl) as (H1 & H2).
  split; [exact H1|]. eexists. exact H2.
Defined.

(** X22. The handlers of uncaught exceptions and of unhandled rejections
    do not run the [beforeNotify] callbacks: with reporting on and an
    error that is not ignored, whatever callbacks are configured, each
    hands over exactly one notice (the first one to the client itself,
    the second one to [sendNotice]), tagged ['unhandled'] and the kind,
    with an empty user and an empty request. *)
Theorem unhandled_errors_bypass_callbacks (now : string) (stack : option string)
    (m : Module) (cfg : Configuration) (settings : Settings)
    (error : Error) (code : option string) (origin : string) :
  shouldNotify m = true ->
  config m = Some (cfg, settings) ->
  shouldIgnore settings (error_name error) (error_message error) code = false ->
  (exists notice,
     handleUncaughtException now m error code origin = [Direct notice] /\
     tags notice = ["unhandled"; "uncaughtException"] /\
     user notice = [] /\ request notice = []) /\
  (exists notice,
     handleUnhandledRejection now stack m (ReasonError error code)
     = [Pipeline (SendNotice notice)] /\
     tags notice = ["unhandled"; "unhandledRejection"] /\
     user notice = [] /\ request notice = []).
Proof.
  intros Hn Hc Hi.
  assert (Hcl : client m = true).
  { unfold shouldNotify in Hn. rewrite Hc in Hn.
    destruct (started m), (client m); (reflexivity || discriminate). }
  split.
  - unfold handleUncaughtException. rewrite Hn, Hc. cbn [negb]. rewrite Hi, Hcl.
    eexists. split; [reflexivity|]. repeat split.
  - unfold handleUnhandledRejection. rewrite Hn, Hc. cbn [negb]. rewrite Hi.
    eexists. split; [reflexivity|]. repeat split.
Qed.

Definition vetoing : ConfigOptions :=
  {| options_apiKey := "test-key"; options_endpoint := None; options_timeout := None;
     options_beforeNotify := Some [fun n => (ReturnsBool false, n)];
     options_maxQueueSize := None;
     options_shutdownTimeout := None; options_rootPath := None |}.

Lemma unhandled_errors_bypass_callbacks_witness :
  let m := configure [] "/app" vetoing production unconfigured in
  notify [] "2024-01-01T00:00:00.000Z" m sample_error None no_notify_options
  = [Pipeline (Invoked 0 (ReturnsBool false)); Pipeline (Log Debug NoticeBlocked)] /\
  exists notice,
    handleUncaughtException "2024-01-01T00:00:00.000Z" m sample_error None
      "uncaughtException" = [Direct notice].
Proof.
  intros m. split; [reflexivity|].
  destruct (unhandled_errors_bypass_callbacks "2024-01-01T00:00:00.000Z" None m
              (Configuration.new (variable []) "/app" vetoing)
              (Settings.new (variable []) production)
              sample_error None "uncaughtException" eq_refl eq_refl eq_refl)
    as ((notice & H & _) & _).
  exists notice. exact H.
Defined.

End Facade.

(* ================================================================== *)
(** ** src/worker.ts: shutdown, flush and the bound on the queue *)
(* ================================================================== *)

Module WorkerFacts.
Import JSString JSValue Notice Effect Configuration Worker.

Local Open Scope list_scope.

Set Warnings "-notation-for-abbreviation".

Section Machine.

Variable A : Arithmetic.
Variables (VERSION process_version : string).
Variable config : Configuration.

Local Notation System := (Worker.System A).
Local Notation worker := (Worker.worker A).
Local Notation tasks := (Worker.tasks A).
Local Notation transport := (Worker.transport A).
Local Notation accepted := (Worker.accepted A).
Local Notation timers := (Worker.timers A).
Local Notation polling := (Worker.polling A).
Local Notation settled := (Worker.settled A).
Local Notation new := (Worker.new A).
Local Notation whileLoop := (Worker.whileLoop A).
Local Notation processQueue := (Worker.processQueue A).
Local Notation push := (Worker.push A VERSION process_version config).
Local Notation stop := (Worker.stop A config).
Local Notation flush := (Worker.flush A config).
Local Notation step := (Worker.step A VERSION process_version config).
Local Notation run := (Worker.run A VERSION process_version config).
Local Notation drain := (Worker.drain A VERSION process_version config).
Local Notation weight := (Worker.weight A).
Local Notation Invariant := (Worker.Invariant A).
Local Notation hasTimer := (Worker.hasTimer A).
Local Notation isPolling := (Worker.isPolling A).

(** *** [stop] on an idle worker *)

(** The events that leave the promise of a [stop] alone: no [flush],
    and no second [stop] and no timeout for that promise. *)
Definition apart (promise : nat) (e : Event) : bool :=
  match e with
  | Flush _ _ => false
  | Stop pr _ | Timeout pr => negb (Nat.eqb pr promise)
  | _ => true
  end.

(** An idle worker in shutdown whose queue holds a marker. *)
Definition Parked (promise : nat) (s0 s : System) : Prop :=
  tasks s = [] /\
  processing (worker s) = false /\
  shutdown (worker s) = true /\
  queue (worker s) = queue (worker s0) ++ [SHUTDOWN] /\
  transport s = transport s0 /\
  ~ In promise (settled s).

Lemma drained_nonempty (w : Worker) (q : list QueueItem) :
  queue w = q ++ [SHUTDOWN] -> drained w = false.
Proof.
  intros E. unfold drained. rewrite E, length_app. simpl.
  replace (Z.of_nat (List.length q + 1) =? 0)%Z with false; [reflexivity|].
  symmetry. apply Z.eqb_neq. lia.
Qed.

Lemma parked_step (promise : nat) (s0 s : System) (e : Event) :
  Parked promise s0 s -> apart promise e = true -> Parked promise s0 (step e s).
Proof.
  intros (Ht & Hp & Hs & Hq & Htr & Hn) He.
  destruct e as [n|pr t|pr t|k|k r|k|pr|pr]; cbn [Worker.step].
  - unfold Worker.push. rewrite Hs. repeat split; auto.
  - unfold Worker.stop. rewrite Hs. repeat split; auto.
    cbn [resolve Worker.settled]. intros Hin. apply in_app_or in Hin.
    destruct Hin as [Hin|[<-|[]]]; [auto|].
    simpl in He. rewrite Nat.eqb_refl in He. discriminate.
  - discriminate.
  - rewrite Ht. destruct k; repeat split; auto.
  - rewrite Ht. destruct k; repeat split; auto.
  - rewrite Ht. destruct k; repeat split; auto.
  - destruct (Worker.hasTimer A pr s); [|repeat split; auto].
    repeat split; auto.
    cbn [resolve clearTimer Worker.settled]. intros Hin. apply in_app_or in Hin.
    destruct Hin as [Hin|[<-|[]]]; [auto|].
    simpl in He. rewrite Nat.eqb_refl in He. discriminate.
  - rewrite (drained_nonempty _ _ Hq), andb_false_r. repeat split; auto.
Qed.

Lemma parked_run (promise : nat) (s0 : System) (events : list Event) :
  forall s, Parked promise s0 s -> forallb (apart promise) events = true ->
            Parked promise s0 (run events s).
Proof.
  induction events as [|e events IH]; intros s Hs He; [exact Hs|].
  simpl in He. apply andb_prop in He. destruct He as [He Hes].
  simpl. apply IH; [|exact Hes]. now apply parked_step.
Qed.

(** *** [flush] on an idle worker *)

Lemma whileLoop_markers_only (q : list QueueItem) :
  forall s : System,
    payloads q = [] -> hasShutdown q = false ->
    exists s',
      whileLoop q s = (s', None) /\
      processing (worker s') = false /\
      (q <> [] -> queue (worker s') = []) /\
      tasks s' = tasks s /\ transport s' = transport s /\
      forall promise, In (FLUSH promise) q -> In promise (settled s').
Proof.
  induction q as [|[p| |r] rest IH]; intros s Hpay Hsh.
  - eexists. split; [reflexivity|]. repeat split; auto.
    + congruence.
    + intros promise [].
  - discriminate.
  - discriminate.
  - cbn [Worker.whileLoop].
    destruct (IH (resolve A r (withWorker A (setQueue rest) s)) Hpay Hsh)
      as (s' & E & H1 & H2 & H3 & H4 & H5).
    exists s'. split; [exact E|]. repeat split; auto.
    + intros _. destruct rest as [|item rest'].
      * cbn [Worker.whileLoop] in E. inversion E. reflexivity.
      * apply H2. discriminate.
    + intros promise [Hin|Hin].
      * inversion Hin; subst r.
        pose proof (whileLoop_frame A rest (resolve A promise (withWorker A (setQueue rest) s)))
          as F.
        cbv zeta in F. rewrite E in F. cbn [fst] in F.
        destruct F as (_ & _ & _ & _ & F). apply F. simpl.
        apply in_or_app. right. now left.
      * now apply H5.
Qed.

(** *** [stop] on a busy worker *)

(** The queue ends with the only shutdown marker while the loop runs,
    and is empty once it has ended. *)
Definition Closing (s : System) : Prop :=
  (tasks s <> [] /\
   exists q, queue (worker s) = q ++ [SHUTDOWN] /\ hasShutdown q = false) \/
  (tasks s = [] /\ queue (worker s) = []).

Lemma whileLoop_closing (q : list QueueItem) :
  forall s : System,
    hasShutdown q = false ->
    match snd (whileLoop (q ++ [SHUTDOWN]) s) with
    | Some _ =>
        exists q', queue (worker (fst (whileLoop (q ++ [SHUTDOWN]) s)))
                   = q' ++ [SHUTDOWN] /\ hasShutdown q' = false
    | None => queue (worker (fst (whileLoop (q ++ [SHUTDOWN]) s))) = []
    end.
Proof.
  induction q as [|[p| |r] rest IH]; intros s Hq; cbn [app Worker.whileLoop].
  - reflexivity.
  - unfold sendWithThrottle. cbn [withWorker Worker.worker setQueue throttle].
    destruct (throttle (worker s) >? 0)%Z; cbn [fst snd]; exists rest; split;
      (reflexivity || exact Hq).
  - discriminate.
  - apply IH. exact Hq.
Qed.

Lemma closing_step (result : option value) (s : System) (e : Event) :
  Invariant s -> Closing s ->
  nextEvent A result s = Some e ->
  Closing (step e s) /\ polling (step e s) = polling s.
Proof.
  intros [Hc Hidle] Hcl He. unfold nextEvent in He.
  pose proof (inv_single A s Hc) as Hlen.
  destruct (tasks s) as [|t [|t' ts]] eqn:Htasks; [discriminate| |simpl in Hlen; lia].
  destruct Hcl as [(_ & q & Hq & Hsh)|(Hnil & _)]; [|rewrite Htasks in Hnil; discriminate].
  destruct t as [p ms|p|]; inversion He; subst e; cbn [Worker.step]; rewrite Htasks;
    cbn [nth_error].
  - split; [|reflexivity]. left. unfold wake, replaceTask.
    cbn [callSend withTasks Worker.worker Worker.tasks]. rewrite Htasks.
    cbn [firstn skipn app]. split; [discriminate|]. exists q. auto.
  - split; [|destruct result; reflexivity]. left. unfold sendDone, replaceTask.
    destruct result;
      cbn [withTasks withWorker incThrottle decThrottle setThrottle
             Worker.worker Worker.tasks queue];
      rewrite Htasks; cbn [firstn skipn app]; (split; [discriminate|]); exists q; auto.
  - pose proof (whileLoop_spec A (queue (worker s)) s eq_refl (inv_behind A s Hc)) as Hloop.
    pose proof (whileLoop_closing q s Hsh) as Hclose.
    pose proof (whileLoop_frame A (queue (worker s)) s) as Hframe.
    cbv zeta in Hloop, Hframe. rewrite <- Hq in Hclose. unfold resume.
    destruct (Worker.whileLoop A (queue (worker s)) s) as [s' t].
    cbn [fst snd] in Hloop, Hclose, Hframe.
    destruct Hloop as (H1 & _). destruct Hframe as (_ & _ & Hpoll & _).
    unfold replaceTask. cbn [withTasks Worker.polling]. split; [|exact Hpoll].
    unfold Closing. cbn [withTasks Worker.worker Worker.tasks].
    rewrite H1, Htasks. cbn [firstn skipn app].
    destruct t as [t|].
    + left. split; [discriminate | exact Hclose].
    + right. split; [reflexivity | exact Hclose].
Qed.

Lemma drain_closing (results : nat -> option value) (fuel : nat) :
  forall s : System,
    Invariant s -> Closing s ->
    Closing (drain results fuel s) /\ polling (drain results fuel s) = polling s.
Proof.
  induction fuel as [|fuel IH]; intros s Hinv Hcl; cbn [Worker.drain]; [auto|].
  destruct (nextEvent A (results (List.length (transport s))) s) as [e|] eqn:He; [|auto].
  destruct (closing_step _ s e Hinv Hcl He) as (Hcl' & Hpoll).
  destruct (IH (step e s) (step_invariant A VERSION process_version config e s Hinv) Hcl')
    as (H1 & H2).
  split; [exact H1 | congruence].
Qed.

(** *** The bound on the queue *)

Lemma payloads_length (q : list QueueItem) :
  (List.length (payloads q) <= List.length q)%nat.
Proof. induction q as [|[p| |r] q IH]; simpl; lia. Qed.

Lemma whileLoop_shrinks (q : list QueueItem) :
  forall s : System,
    queue (worker s) = q ->
    (List.length (payloads (queue (worker (fst (whileLoop q s)))))
     <= List.length (payloads q))%nat.
Proof.
  induction q as [|[p| |r] rest IH]; intros s Hq; cbn [Worker.whileLoop].
  - cbn [fst withWorker Worker.worker setProcessing queue]. rewrite Hq. auto.
  - unfold sendWithThrottle. cbn [withWorker Worker.worker setQueue throttle].
    destruct (throttle (worker s) >? 0)%Z; simpl; lia.
  - simpl. lia.
  - cbn [payloads]. apply IH. reflexivity.
Qed.

Lemma processQueue_shrinks (s : System) :
  (List.length (payloads (queue (worker (processQueue s))))
   <= List.length (payloads (queue (worker s))))%nat.
Proof.
  unfold Worker.processQueue.
  destruct (processing (worker s) || (Z.of_nat (List.length (queue (worker s))) =? 0)%Z);
    [auto|].
  pose proof (whileLoop_shrinks (queue (worker (withWorker A (setProcessing true) s)))
                (withWorker A (setProcessing true) s) eq_refl) as H.
  destruct (Worker.whileLoop A (queue (worker (withWorker A (setProcessing true) s)))
              (withWorker A (setProcessing true) s)) as [s' t].
  exact H.
Qed.

Definition Bounded (s : System) : Prop :=
  Z.of_nat (List.length (payloads (queue (worker s)))) <= Z.max 0 (maxQueueSize config).

Lemma bounded_step (e : Event) (s : System) : Bounded s -> Bounded (step e s).
Proof.
  unfold Bounded. intros Hb.
  destruct e as [n|pr t|pr t|k|k r|k|pr|pr]; cbn [Worker.step].
  - unfold Worker.push. destruct (shutdown (worker s)); [exact Hb|].
    destruct (Z.geb_spec (Z.of_nat (List.length (queue (worker s)))) (maxQueueSize config));
      [exact Hb|].
    cbn [snd].
    pose proof (processQueue_shrinks
                  (recordAccepted A (toPayload VERSION process_version n)
                     (withWorker A (enqueue (Payload (toPayload VERSION process_version n)))
                        s))) as Hshr.
    cbn [recordAccepted withWorker enqueue setQueue Worker.worker queue] in Hshr.
    rewrite payloads_app, length_app in Hshr. simpl in Hshr.
    pose proof (payloads_length (queue (worker s))). lia.
  - unfold Worker.stop. destruct (shutdown (worker s)); [exact Hb|].
    cbn [setTimer startPolling withWorker enqueue setQueue setShutdown Worker.worker queue].
    rewrite payloads_app. simpl. rewrite app_nil_r. exact Hb.
  - unfold Worker.flush. cbn [setTimer Worker.worker].
    pose proof (processQueue_shrinks (withWorker A (enqueue (FLUSH pr)) s)) as H.
    cbn [withWorker enqueue setQueue Worker.worker queue] in H.
    rewrite payloads_app in H. simpl in H. rewrite app_nil_r in H. lia.
  - destruct (nth_error (tasks s) k) as [[p ms|p|]|]; auto.
  - destruct (nth_error (tasks s) k) as [[p ms|p|]|]; auto.
    destruct r; exact Hb.
  - destruct (nth_error (tasks s) k) as [[p ms|p|]|]; auto.
    unfold resume. pose proof (whileLoop_shrinks (queue (worker s)) s eq_refl) as H.
    destruct (Worker.whileLoop A (queue (worker s)) s) as [s' t].
    cbn [fst] in H. cbn [withTasks Worker.worker]. lia.
  - destruct (Worker.hasTimer A pr s); auto.
  - destruct (Worker.isPolling A pr s && drained (worker s)); auto.
Qed.

Lemma bounded_run (events : list Event) :
  forall s, Bounded s -> Bounded (run events s).
Proof.
  induction events as [|e events IH]; intros s Hb; [exact Hb|].
  simpl. apply IH. now apply bounded_step.
Qed.

(** X23. [stop] on an idle worker is resolved by its timeout only. The
    shutdown marker is queued, but nothing runs the loop: as long as no
    [flush] is called, whatever else happens (pushes, polls of
    [waitForDrain], other timers), the marker stays in the queue, no
    send is made and the promise of [stop] is not resolved; its timeout
    resolves it. *)
Theorem stop_idle_waits_for_timeout (promise : nat) (t : option Z) (s : System)
    (events : list Event) :
  tasks s = [] ->
  processing (worker s) = false ->
  shutdown (worker s) = false ->
  ~ In promise (settled s) ->
  forallb (apart promise) events = true ->
  let s' := run events (stop promise t s) in
  ~ In promise (settled s') /\
  queue (worker s') = queue (worker s) ++ [SHUTDOWN] /\
  transport s' = transport s /\
  In promise (settled (step (Timeout promise) s')).
Proof.
  intros Ht Hp Hs Hn He s'.
  assert (P : Parked promise s (stop promise t s)).
  { unfold Worker.stop. rewrite Hs. repeat split; auto. }
  destruct (parked_run promise s events _ P He) as (_ & _ & _ & Hq & Htr & Hn').
  repeat split; auto.
  apply timer_run. left. unfold Worker.stop. rewrite Hs.
  unfold Worker.hasTimer. cbn [setTimer Worker.timers]. rewrite existsb_app.
  simpl. rewrite Nat.eqb_refl. apply orb_true_r.
Qed.

(** X24. [flush] on an idle worker that is not shut down returns a
    promise that is resolved already: the loop runs at once, resolves
    the marker and leaves the queue empty, and no send is made. *)
Theorem flush_idle_resolves_at_once (promise : nat) (t : option Z) (s : System) :
  Invariant s ->
  processing (worker s) = false ->
  shutdown (worker s) = false ->
  let s' := flush promise t s in
  In promise (settled s') /\
  queue (worker s') = [] /\
  processing (worker s') = false /\
  tasks s' = tasks s /\
  transport s' = transport s.
Proof.
  intros [Hc Hidle] Hp Hs s'. subst s'.
  pose proof (no_marker_before_shutdown A s Hc Hs) as Hno.
  unfold Worker.flush. cbn [setTimer Worker.worker Worker.settled Worker.tasks Worker.transport].
  unfold Worker.processQueue.
  cbn [withWorker enqueue setQueue setProcessing Worker.worker queue processing].
  rewrite Hp. cbn [orb].
  replace (Z.of_nat (List.length (queue (worker s) ++ [FLUSH promise])) =? 0)%Z
    with false
    by (symmetry; apply Z.eqb_neq; rewrite length_app; simpl List.length; lia).
  destruct (whileLoop_markers_only (queue (worker s) ++ [FLUSH promise])
              (withWorker A (setProcessing true)
                 (withWorker A (enqueue (FLUSH promise)) s)))
    as (s' & E & H1 & H2 & H3 & H4 & H5).
  { rewrite payloads_app, (Hidle Hp). reflexivity. }
  { rewrite hasShutdown_app, Hno. reflexivity. }
  cbn [withWorker enqueue setQueue setProcessing Worker.worker queue] in E.
  rewrite E. cbn [withTasks spawn Worker.worker Worker.settled Worker.tasks Worker.transport].
  split; [apply H5, in_or_app; right; now left|].
  split; [apply H2; destruct (queue (worker s)); discriminate|].
  split; [exact H1|]. split; [exact H3 | exact H4].
Qed.

(** X25. [stop] on a busy worker shuts down gracefully: left alone, the
    loop sends every payload accepted so far, in order, ends at the
    shutdown marker with an empty queue, and the next poll of
    [waitForDrain] resolves the promise of [stop]. *)
Theorem stop_busy_drains (promise : nat) (t : option Z)
    (results : nat -> option value) (s : System) :
  Invariant s ->
  tasks s <> [] ->
  shutdown (worker s) = false ->
  let s1 := stop promise t s in
  let s2 := drain results (weight s1) s1 in
  tasks s2 = [] /\
  queue (worker s2) = [] /\
  processing (worker s2) = false /\
  transport s2 = accepted s /\
  In promise (settled (step (DrainCheck promise) s2)).
Proof.
  intros Hinv Ht Hs s1 s2.
  assert (Hinv1 : Invariant s1)
    by apply (step_invariant A VERSION process_version config (Stop promise t) s Hinv).
  assert (E1 : s1 = setTimer A promise (nullish t (shutdownTimeout config) * 1000)
                      (startPolling A promise
                         (withWorker A (enqueue SHUTDOWN)
                            (withWorker A (setShutdown true) s)))).
  { subst s1. unfold Worker.stop. rewrite Hs. reflexivity. }
  assert (Hcl1 : Closing s1).
  { left. rewrite E1. split; [exact Ht|]. exists (queue (worker s)).
    split; [reflexivity|]. apply (no_marker_before_shutdown A s (proj1 Hinv) Hs). }
  destruct (drain_completes A VERSION process_version config results (weight s1) s1
              Hinv1 (Nat.le_refl _)) as (Hinv2 & Ht2 & Hacc & _).
  destruct (drain_closing results (weight s1) s1 Hinv1 Hcl1) as (Hcl2 & Hpoll).
  fold s2 in Hinv2, Ht2, Hacc, Hcl2, Hpoll.
  assert (Hq2 : queue (worker s2) = []).
  { destruct Hcl2 as [(Hne & _)|(_ & Hq)]; [congruence | exact Hq]. }
  assert (Hp2 : processing (worker s2) = false).
  { rewrite (inv_processing A s2 (proj1 Hinv2)), Ht2. reflexivity. }
  split; [exact Ht2|]. split; [exact Hq2|]. split; [exact Hp2|].
  split.
  { rewrite (idle_all_sent A s2 Hinv2 Ht2), Hacc, E1. reflexivity. }
  cbn [Worker.step]. unfold Worker.isPolling, drained. rewrite Hpoll, Hq2, Hp2, E1.
  cbn [setTimer startPolling Worker.polling]. rewrite existsb_app. simpl.
  rewrite Nat.eqb_refl, orb_true_r. simpl. apply in_or_app. right. now left.
Qed.

(** X26. After any sequence of events on a new worker, the queue holds
    at most [maxQueueSize] payloads (none when [maxQueueSize] is not
    positive), markers not counted, and the throttle level lies between
    0 and [MAX_THROTTLE]. *)
Theorem queue_and_throttle_bounded (events : list Event) :
  let s := run events new in
  Z.of_nat (List.length (payloads (queue (worker s)))) <= Z.max 0 (maxQueueSize config) /\
  0 <= throttle (worker s) <= MAX_THROTTLE.
Proof.
  intros s. split.
  - apply (bounded_run events). unfold Bounded. simpl. lia.
  - apply (inv_throttle A s).
    apply (run_invariant A VERSION process_version config events), Invariant_new.
Qed.

End Machine.

(** *** Concrete runs *)

Lemma stop_idle_waits_for_timeout_witness :
  let s' :=
    run exact "1.0.0" "v18.0.0" small_config
      [Push (notice_of "late"); DrainCheck 1; Stop 2 None; Timeout 2]
      (stop exact small_config 1 None (new exact)) in
  ~ In 1%nat (settled exact s') /\
  queue (worker exact s') = [SHUTDOWN] /\
  In 1%nat (settled exact (step exact "1.0.0" "v18.0.0" small_config (Timeout 1) s')).
Proof.
  intros s'.
  destruct (stop_idle_waits_for_timeout exact "1.0.0" "v18.0.0" small_config
              1 None (new exact)
              [Push (notice_of "late"); DrainCheck 1; Stop 2 None; Timeout 2]
              eq_refl eq_refl eq_refl (fun H => H) eq_refl)
    as (H1 & H2 & _ & H4).
  split; [exact H1|]. split; [exact H2 | exact H4].
Defined.

Lemma flush_idle_resolves_at_once_witness :
  In 7%nat (settled exact (flush exact small_config 7 None (new exact))) /\
  queue (worker exact (flush exact small_config 7 None (new exact))) = [].
Proof.
  destruct (flush_idle_resolves_at_once exact small_config 7 None (new exact)
              (Invariant_new exact) eq_refl eq_refl) as (H1 & H2 & _).
  split; [exact H1 | exact H2].
Defined.

Lemma stop_busy_drains_witness :
  let s := sample_run [Push (notice_of "first"); Push (notice_of "second")] in
  let s1 := stop exact small_config 1 None s in
  let s2 := drain exact "1.0.0" "v18.0.0" small_config (fun _ => ok) (weight exact s1) s1 in
  transport exact s2 = [payload_of "first"; payload_of "second"] /\
  In 1%nat (settled exact (step exact "1.0.0" "v18.0.0" small_config (DrainCheck 1) s2)).
Proof.
  intros s s1 s2.
  assert (Hinv : Invariant exact s).
  { apply (run_invariant exact "1.0.0" "v18.0.0" small_config), Invariant_new. }
  assert (Ht : tasks exact s <> []) by (vm_compute; discriminate).
  destruct (stop_busy_drains exact "1.0.0" "v18.0.0" small_config 1 None (fun _ => ok) s
              Hinv Ht eq_refl) as (_ & _ & _ & H4 & H5).
  split; [exact H4 | exact H5].
Defined.

End WorkerFacts.

(* ================================================================== *)
(** ** src/integrations: what is read off a request *)
(* ================================================================== *)

(** [extractHeaders], [extractRemoteIp] and [extractUser] are written
    alike in the Express, Koa and Fastify integrations; this is the
    text of the Express and Koa ones. *)
Module Integrations.
Import JSString JSValue Notice.

Local Open Scope list_scope.

Definition FILTERED_HEADERS : list string :=
  ["cookie"; "authorization"; "x-api-key"; "x-auth-token"].

Definition EXCLUDED_HEADERS : list string :=
  ["host"; "connection"; "accept-encoding"].

(** A value of [req.headers]: [string | string[] | undefined]. *)
Inductive HeaderValue : Type :=
| Single (value : string)
| Multiple (values : list string)
| Unset.

(** [list.includes(s)] on an array of strings. *)
Definition contains (l : list string) (s : string) : bool :=
  existsb (String.eqb s) l.

(** One turn of the loop of [extractHeaders]; [headers[key] = text]
    is an ordinary assignment of a text on an object made by [{}]: for
    the key [__proto__] it runs the setter of [Object.prototype], which
    ignores a text, and no property is added. *)
Definition addHeader (headers : list (string * string)) (entry : string * HeaderValue)
  : list (string * string) :=
  let (key, value) := entry in
  let lowerKey := toLowerCase key in
  if contains EXCLUDED_HEADERS lowerKey then headers
  else if contains FILTERED_HEADERS lowerKey then JSObject.put headers key "[FILTERED]"
  else match value with
       | Single value => JSObject.put headers key value
       | Multiple values => JSObject.put headers key (join ", " values)
       | Unset => headers
       end.

Definition extractHeaders (headers : list (string * HeaderValue)) : list (string * string) :=
  fold_left addHeader headers [].

(** What [req.get] answers and the addresses of the request that
    [extractRemoteIp] reads. *)
Record Addresses : Type := {
  x_forwarded_for : option string;
  x_real_ip : option string;
  ip : option string;
  remoteAddress : option string
}.

Definition COMMA : ascii := ascii_of_nat 44.

Definition extractRemoteIp (req : Addresses) : option string :=
  match present (x_forwarded_for req) with
  | Some forwarded => Some (trim (hd EmptyString (split COMMA forwarded)))
  | None =>
      match present (x_real_ip req) with
      | Some realIp => Some realIp
      | None =>
          match present (ip req) with
          | Some ip => Some ip
          | None => remoteAddress req
          end
      end
  end.

(** [!v] is false *)
Definition truthyValue (v : value) : bool :=
  match v with
  | VUndefined | VNull => false
  | VBool b => b
  | VNumber n | VBigInt n => negb (n =? 0)%Z
  | VString s => truthy s
  | _ => true
  end.

(** [typeof v === 'object'] *)
Definition isObject (v : value) : bool :=
  match v with
  | VNull | VBuffer _ | VDate _ | VArray _ | VObject _ => true
  | _ => false
  end.

(** The named properties of an object that is not a function: those of
    a plain object, and none of the names read here for an array, a
    [Buffer] or a [Date]. *)
Definition properties (v : value) : list (string * value) :=
  match v with VObject fields => fields | _ => [] end.

(** ['k' in o] *)
Definition has (o : list (string * value)) (k : string) : bool :=
  match JSObject.get o k with Some _ => true | None => false end.

(** [o.k] *)
Definition read (o : list (string * value)) (k : string) : value :=
  nullish (JSObject.get o k) VUndefined.

(** [user] is [req.user], [undefined] when the request has none. *)
Definition extractUser (user : value) : option (list (string * value)) :=
  if negb (truthyValue user) || negb (isObject user) then None
  else
    let userObj := properties user in
    let result := [] in
    let result :=
      if has userObj "id" then JSObject.set result "id" (read userObj "id") else result in
    let result :=
      if has userObj "email" then JSObject.set result "email" (read userObj "email")
      else result in
    let result :=
      if has userObj "name" then JSObject.set result "name" (read userObj "name")
      else if has userObj "fullName"
      then JSObject.set result "name" (read userObj "fullName")
      else if has userObj "displayName"
      then JSObject.set result "name" (read userObj "displayName")
      else if has userObj "username"
      then JSObject.set result "name" (read userObj "username")
      else result in
    if (Z.of_nat (List.length (JSObject.keys result)) >? 0)%Z then Some result else None.

(** *** Headers *)

(** What the loop writes for one entry of the headers. *)
Definition written (key : string) (value : HeaderValue) : option string :=
  if contains EXCLUDED_HEADERS (toLowerCase key) then None
  else if JSObject.isProto key then None
  else if contains FILTERED_HEADERS (toLowerCase key) then Some "[FILTERED]"
  else match value with
       | Single value => Some value
       | Multiple values => Some (join ", " values)
       | Unset => None
       end.

Lemma get_put {A : Type} (o : list (string * A)) (k : string) (v : A) (key : string) :
  JSObject.get (JSObject.put o k v) key =
  if negb (JSObject.isProto k) && String.eqb k key then Some v else JSObject.get o key.
Proof.
  unfold JSObject.put. destruct (JSObject.isProto k); [reflexivity|]. cbn [negb andb].
  destruct (String.eqb_spec k key) as [->|Hne].
  - apply JSObject.get_set_eq.
  - now apply JSObject.get_set_neq.
Qed.

Lemma get_addHeader (acc : list (string * string)) (k : string) (value : HeaderValue)
    (key : string) :
  JSObject.get (addHeader acc (k, value)) key =
  if String.eqb k key
  then match written k value with Some x => Some x | None => JSObject.get acc key end
  else JSObject.get acc key.
Proof.
  unfold addHeader, written.
  destruct (contains EXCLUDED_HEADERS (toLowerCase k));
    [destruct (String.eqb k key); reflexivity|].
  destruct (contains FILTERED_HEADERS (toLowerCase k)).
  - rewrite get_put.
    destruct (JSObject.isProto k), (String.eqb k key); reflexivity.
  - destruct value; rewrite ?get_put;
      destruct (JSObject.isProto k), (String.eqb k key); reflexivity.
Qed.

Lemma get_fold_addHeader (headers : list (string * HeaderValue)) :
  forall (acc : list (string * string)) (key : string),
    NoDup (JSObject.keys headers) ->
    JSObject.get (fold_left addHeader headers acc) key =
    match JSObject.get headers key with
    | Some value =>
        match written key value with Some x => Some x | None => JSObject.get acc key end
    | None => JSObject.get acc key
    end.
Proof.
  induction headers as [|[k value] rest IH]; intros acc key Hnd; [reflexivity|].
  inversion Hnd as [|? ? Hnot Hnd']; subst.
  cbn [fold_left]. rewrite (IH _ key Hnd'), get_addHeader. cbn [JSObject.get].
  destruct (String.eqb_spec k key) as [->|Hne].
  - rewrite (JSObject.get_absent rest key Hnot). reflexivity.
  - reflexivity.
Qed.

(** X27. For the headers of a request, by the name of a header: [host],
    [connection] and [accept-encoding], in any letter case, are never in
    what [extractHeaders] returns, and neither is [__proto__], which
    the assignment does not make a property; [cookie], [authorization],
    [x-api-key] and [x-auth-token], in any letter case, hold the
    placeholder when the request has them, whatever their value; any
    other header holds its text, or its texts joined by a comma and a
    space, and is left out when it is [undefined]. *)
Theorem extractHeaders_lookup (headers : list (string * HeaderValue)) (key : string) :
  NoDup (JSObject.keys headers) ->
  JSObject.get (extractHeaders headers) key =
  if contains EXCLUDED_HEADERS (toLowerCase key) then None
  else if JSObject.isProto key then None
  else
    match JSObject.get headers key with
    | None => None
    | Some value =>
        if contains FILTERED_HEADERS (toLowerCase key) then Some "[FILTERED]"
        else match value with
             | Single value => Some value
             | Multiple values => Some (join ", " values)
             | Unset => None
             end
    end.
Proof.
  intros Hnd. unfold extractHeaders. rewrite (get_fold_addHeader headers [] key Hnd).
  unfold written. cbn [JSObject.get].
  destruct (JSObject.get headers key) as [value|];
    destruct (contains EXCLUDED_HEADERS (toLowerCase key)); try reflexivity;
    destruct (JSObject.isProto key); try reflexivity.
  destruct (contains FILTERED_HEADERS (toLowerCase key)); [reflexivity|].
  destruct value; reflexivity.
Qed.

Definition sample_headers : list (string * HeaderValue) :=
  [("Host", Single "example.com");
   ("__proto__", Single "x");
   ("Authorization", Single "Bearer abc");
   ("accept", Multiple ["text/html"; "application/json"]);
   ("x-trace", Unset)].

Lemma extractHeaders_lookup_witness :
  JSObject.get (extractHeaders sample_headers) "Host" = None /\
  JSObject.get (extractHeaders sample_headers) "__proto__" = None /\
  JSObject.get (extractHeaders sample_headers) "Authorization" = Some "[FILTERED]" /\
  JSObject.get (extractHeaders sample_headers) "accept" = Some "text/html, application/json".
Proof.
  assert (Hnd : NoDup (JSObject.keys sample_headers)).
  { repeat constructor; simpl; intuition discriminate. }
  rewrite !(extractHeaders_lookup sample_headers _ Hnd). repeat split.
Defined.

(** *** The remote address *)

Fixpoint hasChar (c : ascii) (s : string) : bool :=
  match s with
  | EmptyString => false
  | String a t => Ascii.eqb a c || hasChar c t
  end.

Lemma split_first (sep : ascii) (a rest : string) :
  hasChar sep a = false ->
  split sep (a ++ String sep rest)%string = a :: split sep rest.
Proof.
  induction a as [|c a IH]; intros Hno.
  - simpl. now rewrite Ascii.eqb_refl.
  - simpl in Hno. apply orb_false_elim in Hno. destruct Hno as [Hc Ha].
    cbn [append split]. rewrite Hc, (IH Ha). reflexivity.
Qed.

Lemma split_whole (sep : ascii) (a : string) :
  hasChar sep a = false -> split sep a = [a].
Proof.
  induction a as [|c a IH]; intros Hno; [reflexivity|].
  simpl in Hno. apply orb_false_elim in Hno. destruct Hno as [Hc Ha].
  cbn [split]. rewrite Hc, (IH Ha). reflexivity.
Qed.

(** X28. When [x-forwarded-for] lists several addresses, the remote
    address is the first one, trimmed, whatever [x-real-ip] and the
    socket say; when it holds one address, the remote address is that
    one, trimmed. *)
Theorem extractRemoteIp_first_forwarded (req : Addresses) (first rest : string) :
  hasChar COMMA first = false ->
  (x_forwarded_for req = Some (first ++ String COMMA rest)%string ->
   extractRemoteIp req = Some (trim first)) /\
  (first <> EmptyString -> x_forwarded_for req = Some first ->
   extractRemoteIp req = Some (trim first)).
Proof.
  intros Hno. split.
  - intros E. unfold extractRemoteIp. rewrite E. unfold present.
    replace (truthy (first ++ String COMMA rest)%string) with true by (destruct first; reflexivity).
    rewrite (split_first COMMA first rest Hno). reflexivity.
  - intros Hne E. unfold extractRemoteIp. rewrite E. unfold present.
    replace (truthy first) with true by (destruct first; [congruence | reflexivity]).
    rewrite (split_whole COMMA first Hno). reflexivity.
Qed.

Lemma extractRemoteIp_first_forwarded_witness :
  extractRemoteIp {| x_forwarded_for := Some " 203.0.113.7 , 10.0.0.1";
                     x_real_ip := Some "10.0.0.9";
                     ip := Some "127.0.0.1";
                     remoteAddress := None |}
  = Some "203.0.113.7".
Proof.
  destruct (extractRemoteIp_first_forwarded
              {| x_forwarded_for := Some " 203.0.113.7 , 10.0.0.1";
                 x_real_ip := Some "10.0.0.9";
                 ip := Some "127.0.0.1";
                 remoteAddress := None |}
              " 203.0.113.7 " " 10.0.0.1" eq_refl) as (H & _).
  exact (H eq_refl).
Defined.

(** *** The user *)

(** The first of the values that is set. *)
Fixpoint firstSet (l : list (option value)) : option value :=
  match l with
  | [] => None
  | Some v :: _ => Some v
  | None :: rest => firstSet rest
  end.

Lemma extractUser_shape (user : value) :
  let fields := properties user in
  let name := firstSet [JSObject.get fields "name"; JSObject.get fields "fullName";
                        JSObject.get fields "displayName"; JSObject.get fields "username"] in
  match extractUser user with
  | Some result =>
      truthyValue user = true /\ isObject user = true /\
      result <> [] /\
      JSObject.get result "id" = JSObject.get fields "id" /\
      JSObject.get result "email" = JSObject.get fields "email" /\
      JSObject.get result "name" = name /\
      incl (JSObject.keys result) ["id"; "email"; "name"]
  | None =>
      truthyValue user = false \/ isObject user = false \/
      (JSObject.get fields "id" = None /\ JSObject.get fields "email" = None /\
       name = None)
  end.
Proof.
  intros fields name. subst name. unfold extractUser, has, read.
  destruct (truthyValue user); [|left; reflexivity].
  destruct (isObject user); [|right; left; reflexivity].
  cbn [negb orb]. fold fields.
  destruct (JSObject.get fields "id") as [id|];
    destruct (JSObject.get fields "email") as [email|];
    destruct (JSObject.get fields "name") as [n1|];
    try destruct (JSObject.get fields "fullName") as [n2|];
    try destruct (JSObject.get fields "displayName") as [n3|];
    try destruct (JSObject.get fields "username") as [n4|];
    cbn;
    try (right; right; repeat split; reflexivity);
    (split; [reflexivity|]; split; [reflexivity|]; split; [discriminate|];
     split; [reflexivity|]; split; [reflexivity|]; split; [reflexivity|];
     intros k Hk; simpl in Hk |- *; tauto).
Qed.

(** X29. Of the user object of a request only [id], [email] and a name
    are kept: the result holds [id] and [email] as the object has them,
    and under [name] the first that the object has of [name],
    [fullName], [displayName] and [username]; it holds no other key; and
    there is no result at all when the object has none of the six, or
    when the user is not an object. *)
Theorem extractUser_fields (user : value) :
  let fields := properties user in
  let name := firstSet [JSObject.get fields "name"; JSObject.get fields "fullName";
                        JSObject.get fields "displayName"; JSObject.get fields "username"] in
  match extractUser user with
  | Some result =>
      truthyValue user = true /\ isObject user = true /\
      result <> [] /\
      JSObject.get result "id" = JSObject.get fields "id" /\
      JSObject.get result "email" = JSObject.get fields "email" /\
      JSObject.get result "name" = name /\
      forall k, ~ In k ["id"; "email"; "name"] -> JSObject.get result k = None
  | None =>
      truthyValue user = false \/ isObject user = false \/
      (JSObject.get fields "id" = None /\ JSObject.get fields "email" = None /\
       name = None)
  end.
Proof.
  intros fields name. pose proof (extractUser_shape user) as H. cbv zeta in H.
  fold fields in H. fold name in H.
  destruct (extractUser user) as [result|]; [|exact H].
  destruct H as (H1 & H2 & H3 & H4 & H5 & H6 & Hincl).
  repeat (split; [assumption|]).
  intros k Hk. apply JSObject.get_absent. intro Hin. apply Hk, Hincl, Hin.
Qed.

End Integrations.
